(** * Trello-Bot: authorization gate, credential resolver, conversation
      sessions, free-text structuring and connection supervisor

    A shallow embedding of the stateful core of the Telegram/Trello bot
    (the classes [TrelloAssistantBot], [AuthManager], [TokenManager],
    [ConfigManager] and [ConnectionManager]) together with the properties its
    specification states about it.

    Conventions of the embedding:
    - JavaScript strings are [string]s (byte strings, UTF-8); the whitespace
      class [\s] is modelled on its ASCII members.
    - A JSON file is an [option] document: [None] stands for a file that is
      missing or cannot be parsed (the [catch] branch of every loader), and a
      [writable] flag says whether [fs.writeFile] currently succeeds (the
      [catch] branch of every saver only logs).
    - Every [async] handler runs atomically: interleavings of two handlers
      at their [await] points are outside the model.
    - Wall-clock readings ([new Date()], [Date.now()]) are arguments. *)

From Stdlib Require Import ZArith QArith Qminmax Ascii String List Bool Lia.
From stdpp Require Import base option list gmap strings pretty.
Import ListNotations.

Local Open Scope string_scope.
Local Open Scope Z_scope.

(* ===================================================================== *)
(** * Part I: the program                                                *)
(* ===================================================================== *)

(** ** JavaScript array and value helpers *)

Module Js.

(** [Array.prototype.includes] on an array of strings. *)
Fixpoint includes (x : string) (l : list string) : bool :=
  match l with
  | [] => false
  | y :: l' => if String.eqb y x then true else includes x l'
  end.

(** [Array.prototype.indexOf]; [None] is JavaScript's [-1]. *)
Fixpoint indexOf (x : string) (l : list string) : option nat :=
  match l with
  | [] => None
  | y :: l' => if String.eqb y x then Some 0%nat
               else option_map S (indexOf x l')
  end.

(** [arr.splice(i, 1)]. *)
Definition splice1 {A} (i : nat) (l : list A) : list A :=
  take i l ++ drop (S i) l.

(** [arr.push(x)]. *)
Definition push {A} (x : A) (l : list A) : list A := l ++ [x].

(** Truthiness of a string value: only the empty string is falsy. *)
Definition truthy (s : string) : bool :=
  match s with EmptyString => false | _ => true end.

(** Truthiness of a possibly [undefined]/[null] string property. *)
Definition truthyOpt (o : option string) : bool :=
  match o with Some s => truthy s | None => false end.

(** [a || b] on possibly-undefined strings. *)
Definition orElse (o : option string) (d : string) : string :=
  match o with
  | Some s => if truthy s then s else d
  | None => d
  end.

(** [Number.prototype.toString] on an integer id. *)
Definition toString (n : Z) : string := pretty n.

End Js.

(** ** Telegram messages *)

Inductive ChatType := Private | Group | Supergroup | Channel.

Record Msg := mkMsg {
  from_id : Z;
  from_first_name : option string;
  from_username : option string;
  chat_id : Z;
  chat_type : ChatType;
  chat_title : option string;
  text : option string;
  entities : bool
}.

(** [msg.chat.type === 'group' || msg.chat.type === 'supergroup'] *)
Definition isGroupChat (msg : Msg) : bool :=
  match chat_type msg with
  | Group | Supergroup => true
  | Private | Channel => false
  end.

(** ** AuthManager (class [AuthManager], second half of [src/bot.js]) *)

Module AuthManager.

Inductive Status := Pending | Approved | Rejected.
Inductive Kind := KUser | KGroup.

Record AccessRequest := mkRequest {
  userId : string;
  userName : string;
  chatId : string;
  chatTitle : string;
  type : Kind;
  timestamp : string;
  status : Status
}.

(** The document kept in [data/authorized.json]. *)
Record Authorized := mkAuthorized {
  users : list string;
  groups : list string;
  pendingRequests : list AccessRequest
}.

Record t := mk {
  adminIds : list string;
  authorized : Authorized;          (* this.authorized *)
  authFile : option Authorized;     (* contents of this.authFile *)
  writable : bool                   (* does fs.writeFile succeed? *)
}.

Definition set_authorized (a : Authorized) (am : t) : t :=
  mk (adminIds am) a (authFile am) (writable am).
Definition set_users (us : list string) (a : Authorized) : Authorized :=
  mkAuthorized us (groups a) (pendingRequests a).
Definition set_groups (gs : list string) (a : Authorized) : Authorized :=
  mkAuthorized (users a) gs (pendingRequests a).
Definition set_pendingRequests (ps : list AccessRequest) (a : Authorized)
  : Authorized :=
  mkAuthorized (users a) (groups a) ps.
Definition set_status (s : Status) (r : AccessRequest) : AccessRequest :=
  mkRequest (userId r) (userName r) (chatId r) (chatTitle r) (type r)
            (timestamp r) s.

(** [for (const adminId of this.adminIds)
       if (!users.includes(adminId)) users.push(adminId)] *)
Fixpoint ensureAdmins (admins : list string) (us : list string)
  : list string :=
  match admins with
  | [] => us
  | a :: rest =>
      ensureAdmins rest (if Js.includes a us then us else Js.push a us)
  end.

Definition loadAuthorized (am : t) : t :=
  match authFile am with
  | Some d =>
      set_authorized (set_users (ensureAdmins (adminIds am) (users d)) d) am
  | None => am    (* catch: 'Error loading authorized list' *)
  end.

Definition saveAuthorized (am : t) : t :=
  if writable am
  then mk (adminIds am) (authorized am) (Some (authorized am)) (writable am)
  else am.        (* catch: 'Error saving authorized list' *)

(** The constructor followed by [init()]: when the file cannot be reached
    the admins are written out as the first authorized users. *)
Definition create (admins : list string) (file : option Authorized)
                  (w : bool) : t :=
  let am := mk admins (mkAuthorized [] [] []) file w in
  match file with
  | Some _ => loadAuthorized am
  | None => saveAuthorized (set_authorized (mkAuthorized admins [] []) am)
  end.

Definition isAdmin (uid : string) (am : t) : bool :=
  Js.includes uid (adminIds am).

Definition isAuthorizedUser (uid : string) (am : t) : bool * t :=
  let am := loadAuthorized am in
  (Js.includes uid (users (authorized am)), am).

Definition isAuthorizedGroup (gid : string) (am : t) : bool * t :=
  let am := loadAuthorized am in
  (Js.includes gid (groups (authorized am)), am).

Definition isAuthorized (msg : Msg) (am : t) : bool * t :=
  let uid := Js.toString (from_id msg) in
  let cid := Js.toString (chat_id msg) in
  if isAdmin uid am then (true, am)
  else if isGroupChat msg then isAuthorizedGroup cid am
  else isAuthorizedUser uid am.

Definition authorizeUser (uid : string) (am : t) : bool * t :=
  let am := loadAuthorized am in
  if negb (Js.includes uid (users (authorized am)))
  then (true,
        saveAuthorized
          (set_authorized
             (set_users (Js.push uid (users (authorized am))) (authorized am))
             am))
  else (false, am).

Definition unauthorizeUser (uid : string) (am : t) : bool * t :=
  let am := loadAuthorized am in
  if isAdmin uid am then (false, am)      (* Cannot remove admin *)
  else
    match Js.indexOf uid (users (authorized am)) with
    | Some i =>
        (true,
         saveAuthorized
           (set_authorized
              (set_users (Js.splice1 i (users (authorized am)))
                         (authorized am))
              am))
    | None => (false, am)
    end.

Definition authorizeGroup (gid : string) (am : t) : bool * t :=
  let am := loadAuthorized am in
  if negb (Js.includes gid (groups (authorized am)))
  then (true,
        saveAuthorized
          (set_authorized
             (set_groups (Js.push gid (groups (authorized am)))
                         (authorized am))
             am))
  else (false, am).

Definition unauthorizeGroup (gid : string) (am : t) : bool * t :=
  let am := loadAuthorized am in
  match Js.indexOf gid (groups (authorized am)) with
  | Some i =>
      (true,
       saveAuthorized
         (set_authorized
            (set_groups (Js.splice1 i (groups (authorized am)))
                        (authorized am))
            am))
  | None => (false, am)
  end.

(** [req.userId === request.userId && req.chatId === request.chatId] *)
Definition samePair (uid cid : string) (req : AccessRequest) : bool :=
  String.eqb (userId req) uid && String.eqb (chatId req) cid.

Definition addAccessRequest (uid uname cid ctitle : string) (k : Kind)
                            (now : string) (am : t)
  : option AccessRequest * t :=
  let am := loadAuthorized am in
  let request := mkRequest uid uname cid ctitle k now Pending in
  let exists_ := existsb (samePair uid cid) (pendingRequests (authorized am)) in
  if negb exists_
  then (Some request,
        saveAuthorized
          (set_authorized
             (set_pendingRequests
                (Js.push request (pendingRequests (authorized am)))
                (authorized am))
             am))
  else (None, am).

Definition isPending (r : AccessRequest) : bool :=
  match status r with Pending => true | _ => false end.

Definition getPendingRequests (am : t) : list AccessRequest * t :=
  let am := loadAuthorized am in
  (filter (fun r => isPending r = true) (pendingRequests (authorized am)), am).

(** [request.status = s] writes through the reference [request], which
    points into the array that was current when the reference was taken.
    The array of [this.authorized] is that one only while [this.authorized]
    has not been replaced by a later successful [loadAuthorized]. *)
Definition writeStatus (aliased : bool) (i : nat) (s : Status) (am : t) : t :=
  if aliased
  then set_authorized
         (set_pendingRequests
            (alter (set_status s) i (pendingRequests (authorized am)))
            (authorized am))
         am
  else am.

Definition approveRequest (requestIndex : Z) (am : t)
  : option AccessRequest * t :=
  let am := loadAuthorized am in
  if (0 <=? requestIndex)
     && (requestIndex <? Z.of_nat (length (pendingRequests (authorized am))))
  then
    match pendingRequests (authorized am) !! Z.to_nat requestIndex with
    | Some request =>
        let am1 :=
          match type request with
          | KGroup => snd (authorizeGroup (chatId request) am)
          | KUser => snd (authorizeUser (userId request) am)
          end in
        (* the nested call re-loaded: on success [this.authorized] is a
           fresh object and [request] no longer points into it *)
        let aliased := match authFile am with Some _ => false | None => true end in
        let am2 := writeStatus aliased (Z.to_nat requestIndex) Approved am1 in
        (Some (set_status Approved request), saveAuthorized am2)
    | None => (None, am)
    end
  else (None, am).

Definition rejectRequest (requestIndex : Z) (am : t)
  : option AccessRequest * t :=
  let am := loadAuthorized am in
  if (0 <=? requestIndex)
     && (requestIndex <? Z.of_nat (length (pendingRequests (authorized am))))
  then
    match pendingRequests (authorized am) !! Z.to_nat requestIndex with
    | Some request =>
        let am1 := writeStatus true (Z.to_nat requestIndex) Rejected am in
        (Some (set_status Rejected request), saveAuthorized am1)
    | None => (None, am)
    end
  else (None, am).

Definition clearPendingRequests (am : t) : t :=
  let am := loadAuthorized am in
  saveAuthorized
    (set_authorized
       (set_pendingRequests
          (filter (fun r => isPending r = true)
                  (pendingRequests (authorized am)))
          (authorized am))
       am).

Fixpoint pushNew (xs : list string) (acc : list string) : list string :=
  match xs with
  | [] => acc
  | x :: rest => pushNew rest (if Js.includes x acc then acc else Js.push x acc)
  end.

Definition importAuthorizedList (us gs : list string) (am : t) : t :=
  let am := loadAuthorized am in
  saveAuthorized
    (set_authorized
       (mkAuthorized (pushNew us (users (authorized am)))
                     (pushNew gs (groups (authorized am)))
                     (pendingRequests (authorized am)))
       am).

(** One call of the manager's API, or a fault of the file system under
    it, for reasoning about every sequence of calls. *)
Inductive Op :=
| OpQuery                       (* any read-only call: it re-loads *)
| OpAuthorizeUser (uid : string)
| OpUnauthorizeUser (uid : string)
| OpAuthorizeGroup (gid : string)
| OpUnauthorizeGroup (gid : string)
| OpAddAccessRequest (uid uname cid ctitle : string) (k : Kind) (now : string)
| OpApproveRequest (i : Z)
| OpRejectRequest (i : Z)
| OpClearPendingRequests
| OpImportAuthorizedList (us gs : list string)
| EnvWritable (b : bool)        (* the disk starts or stops accepting writes *)
| EnvFileLost.                  (* the file becomes unreadable *)

Definition step (o : Op) (am : t) : t :=
  match o with
  | OpQuery => loadAuthorized am
  | OpAuthorizeUser u => snd (authorizeUser u am)
  | OpUnauthorizeUser u => snd (unauthorizeUser u am)
  | OpAuthorizeGroup g => snd (authorizeGroup g am)
  | OpUnauthorizeGroup g => snd (unauthorizeGroup g am)
  | OpAddAccessRequest u n c ct k now =>
      snd (addAccessRequest u n c ct k now am)
  | OpApproveRequest i => snd (approveRequest i am)
  | OpRejectRequest i => snd (rejectRequest i am)
  | OpClearPendingRequests => clearPendingRequests am
  | OpImportAuthorizedList us gs => importAuthorizedList us gs am
  | EnvWritable b => mk (adminIds am) (authorized am) (authFile am) b
  | EnvFileLost => mk (adminIds am) (authorized am) None (writable am)
  end.

Fixpoint run (ops : list Op) (am : t) : t :=
  match ops with
  | [] => am
  | o :: rest => run rest (step o am)
  end.

(** The (requester, chat) pair a request is about. *)
Definition pairOf (r : AccessRequest) : string * string :=
  (userId r, chatId r).

(** The number of requests of a list that are pending for a given pair. *)
Definition pendingFor (uid cid : string) (l : list AccessRequest) : nat :=
  length (filter (fun r => isPending r = true ∧ pairOf r = (uid, cid)) l).

End AuthManager.

(** ** ConnectionManager (class [ConnectionManager],
       [src/connection-manager.js]) *)

Module ConnectionManager.

Record t := mk {
  isConnected : bool;
  reconnectAttempts : Z;
  maxReconnectAttempts : Z;
  reconnectDelay : Q;                      (* milliseconds *)
  lastSuccessfulConnection : option Z      (* epoch milliseconds *)
}.

(** The constructor. *)
Definition create : t := mk false 0 10 (5000 # 1) None.

Record StatusReport := mkStatus {
  st_isConnected : bool;
  st_reconnectAttempts : Z;
  st_lastSuccessfulConnection : option Z;
  st_uptime : Z
}.

(** [getStatus()], with [Date.now()] as [now]. *)
Definition getStatus (now : Z) (c : t) : StatusReport :=
  mkStatus (isConnected c) (reconnectAttempts c) (lastSuccessfulConnection c)
    (match lastSuccessfulConnection c with
     | Some last => (now - last) / 1000       (* Math.floor *)
     | None => 0
     end).

(** The supervisor together with what it has set in motion: the
    reconnect attempts that are between [stopPolling()] and the outcome of
    [startPolling()], the retry timers that have not fired yet, and the
    number of reconnect attempts begun so far. *)
Record Sup := mkSup {
  cm : t;
  inFlight : nat;
  timers : nat;
  attemptsBegun : nat
}.

Definition start : Sup := mkSup create 0 0 0.

(** What [bot.getMe()] did in the health check. *)
Inductive Probe :=
| ProbeAlive        (* resolved with the bot's account *)
| ProbeEmpty        (* resolved with a falsy value *)
| ProbeError.       (* rejected *)

Inductive Event :=
| HealthCheck (p : Probe) (now : Z)   (* the 60 s interval fires *)
| RetryTimer                          (* a [setTimeout] retry fires *)
| AttemptEnds (ok : bool).            (* stop/wait/start finished *)

(** [handleDisconnection()] up to its first [await]. *)
Definition handleDisconnection (s : Sup) : Sup :=
  let c := cm s in
  if maxReconnectAttempts c <=? reconnectAttempts c
  then s      (* 'Max reconnection attempts reached': return *)
  else mkSup (mk (isConnected c) (reconnectAttempts c + 1)
                 (maxReconnectAttempts c) (reconnectDelay c)
                 (lastSuccessfulConnection c))
             (S (inFlight s)) (timers s) (S (attemptsBegun s)).

(** The rest of [handleDisconnection()]: the [try] succeeded, or the
    [catch] grows the delay and schedules the next call. *)
Definition attemptEnds (ok : bool) (s : Sup) : Sup :=
  let c := cm s in
  if ok
  then mkSup (mk true 0 (maxReconnectAttempts c) (5000 # 1)
                 (lastSuccessfulConnection c))
             (pred (inFlight s)) (timers s) (attemptsBegun s)
  else mkSup (mk (isConnected c) (reconnectAttempts c)
                 (maxReconnectAttempts c)
                 (Qmin (reconnectDelay c * (3 # 2)) (60000 # 1))
                 (lastSuccessfulConnection c))
             (pred (inFlight s)) (S (timers s)) (attemptsBegun s).

(** The callback of [startHealthCheck()]. *)
Definition healthCheck (p : Probe) (now : Z) (s : Sup) : Sup :=
  let c := cm s in
  match p with
  | ProbeAlive =>
      mkSup (mk true 0 (maxReconnectAttempts c) (5000 # 1) (Some now))
            (inFlight s) (timers s) (attemptsBegun s)
  | ProbeEmpty => s
  | ProbeError =>
      handleDisconnection
        (mkSup (mk false (reconnectAttempts c) (maxReconnectAttempts c)
                   (reconnectDelay c) (lastSuccessfulConnection c))
               (inFlight s) (timers s) (attemptsBegun s))
  end.

(** One event; [None] when the event cannot happen in this state. *)
Definition step (e : Event) (s : Sup) : option Sup :=
  match e with
  | HealthCheck p now => Some (healthCheck p now s)
  | RetryTimer =>
      match timers s with
      | O => None
      | S k =>
          Some (handleDisconnection
                  (mkSup (cm s) (inFlight s) k (attemptsBegun s)))
      end
  | AttemptEnds ok =>
      match inFlight s with
      | O => None
      | S _ => Some (attemptEnds ok s)
      end
  end.

Fixpoint run (es : list Event) (s : Sup) : option Sup :=
  match es with
  | [] => Some s
  | e :: rest =>
      match step e s with
      | Some s' => run rest s'
      | None => None
      end
  end.

(** Events that restore the connection. *)
Definition restores (e : Event) : bool :=
  match e with
  | HealthCheck ProbeAlive _ => true
  | AttemptEnds true => true
  | _ => false
  end.

End ConnectionManager.

(** ** JavaScript strings and the regular expressions the bot uses *)

Module Text.

Definition LF : ascii := ascii_of_nat 10.
Definition CR : ascii := ascii_of_nat 13.
Definition nl : string := String LF EmptyString.

(** The ASCII members of [\s] (also what [trim()] removes):
    TAB, LF, VT, FF, CR and the space. *)
Definition isSpace (a : ascii) : bool :=
  let n := nat_of_ascii a in
  ((9 <=? n)%nat && (n <=? 13)%nat) || (n =? 32)%nat.

(** [[^\s]] *)
Definition notSpace (a : ascii) : bool := negb (isSpace a).

(** [.]: anything but a line terminator. *)
Definition notLineTerminator (a : ascii) : bool :=
  negb (Ascii.eqb a LF || Ascii.eqb a CR).

(** [\d] *)
Definition isDigit (a : ascii) : bool :=
  let n := nat_of_ascii a in (48 <=? n)%nat && (n <=? 57)%nat.

(** Canonicalisation of the [i] flag on ASCII letters. *)
Definition toLower (a : ascii) : ascii :=
  let n := nat_of_ascii a in
  if (65 <=? n)%nat && (n <=? 90)%nat then ascii_of_nat (n + 32) else a.

Definition eqCI (a b : ascii) : bool := Ascii.eqb (toLower a) (toLower b).

Definition isEmpty (s : string) : bool :=
  match s with EmptyString => true | _ => false end.

Definition isSomeB {A} (o : option A) : bool :=
  match o with Some _ => true | None => false end.

(** *** [trim], [split], [join] *)

Fixpoint trimStart (s : string) : string :=
  match s with
  | String a s' => if isSpace a then trimStart s' else s
  | EmptyString => EmptyString
  end.

Fixpoint trimEnd (s : string) : string :=
  match s with
  | String a s' =>
      let t := trimEnd s' in
      if isSpace a && isEmpty t then EmptyString else String a t
  | EmptyString => EmptyString
  end.

Definition trim (s : string) : string := trimEnd (trimStart s).

(** [s.split('\n')] *)
Fixpoint splitLines (s : string) : list string :=
  match s with
  | EmptyString => [EmptyString]
  | String a s' =>
      let r := splitLines s' in
      if Ascii.eqb a LF then EmptyString :: r
      else match r with
           | h :: t => String a h :: t
           | [] => [String a EmptyString]
           end
  end.

(** [arr.join(sep)] *)
Fixpoint join (sep : string) (l : list string) : string :=
  match l with
  | [] => EmptyString
  | [x] => x
  | x :: rest => x ++ sep ++ join sep rest
  end.

(** [text.split('\n').map(line => line.trim()).filter(line => line)]
    (the second [filter] argument of [handleWorkspaceSetup],
    [line.length > 0], selects the same lines). *)
Definition nonEmptyLines (s : string) : list string :=
  List.filter (fun l => negb (isEmpty l)) (List.map trim (splitLines s)).

Fixpoint dropN (n : nat) (s : string) : string :=
  match n, s with
  | S k, String _ s' => dropN k s'
  | _, _ => s
  end.

(** *** A backtracking matcher, in continuation-passing style

    Each combinator consumes a prefix of the input and hands the rest to
    its continuation; when the continuation fails, a greedy quantifier
    gives back one character and tries again, as the regular-expression
    engine does. *)

Section Matcher.
Context {R : Type}.

(** A literal, compared under the [i] flag. *)
Fixpoint litCI (lit : string) (s : string) (k : string → option R)
  : option R :=
  match lit with
  | EmptyString => k s
  | String c lit' =>
      match s with
      | String a s' => if eqCI c a then litCI lit' s' k else None
      | EmptyString => None
      end
  end.

(** One character of a class. *)
Definition one (p : ascii → bool) (s : string) (k : string → option R)
  : option R :=
  match s with
  | String a s' => if p a then k s' else None
  | EmptyString => None
  end.

(** [c?] *)
Definition opt (p : ascii → bool) (s : string) (k : string → option R)
  : option R :=
  match s with
  | String a s' =>
      if p a
      then match k s' with Some r => Some r | None => k s end
      else k s
  | EmptyString => k s
  end.

(** [c*], greedy; the continuation also receives what was consumed. *)
Fixpoint manyCap (p : ascii → bool) (s : string)
         (k : string → string → option R) : option R :=
  match s with
  | String a s' =>
      if p a
      then match manyCap p s' (fun cap rest => k (String a cap) rest) with
           | Some r => Some r
           | None => k EmptyString s
           end
      else k EmptyString s
  | EmptyString => k EmptyString s
  end.

(** [c*] *)
Definition many (p : ascii → bool) (s : string) (k : string → option R)
  : option R :=
  manyCap p s (fun _ rest => k rest).

(** [(c+)] *)
Definition plusCap (p : ascii → bool) (s : string)
           (k : string → string → option R) : option R :=
  match s with
  | String a s' =>
      if p a then manyCap p s' (fun cap rest => k (String a cap) rest)
      else None
  | EmptyString => None
  end.

(** [c+] *)
Definition plus (p : ascii → bool) (s : string) (k : string → option R)
  : option R :=
  plusCap p s (fun _ rest => k rest).

(** An unanchored search: the leftmost position where [re] matches. *)
Fixpoint search (re : string → option R) (s : string) : option R :=
  match re s with
  | Some r => Some r
  | None =>
      match s with
      | String _ s' => search re s'
      | EmptyString => None
      end
  end.
End Matcher.

(** *** The patterns *)

(** [/(https?:\/\/[^\s]+)/i] at the start of [s]: the URL and the rest. *)
Definition urlAt (s : string) : option (string * string) :=
  litCI "http" s (fun s1 =>
  opt (eqCI "s") s1 (fun s2 =>
  litCI "://" s2 (fun s3 =>
  plusCap notSpace s3 (fun _ rest =>
    let n := (String.length s - String.length rest)%nat in
    Some (substring 0 n s, rest))))).

(** [s.match(urlRegex) || []] with the [g] flag: every match, left to
    right, the search resuming after each match. The counter is the number
    of characters still covered by the last match. *)
Fixpoint matchUrlsFrom (covered : nat) (s : string) : list string :=
  match s with
  | EmptyString => []
  | String _ s' =>
      match covered with
      | S k => matchUrlsFrom k s'
      | O =>
          match urlAt s with
          | Some (url, _) => url :: matchUrlsFrom (String.length url - 1) s'
          | None => matchUrlsFrom 0 s'
          end
      end
  end.

Definition matchUrls (s : string) : list string := matchUrlsFrom 0 s.

(** [s.replace(urlRegex, '')] with the [g] flag. *)
Fixpoint removeUrlsFrom (covered : nat) (s : string) : string :=
  match s with
  | EmptyString => EmptyString
  | String a s' =>
      match covered with
      | S k => removeUrlsFrom k s'
      | O =>
          match urlAt s with
          | Some (url, _) => removeUrlsFrom (String.length url - 1) s'
          | None => String a (removeUrlsFrom 0 s')
          end
      end
  end.

Definition removeUrls (s : string) : string := removeUrlsFrom 0 s.

(** [s.replace(pat, '')] with a string pattern: the first occurrence. *)
Fixpoint removeFirst (pat : string) (s : string) : string :=
  if String.prefix pat s then dropN (String.length pat) s
  else match s with
       | String a s' => String a (removeFirst pat s')
       | EmptyString => EmptyString
       end.

(** The bullet U+2022 as its three UTF-8 bytes. *)
Definition bullet : string :=
  String (ascii_of_nat 226) (String (ascii_of_nat 128)
    (String (ascii_of_nat 162) EmptyString)).

(** [/^[-*•]\s+/]: the rest of the line after the marker. *)
Definition afterBullet (s : string) : option string :=
  match one (fun a => Ascii.eqb a "-" || Ascii.eqb a "*") s
            (fun s1 => plus isSpace s1 Some) with
  | Some r => Some r
  | None => litCI bullet s (fun s1 => plus isSpace s1 Some)
  end.

(** [/^\d+\.\s+/]: the rest of the line after the number. *)
Definition afterNumber (s : string) : option string :=
  plus isDigit s (fun s1 =>
  one (Ascii.eqb ".") s1 (fun s2 =>
  plus isSpace s2 Some)).

(** [s.replace(re, '')] for the two anchored patterns. *)
Definition stripBullet (s : string) : string :=
  match afterBullet s with Some r => r | None => s end.
Definition stripNumber (s : string) : string :=
  match afterNumber s with Some r => r | None => s end.

(** [s.replace(/\s+/g, ' ')] *)
Fixpoint collapseFrom (inRun : bool) (s : string) : string :=
  match s with
  | EmptyString => EmptyString
  | String a s' =>
      if isSpace a
      then if inRun then collapseFrom true s'
           else String " " (collapseFrom true s')
      else String a (collapseFrom false s')
  end.

Definition collapseSpaces (s : string) : string := collapseFrom false s.

(** [/API[_\s-]?KEY\s*[:=]?\s*(.+)/i]: the captured group. *)
Definition apiKeyMatch (line : string) : option string :=
  search (fun s =>
    litCI "API" s (fun s1 =>
    opt (fun a => Ascii.eqb a "_" || isSpace a || Ascii.eqb a "-") s1 (fun s2 =>
    litCI "KEY" s2 (fun s3 =>
    many isSpace s3 (fun s4 =>
    opt (fun a => Ascii.eqb a ":" || Ascii.eqb a "=") s4 (fun s5 =>
    many isSpace s5 (fun s6 =>
    plusCap notLineTerminator s6 (fun cap _ => Some cap)))))))) line.

(** [/TOKEN\s*[:=]?\s*(.+)/i]: the captured group. *)
Definition tokenMatch (line : string) : option string :=
  search (fun s =>
    litCI "TOKEN" s (fun s1 =>
    many isSpace s1 (fun s2 =>
    opt (fun a => Ascii.eqb a ":" || Ascii.eqb a "=") s2 (fun s3 =>
    many isSpace s3 (fun s4 =>
    plusCap notLineTerminator s4 (fun cap _ => Some cap)))))) line.

(** *** [extractUrlsFromText] ([src/bot.js]) *)

Record Extracted := mkExtracted {
  cleanText : string;
  urls : list string;
  listItems : list string;
  description : string
}.

(** [found.forEach(url => { s = s.replace(url, '').trim(); })] *)
Definition stripEach (found : list string) (s : string) : string :=
  fold_left (fun acc url => trim (removeFirst url acc)) found s.

(** The body of the loop over [lines[1..]]: the URLs found so far and the
    list items collected so far. *)
Definition processLine (acc : list string * list string) (line0 : string)
  : list string * list string :=
  let '(urls, items) := acc in
  let lineUrls := matchUrls line0 in
  let urls := (urls ++ lineUrls)%list in
  let line := stripEach lineUrls line0 in
  if isSomeB (afterBullet line) || isSomeB (afterNumber line)
  then
    let cleanItem := trim (stripNumber (stripBullet line)) in
    if Js.truthy cleanItem
    then (urls, Js.push ("- " ++ cleanItem) items)
    else (urls, items)
  else if Js.truthy line
  then (urls, Js.push ("- " ++ line) items)
  else (urls, items).

Definition extractUrlsFromText (text : string) : Extracted :=
  let lines := nonEmptyLines text in
  let '(mainTitle, urls, listItems) :=
    match lines with
    | first :: _ :: _ =>
        let titleUrls := matchUrls first in
        let mainTitle := stripEach titleUrls first in
        let '(urls, items) :=
          fold_left processLine (tl lines) (titleUrls, []) in
        (mainTitle, urls, items)
    | _ =>
        let titleUrls := matchUrls text in
        (stripEach titleUrls text, titleUrls, [])
    end in
  let mainTitle := trim (collapseSpaces mainTitle) in
  let description :=
    if (0 <? length listItems)%nat
    then "Details:" ++ nl ++ join nl listItems
    else EmptyString in
  let description :=
    if (0 <? length urls)%nat
    then (if Js.truthy description then description ++ nl ++ nl
          else description)
         ++ "Links:" ++ nl ++ join nl (List.map (fun url => "- " ++ url) urls)
    else description in
  mkExtracted
    (if Js.truthy mainTitle then mainTitle else trim (removeUrls text))
    urls listItems description.

End Text.

(** ** TokenManager (class [TokenManager], in [src/trello-service.js]) *)

Module TokenManager.

(** One entry of [this.tokens] (in memory: plain text; on file: the
    [token] and [apiKey] fields encrypted). Absent properties are [None].
    The object is used as a map from chat ids: its keys are the decimal
    texts of the ids, and the model is a map over these. A key that names
    a member of [Object.prototype] (which a lookup in the plain object
    would find although no record is stored) is the id of no chat and has
    no counterpart here. *)
Record TokenData := mkToken {
  token : string;
  apiKey : option string;
  workspace : option string;
  addedAt : option string;
  lastUsed : option string
}.

(** AES-256-CBC under [this.encryptionKey], each direction with its
    fall-back to the input when the primitive throws. *)
Record Cipher := mkCipher {
  encrypt : string → string;
  decrypt : string → string
}.

Record t := mk {
  defaultApiKey : string;
  defaultToken : string;
  tokens : gmap string TokenData;               (* this.tokens *)
  tokensFile : option (gmap string TokenData);  (* data/tokens.json *)
  writable : bool;
  cipher : Cipher
}.

Definition set_tokens (m : gmap string TokenData) (tm : t) : t :=
  mk (defaultApiKey tm) (defaultToken tm) m (tokensFile tm) (writable tm)
     (cipher tm).

(** What [getToken] answers. *)
Record Credentials := mkCredentials {
  cred_apiKey : string;
  cred_token : string;
  cred_workspace : option string
}.

Definition loadEntry (tm : t) (value : TokenData) : option TokenData :=
  if Js.truthy (token value)
  then Some (mkToken
               (decrypt (cipher tm) (token value))
               (Some (if Js.truthyOpt (apiKey value)
                      then decrypt (cipher tm) (default EmptyString (apiKey value))
                      else defaultApiKey tm))
               (workspace value) (addedAt value) (lastUsed value))
  else None.

Definition loadTokens (tm : t) : t :=
  match tokensFile tm with
  | Some encrypted => set_tokens (omap (loadEntry tm) encrypted) tm
  | None => set_tokens ∅ tm          (* catch: this.tokens = {} *)
  end.

Definition saveEntry (now : string) (tm : t) (value : TokenData) : TokenData :=
  mkToken
    (encrypt (cipher tm) (token value))
    (Some (encrypt (cipher tm) (Js.orElse (apiKey value) (defaultApiKey tm))))
    (workspace value)
    (Some (Js.orElse (addedAt value) now))
    (lastUsed value).

Definition saveTokens (now : string) (tm : t) : t :=
  if writable tm
  then mk (defaultApiKey tm) (defaultToken tm) (tokens tm)
          (Some (saveEntry now tm <$> tokens tm)) (writable tm) (cipher tm)
  else tm.                           (* catch: 'Error saving tokens' *)

Definition setToken (chatId : string) (tok : string)
           (key : option string) (ws : option string) (now : string) (tm : t)
  : t :=
  saveTokens now
    (set_tokens
       (<[chatId := mkToken tok
                      (Some (Js.orElse key (defaultApiKey tm)))
                      (Some (Js.orElse ws "Unknown Workspace"))
                      (Some now) (Some now)]> (tokens tm))
       tm).

Definition getToken (chatId : string) (now : string) (tm : t)
  : Credentials * t :=
  let tm := loadTokens tm in
  match tokens tm !! chatId with
  | Some d =>
      let d' := mkToken (token d) (apiKey d) (workspace d) (addedAt d)
                        (Some now) in
      let tm := saveTokens now (set_tokens (<[chatId := d']> (tokens tm)) tm) in
      (mkCredentials (Js.orElse (apiKey d') (defaultApiKey tm)) (token d')
                     (workspace d'),
       tm)
  | None =>
      (mkCredentials (defaultApiKey tm) (defaultToken tm)
                     (Some "Default Workspace"),
       tm)
  end.

Definition removeToken (chatId : string) (now : string) (tm : t) : bool * t :=
  match tokens tm !! chatId with
  | Some _ => (true, saveTokens now (set_tokens (delete chatId (tokens tm)) tm))
  | None => (false, tm)
  end.

Definition hasCustomToken (chatId : string) (tm : t) : bool * t :=
  let tm := loadTokens tm in
  (bool_decide (is_Some (tokens tm !! chatId)), tm).

(** The answer of [GET /1/members/me]. *)
Inductive HttpResult :=
| HttpOk (username fullName email : option string)
| HttpError (message : string).

Inductive Validation :=
| Valid (username fullName email : option string)
| Invalid (error : string).

(** [validateToken], given what the request did. *)
Definition validateToken (response : HttpResult) : Validation :=
  match response with
  | HttpOk u f e => Valid u f e
  | HttpError m => Invalid m
  end.

End TokenManager.

(** ** ConfigManager (class [ConfigManager], in
       [src/connection-manager.js]) *)

Module ConfigManager.

Record ChatConfig := mkChatConfig {
  boardId : option string;
  defaultListId : option string;
  updatedAt : option string
}.

(** [{}] *)
Definition emptyConfig : ChatConfig := mkChatConfig None None None.

Record t := mk {
  configFile : option (gmap string ChatConfig);   (* data/config.json *)
  writable : bool
}.

Definition loadConfig (cfg : t) : gmap string ChatConfig :=
  match configFile cfg with
  | Some c => c
  | None => ∅                   (* catch: return {} *)
  end.

Definition saveConfig (c : gmap string ChatConfig) (cfg : t) : t :=
  if writable cfg then mk (Some c) (writable cfg) else cfg.

(** [config[chatId] || {}] *)
Definition getChatConfig (chatId : string) (cfg : t) : ChatConfig :=
  default emptyConfig (loadConfig cfg !! chatId).

(** [setChatConfig(chatId, settings)]: [settings] overrides the
    properties it carries. *)
Definition setChatConfig (chatId : string)
           (settings : ChatConfig → ChatConfig) (now : string) (cfg : t) : t :=
  let c := loadConfig cfg in
  let old := default emptyConfig (c !! chatId) in
  let new := settings old in
  saveConfig
    (<[chatId := mkChatConfig (boardId new) (defaultListId new) (Some now)]> c)
    cfg.

Definition clearChatConfig (chatId : string) (cfg : t) : t :=
  saveConfig (delete chatId (loadConfig cfg)) cfg.

End ConfigManager.

(** ** TrelloAssistantBot (class [TrelloAssistantBot], [src/bot.js]):
       sessions and workspaces *)

Module Bot.

Inductive Step := WaitingForIdea | WaitingForList | WaitingForCredentials.
Inductive SessionType := AddIdea | SetWorkspace.

Record SessionData := mkData {
  originalUserId : Z;
  userName : option string;
  idea : option string
}.

Record Session := mkSession {
  step : Step;
  type : SessionType;
  data : option SessionData;     (* a set-workspace session has none *)
  chatId : Z
}.

(** A list of a Trello board. *)
Record TList := mkList { list_id : string; list_name : string; closed : bool }.

(** The services out of the bot's hands, as the bot sees them. *)
Record Remote := mkRemote {
  (* [trello.getListsOnBoard(boardId)] of the client built for a
     credential pair; [None] when the request fails *)
  listsOnBoard : string → string → option (list TList);
  (* [GET /1/members/me?key=..&token=..] *)
  membersMe : string → string → TokenManager.HttpResult;
  (* [trello.addCard(name, desc, listId)] of a client, as
     client, list, name, description: the URL of the new card, or [None]
     when the request fails *)
  addCard : string → string → string → string → option string
}.

(** The text sent to a chat, by template. *)
Inductive Reply :=
| OperationCancelled
| NoBoardSelected
| NoListsFound
| SelectListForIdea (buttons : list (string * string)) (ideaText : string)
| SessionError                       (* 'An error occurred. Please try again with /addidea' *)
| InvalidFormat
| InvalidCredentials (error : string) (apiKeyLength tokenLength : nat)
| WorkspaceConfigured (account email : option string)
| UsingDefaultWorkspace
| WorkspaceRemoved
| WorkspaceRemoveFailed
| IdeaPrompt
| WorkspaceInstructions
(* edits of the list prompt and answers to its buttons *)
| AnswerSessionExpired
| EditSessionExpired
| EditIdeaAdded (listName cardName cardUrl : string)
| AnswerIdeaCaptured
| AnswerFailedToCreate
| EditFailedToCreate.

Inductive Exn :=
| SendFailed                         (* [bot.sendMessage] rejected *)
| TrelloFailed (message : string)    (* a [TrelloService] call threw *)
| JsError (message : string)         (* [throw new Error(message)] *)
| TypeError.                         (* a property of [undefined] *)

Record t := mk {
  userSessions : gmap string Session;
  trelloServices : gset string;      (* the keys of the cached clients *)
  tokenManager : TokenManager.t;
  config : ConfigManager.t;
  botUsername : string;
  (* the world around the bot *)
  remote : Remote;
  sendOutcomes : list bool;          (* of the next calls of the chat
                                        transport; past the end they
                                        succeed *)
  (* what the bot has emitted *)
  outbox : list (Z * Reply);
  errorLog : list Exn                (* console.error('Error handling message:') *)
}.

Definition set_userSessions (m : gmap string Session) (b : t) : t :=
  mk m (trelloServices b) (tokenManager b) (config b) (botUsername b)
     (remote b) (sendOutcomes b) (outbox b) (errorLog b).
Definition set_trelloServices (s : gset string) (b : t) : t :=
  mk (userSessions b) s (tokenManager b) (config b) (botUsername b)
     (remote b) (sendOutcomes b) (outbox b) (errorLog b).
Definition set_tokenManager (tm : TokenManager.t) (b : t) : t :=
  mk (userSessions b) (trelloServices b) tm (config b) (botUsername b)
     (remote b) (sendOutcomes b) (outbox b) (errorLog b).
Definition set_config (c : ConfigManager.t) (b : t) : t :=
  mk (userSessions b) (trelloServices b) (tokenManager b) c (botUsername b)
     (remote b) (sendOutcomes b) (outbox b) (errorLog b).

(** *** Handlers as computations that may throw *)

Inductive Res (A : Type) :=
| Ok (a : A)
| Thrown (e : Exn).
Arguments Ok {A} a.
Arguments Thrown {A} e.

Definition M (A : Type) : Type := t → Res A * t.

Definition ret {A} (a : A) : M A := fun b => (Ok a, b).

Definition bind {A B} (m : M A) (k : A → M B) : M B :=
  fun b => match m b with
           | (Ok a, b') => k a b'
           | (Thrown e, b') => (Thrown e, b')
           end.

Definition throw {A} (e : Exn) : M A := fun b => (Thrown e, b).

(** [try { body } catch (error) { handler }] *)
Definition tryCatch {A} (body : M A) (handler : Exn → M A) : M A :=
  fun b => match body b with
           | (Ok a, b') => (Ok a, b')
           | (Thrown e, b') => handler e b'
           end.

Definition get : M t := fun b => (Ok b, b).
Definition modify (f : t → t) : M unit := fun b => (Ok tt, f b).

#[global] Instance M_ret : MRet M := @ret.
#[global] Instance M_bind : MBind M := fun A B k m => bind m k.

(** [await this.bot.sendMessage(chatId, text, ...)] *)
Definition sendMessage (chat : Z) (r : Reply) : M unit :=
  fun b =>
    let delivered :=
      mk (userSessions b) (trelloServices b) (tokenManager b) (config b)
         (botUsername b) (remote b) (tl (sendOutcomes b))
         (outbox b ++ [(chat, r)]) (errorLog b) in
    let failed :=
      mk (userSessions b) (trelloServices b) (tokenManager b) (config b)
         (botUsername b) (remote b) (tl (sendOutcomes b))
         (outbox b) (errorLog b) in
    match sendOutcomes b with
    | false :: _ => (Thrown SendFailed, failed)
    | _ => (Ok tt, delivered)
    end.

(** [isGroup ? `group_${chatId}` : userId.toString()] *)
Definition sessionKey (msg : Msg) : string :=
  if isGroupChat msg then "group_" ++ Js.toString (chat_id msg)
  else Js.toString (from_id msg).

Definition deleteSession (key : string) : M unit :=
  modify (fun b => set_userSessions (delete key (userSessions b)) b).

(** A write through the reference [session]: it reaches the object held
    under [key], if the map still holds it. *)
Definition mutateSession (key : string) (f : Session → Session) : M unit :=
  modify (fun b => set_userSessions (alter f key (userSessions b)) b).

(** [msg.from.first_name || msg.from.username || 'User'] *)
Definition displayName (msg : Msg) : string :=
  Js.orElse (from_first_name msg) (Js.orElse (from_username msg) "User").

(** [getTrelloService(chatId)]: the key of the client in the cache. *)
Definition getTrelloService (chat : Z) (now : string) : M string :=
  fun b =>
    let '(cred, tm) :=
      TokenManager.getToken (Js.toString chat) now (tokenManager b) in
    let key := TokenManager.cred_apiKey cred ++ ":"
               ++ TokenManager.cred_token cred in
    (Ok key,
     set_trelloServices ({[key]} ∪ trelloServices b) (set_tokenManager tm b)).

(** [trello.getBoardLists(boardId)] *)
Definition getBoardLists (client : string) (board : string)
  : M (list TList) :=
  fun b =>
    match listsOnBoard (remote b) client board with
    | Some lists => (Ok (List.filter (fun l => negb (closed l)) lists), b)
    | None => (Thrown (TrelloFailed "Failed to fetch board lists"), b)
    end.

Definition getChatConfig (chat : Z) : M ConfigManager.ChatConfig :=
  fun b => (Ok (ConfigManager.getChatConfig (Js.toString chat) (config b)), b).

(** [handleInteractiveIdea] (/addidea) *)
Definition handleInteractiveIdea (msg : Msg) : M unit :=
  cfg ← getChatConfig (chat_id msg);
  if negb (Js.truthyOpt (ConfigManager.boardId cfg))
  then sendMessage (chat_id msg) NoBoardSelected
  else
    modify (fun b =>
      set_userSessions
        (<[sessionKey msg :=
             mkSession WaitingForIdea AddIdea
               (Some (mkData (from_id msg) (Some (displayName msg)) None))
               (chat_id msg)]> (userSessions b)) b) ;;
    sendMessage (chat_id msg) IdeaPrompt.

(** [handleSetWorkspace] (/setworkspace) *)
Definition handleSetWorkspace (msg : Msg) : M unit :=
  modify (fun b =>
    set_userSessions
      (<[sessionKey msg :=
           mkSession WaitingForCredentials SetWorkspace None (chat_id msg)]>
         (userSessions b)) b) ;;
  sendMessage (chat_id msg) WorkspaceInstructions.

(** The credential parser at the head of [handleWorkspaceSetup]:
    the labelled format line by line, then the two-line format. *)
Definition scanLine (acc : option string * option string) (line : string)
  : option string * option string :=
  let '(apiKey, token) := acc in
  match Text.apiKeyMatch line with
  | Some cap => (Some (Text.trim cap), token)
  | None =>
      match Text.tokenMatch line with
      | Some cap => (apiKey, Some (Text.trim cap))
      | None => (apiKey, token)
      end
  end.

Definition parseCredentials (txt : string) : option string * option string :=
  let lines := Text.nonEmptyLines (Text.trim txt) in
  let '(apiKey, token) := fold_left scanLine lines (None, None) in
  if negb (Js.truthyOpt apiKey) && negb (Js.truthyOpt token)
     && (length lines =? 2)%nat
  then (Some (Text.trim (nth 0 lines EmptyString)), Some (Text.trim (nth 1 lines EmptyString)))
  else (apiKey, token).

(** [handleWorkspaceSetup] *)
Definition handleWorkspaceSetup (now : string) (msg : Msg) (txt : string)
  : M unit :=
  let chat := chat_id msg in
  let '(apiKey, token) := parseCredentials txt in
  if negb (Js.truthyOpt apiKey) || negb (Js.truthyOpt token)
  then sendMessage chat InvalidFormat
  else
    let key := default EmptyString apiKey in
    let tok := default EmptyString token in
    b ← get;
    match TokenManager.validateToken (membersMe (remote b) key tok) with
    | TokenManager.Invalid error =>
        sendMessage chat
          (InvalidCredentials error (String.length key) (String.length tok))
    | TokenManager.Valid username fullName email =>
        let account :=
          if Js.truthyOpt fullName then fullName
          else if Js.truthyOpt username then username
          else None in
        modify (fun b =>
          set_tokenManager
            (TokenManager.setToken (Js.toString chat) tok (Some key)
               (Some (Js.orElse account "Custom Workspace")) now
               (tokenManager b)) b) ;;
        deleteSession (sessionKey msg) ;;
        modify (set_trelloServices ∅) ;;
        modify (fun b =>
          set_config
            (ConfigManager.clearChatConfig (Js.toString chat) (config b)) b) ;;
        sendMessage chat (WorkspaceConfigured account email)
    end.

(** The [try] block of [handleSessionMessage] for an idea session. A
    [return this.bot.sendMessage(..)] inside the block hands the pending
    send out of the [try]: its failure is not caught there. *)
Definition ideaStep (now : string) (msg : Msg) (txt : string)
           (session : Session) : M (option (Z * Reply)) :=
  let chat := chat_id msg in
  let key := sessionKey msg in
  match data session with
  | None => throw TypeError            (* session.data.idea = text *)
  | Some _ =>
      mutateSession key (fun s =>
        mkSession WaitingForList (type s)
          (option_map
             (fun d => mkData (originalUserId d)
                         (if Js.truthyOpt (userName d) then userName d
                          else Some (displayName msg))
                         (Some txt))
             (data s))
          (chatId s)) ;;
      cfg ← getChatConfig chat;
      if negb (Js.truthyOpt (ConfigManager.boardId cfg))
      then deleteSession key ;; mret (Some (chat, NoBoardSelected))
      else
        trello ← getTrelloService chat now;
        lists ← getBoardLists trello (default EmptyString (ConfigManager.boardId cfg));
        if (length lists =? 0)%nat
        then deleteSession key ;; mret (Some (chat, NoListsFound))
        else
          sendMessage chat
            (SelectListForIdea
               (List.map (fun l => (list_name l, "idea_list:" ++ list_id l))
                         lists)
               txt) ;;
          mret None
  end.

(** [handleSessionMessage] *)
Definition handleSessionMessage (now : string) (msg : Msg) (txt : string)
           (session : Session) : M unit :=
  match type session with
  | SetWorkspace => handleWorkspaceSetup now msg txt
  | AddIdea =>
      match step session with
      | WaitingForIdea =>
          pending ←
            tryCatch (ideaStep now msg txt session)
              (fun _ =>
                 deleteSession (sessionKey msg) ;;
                 sendMessage (chat_id msg) SessionError ;;
                 mret None);
          match pending with
          | Some (chat, r) => sendMessage chat r
          | None => ret tt
          end
      | _ => ret tt
      end
  end.

Section Mentions.
(** The quick-capture handlers reached by a mention of the bot; they are
    not part of the session flows. *)
Variables handleQuickIdea handleQuickTask : Msg → string → M unit.

(** [/idea:\s*(.+)/i] and [/task:\s*(.+)/i] *)
Definition labelled (label : string) (s : string) : option string :=
  Text.search (fun s0 =>
    Text.litCI label s0 (fun s1 =>
    Text.many Text.isSpace s1 (fun s2 =>
    Text.plusCap Text.notLineTerminator s2 (fun cap _ => Some cap)))) s.

(** [s.includes(needle)] *)
Fixpoint includesStr (needle : string) (s : string) : bool :=
  if String.prefix needle s then true
  else match s with
       | String _ s' => includesStr needle s'
       | EmptyString => false
       end.

(** [handleMentions] *)
Definition handleMentions (now : string) (msg : Msg) : M unit :=
  match text msg with
  | None => ret tt
  | Some txt =>
      if negb (Js.truthy txt) then ret tt
      else if String.prefix "/" txt && negb (String.eqb txt "/cancel")
      then ret tt
      else
        b ← get;
        let key := sessionKey msg in
        match userSessions b !! key with
        | Some session =>
            if String.eqb txt "/cancel"
            then deleteSession key ;;
                 sendMessage (chat_id msg) OperationCancelled
            else
              (if isGroupChat msg
               then match step session, data session with
                    | WaitingForIdea, Some _ =>
                        mutateSession key (fun s =>
                          mkSession (step s) (type s)
                            (option_map
                               (fun d => mkData (from_id msg)
                                           (Some (displayName msg)) (idea d))
                               (data s))
                            (chatId s))
                    | WaitingForIdea, None => throw TypeError
                    | _, _ => ret tt
                    end
               else ret tt) ;;
              b1 ← get;
              handleSessionMessage now msg txt
                (default session (userSessions b1 !! key))
        | None =>
            if entities msg && includesStr ("@" ++ botUsername b) txt
            then match labelled "idea:" txt with
                 | Some cap => handleQuickIdea msg cap
                 | None =>
                     match labelled "task:" txt with
                     | Some cap => handleQuickTask msg cap
                     | None => ret tt
                     end
                 end
            else ret tt
        end
  end.

(** The [message] listener of [setupHandlers]. *)
Definition onMessage (now : string) (msg : Msg) : M unit :=
  tryCatch (handleMentions now msg)
    (fun e => modify (fun b =>
       mk (userSessions b) (trelloServices b) (tokenManager b) (config b)
          (botUsername b) (remote b) (sendOutcomes b) (outbox b)
          (errorLog b ++ [e]))).
End Mentions.

(** [handleRemoveWorkspace] (/removeworkspace) *)
Definition handleRemoveWorkspace (now : string) (msg : Msg) : M unit :=
  let chat := chat_id msg in
  b ← get;
  let '(hasCustom, tm) :=
    TokenManager.hasCustomToken (Js.toString chat) (tokenManager b) in
  modify (set_tokenManager tm) ;;
  if negb hasCustom
  then sendMessage chat UsingDefaultWorkspace
  else
    let '(removed, tm') := TokenManager.removeToken (Js.toString chat) now tm in
    modify (set_tokenManager tm') ;;
    if removed
    then
      modify (set_trelloServices ∅) ;;
      modify (fun b =>
        set_config
          (ConfigManager.clearChatConfig (Js.toString chat) (config b)) b) ;;
      sendMessage chat WorkspaceRemoved
    else sendMessage chat WorkspaceRemoveFailed.

(** A press on an inline button. *)
Record Query := mkQuery {
  query_from_id : Z;
  query_chat_id : Z;
  query_chat_type : ChatType;
  query_data : string
}.

(** [await this.bot.editMessageText(..)] and
    [await this.bot.answerCallbackQuery(..)]: calls of the same transport. *)
Definition editMessageText (chat : Z) (r : Reply) : M unit := sendMessage chat r.
Definition answerCallbackQuery (chat : Z) (r : Reply) : M unit :=
  sendMessage chat r.

(** [trello.createCard(listId, name, desc)] *)
Definition createCard (client listId name desc : string) : M string :=
  fun b =>
    match addCard (remote b) client listId name desc with
    | Some url => (Ok url, b)
    | None => (Thrown (TrelloFailed "Failed to create Trello card"), b)
    end.

(** The light bulb U+1F4A1 as its four UTF-8 bytes. *)
Definition bulb : string :=
  String (ascii_of_nat 240) (String (ascii_of_nat 159)
    (String (ascii_of_nat 146) (String (ascii_of_nat 161) EmptyString))).

Definition querySessionKey (q : Query) : string :=
  match query_chat_type q with
  | Group | Supergroup => "group_" ++ Js.toString (query_chat_id q)
  | _ => Js.toString (query_from_id q)
  end.

(** [handleIdeaListSelection(query, listId)]: the button of a list was
    pressed. (The usage statistics it updates at the end are not part of
    this model.) *)
Definition handleIdeaListSelection (now : string) (q : Query) (listId : string)
  : M unit :=
  let chat := query_chat_id q in
  let key := querySessionKey q in
  let expired :=
    answerCallbackQuery chat AnswerSessionExpired ;;
    editMessageText chat EditSessionExpired in
  b ← get;
  match userSessions b !! key with
  | None => expired
  | Some session =>
      match data session with
      | None => throw TypeError              (* session.data.idea *)
      | Some d =>
          if negb (Js.truthyOpt (idea d)) then expired
          else
            tryCatch
              (trello ← getTrelloService chat now;
               cfg ← getChatConfig chat;
               lists ← getBoardLists trello
                         (default EmptyString (ConfigManager.boardId cfg));
               match List.find (fun l => String.eqb (list_id l) listId) lists with
               | None => throw (JsError "List not found")
               | Some selectedList =>
                   let e := Text.extractUrlsFromText
                              (default EmptyString (idea d)) in
                   let cardName := bulb ++ " " ++ Text.cleanText e in
                   url ← createCard trello listId cardName (Text.description e);
                   deleteSession key ;;
                   editMessageText chat
                     (EditIdeaAdded (list_name selectedList) cardName url) ;;
                   answerCallbackQuery chat AnswerIdeaCaptured
               end)
              (fun _ =>
                 answerCallbackQuery chat AnswerFailedToCreate ;;
                 editMessageText chat EditFailedToCreate)
      end
  end.

End Bot.

(* ===================================================================== *)
(** * Part II: vocabulary of the properties, and example states          *)
(* ===================================================================== *)

(** ** Authorization gate *)

Section AuthVocabulary.
Import AuthManager.

(** No two stored requests are about the same (requester, chat) pair. *)
Definition uniquePairs (l : list AccessRequest) : Prop :=
  NoDup (pairOf <$> l).

(** ... in memory and on file. *)
Definition requestsUnique (am : t) : Prop :=
  uniquePairs (pendingRequests (authorized am)) ∧
  ∀ d, authFile am = Some d → uniquePairs (pendingRequests d).

(** A request for the pair [(u, c)] is stored, in memory and on file. *)
Definition occupied (u c : string) (am : t) : Prop :=
  (u, c) ∈ pairOf <$> pendingRequests (authorized am) ∧
  ∀ d, authFile am = Some d → (u, c) ∈ pairOf <$> pendingRequests d.

(** Only [clearPendingRequests] removes entries from the list. *)
Definition keepsRequests (o : Op) : bool :=
  match o with
  | OpClearPendingRequests => false
  | _ => true
  end.
End AuthVocabulary.

(** One admin, one authorized user and one authorized group on file. *)
Definition demoAuth : AuthManager.t :=
  AuthManager.mk ["100"]
    (AuthManager.mkAuthorized [] [] [])
    (Some (AuthManager.mkAuthorized ["7"] ["-500"] []))
    true.

Definition demoGroupMsg (sender : Z) : Msg :=
  mkMsg sender (Some "Ann") None (-500) Supergroup (Some "Team") (Some "hi") false.

(** A fresh manager after one access request of user 7. *)
Definition demoRequests : AuthManager.t :=
  AuthManager.run
    [AuthManager.OpAddAccessRequest "7" "Ann" "7" "Private Chat"
       AuthManager.KUser "2024-01-01T00:00:00.000Z"]
    (AuthManager.create ["100"] None true).

(** ** Connection supervisor *)

(** The reconnect counter has reached the configured maximum. *)
Definition exhausted (s : ConnectionManager.Sup) : Prop :=
  ConnectionManager.maxReconnectAttempts (ConnectionManager.cm s)
  ≤ ConnectionManager.reconnectAttempts (ConnectionManager.cm s).

(** A run that reaches the maximum: one failed probe, then ten attempts
    that all fail, each retried by its timer. *)
Definition exhaustingRun : list ConnectionManager.Event :=
  ConnectionManager.HealthCheck ConnectionManager.ProbeError 0
  :: concat (replicate 10 [ConnectionManager.AttemptEnds false;
                           ConnectionManager.RetryTimer]).

Definition exhaustedSup : ConnectionManager.Sup :=
  ConnectionManager.mkSup
    (ConnectionManager.mk false 10 10 (60000 # 1) None) 0 0 10.

(** ** Free-text structuring *)

Definition milkInput : string :=
  "Buy milk" ++ Text.nl ++ "- 2% " ++ Text.nl ++ "- https://example.com/milk".

(** What the specification expects as rendered description for
    [milkInput]. *)
Definition milkDescriptionExpected : string :=
  "Details:" ++ Text.nl ++ "- 2%" ++ Text.nl ++ Text.nl
  ++ "Links:" ++ Text.nl ++ "- https://example.com/milk".

(** The specification's detail bullets: the list items, without the
    ["- "] each one is stored with. *)
Definition detailBullets (e : Text.Extracted) : list string :=
  List.map (Text.dropN 2) (Text.listItems e).

(** ** Sessions and workspaces *)

Section SessionVocabulary.
Import Bot.

(** What receiving the idea text writes into the session object. *)
Definition withIdea (msg : Msg) (txt : string) (s : Session) : Session :=
  mkSession WaitingForList (type s)
    (option_map
       (fun d => mkData (originalUserId d)
                   (if Js.truthyOpt (userName d) then userName d
                    else Some (displayName msg))
                   (Some txt))
       (data s))
    (chatId s).

(** What [handleMentions] writes into a group's idea session. *)
Definition withSender (msg : Msg) (s : Session) : Session :=
  mkSession (step s) (type s)
    (option_map
       (fun d => mkData (from_id msg) (Some (displayName msg)) (idea d))
       (data s))
    (chatId s).

(** The session a plain text finds is first stamped with its sender when
    the chat is a group. *)
Definition stamped (msg : Msg) (s : Session) : Session :=
  if isGroupChat msg then withSender msg s else s.

(** The key of the Trello client [getTrelloService] resolves for a chat. *)
Definition clientKey (chat : Z) (now : string) (b : t) : string :=
  let cred := fst (TokenManager.getToken (Js.toString chat) now (tokenManager b)) in
  TokenManager.cred_apiKey cred ++ ":" ++ TokenManager.cred_token cred.

Definition openLists (ls : list TList) : list TList :=
  List.filter (fun l => negb (closed l)) ls.

Definition listButtons (ls : list TList) : list (string * string) :=
  List.map (fun l => (list_name l, "idea_list:" ++ list_id l)) ls.
End SessionVocabulary.

Definition demoCipher : TokenManager.Cipher :=
  TokenManager.mkCipher (fun s => "enc:" ++ s) (Text.dropN 4).

(** A remote side with one open list on every board, that accepts the
    credential pair (goodkey, goodtoken) and no other, and creates every
    card it is asked for. *)
Definition demoRemote : Bot.Remote :=
  Bot.mkRemote
    (fun _ _ => Some [Bot.mkList "L1" "Ideas" false; Bot.mkList "L2" "Old" true])
    (fun key tok =>
       if String.eqb key "goodkey" && String.eqb tok "goodtoken"
       then TokenManager.HttpOk (Some "ann") (Some "Ann Lee") None
       else TokenManager.HttpError "Request failed with status code 401")
    (fun _ _ _ _ => Some "https://trello.com/c/abc").

(** A bot where chat 42 has its own credential record and a board. *)
Definition demoBot : Bot.t :=
  Bot.mk ∅ ∅
    (TokenManager.mk "defaultKey" "defaultToken" ∅
       (Some {[ "42" := TokenManager.mkToken "enc:tok42" (Some "enc:key42")
                          (Some "Ann Lee") (Some "t0") (Some "t0") ]})
       true demoCipher)
    (ConfigManager.mk
       (Some {[ "42" := ConfigManager.mkChatConfig (Some "B1") (Some "L1")
                          (Some "t0") ]})
       true)
    "trellobot" demoRemote [] [] [].

(** [demoBot] with a configuration file that rejects every write. *)
Definition demoBotFrozenConfig : Bot.t :=
  Bot.mk ∅ ∅ (Bot.tokenManager demoBot)
    (ConfigManager.mk (ConfigManager.configFile (Bot.config demoBot)) false)
    "trellobot" demoRemote [] [] [].

(** A private message of user 42. *)
Definition demoMsg (txt : string) : Msg :=
  mkMsg 42 (Some "Ann") None 42 Private None (Some txt) false.

(** The quick-capture handlers play no part in the examples. *)
Definition noCapture : Msg → string → Bot.M unit := fun _ _ => Bot.ret tt.

(** [demoBot] after [/addidea] in chat 42. *)
Definition ideaBot : Bot.t :=
  snd (Bot.handleInteractiveIdea (demoMsg "/addidea") demoBot).

(** A workspace-setup session in chat 42, and a transport that rejects the
    next message the bot sends. *)
Definition setupSession : Bot.Session :=
  Bot.mkSession Bot.WaitingForCredentials Bot.SetWorkspace None 42.

Definition setupBot : Bot.t :=
  Bot.mk {[ "42" := setupSession ]} ∅
    (Bot.tokenManager demoBot) (Bot.config demoBot) "trellobot" demoRemote
    [false] [] [].

(** The same transport failure under an idea session. *)
Definition ideaBotFailing : Bot.t :=
  Bot.mk (Bot.userSessions ideaBot) ∅
    (Bot.tokenManager demoBot) (Bot.config demoBot) "trellobot" demoRemote
    [false] [] [].

(* ===================================================================== *)
(** * The rest of the program                                            *)
(* ===================================================================== *)

(** ** AuthManager: the reports *)

Module AuthReports.

Record Stats := mkStats {
  totalUsers : nat;
  totalGroups : nat;
  pendingRequests : nat;
  totalRequests : nat
}.

(** [getStats()] *)
Definition getStats (am : AuthManager.t) : Stats * AuthManager.t :=
  let am := AuthManager.loadAuthorized am in
  let a := AuthManager.authorized am in
  (mkStats (length (AuthManager.users a)) (length (AuthManager.groups a))
     (length (filter (fun r => AuthManager.isPending r = true)
                     (AuthManager.pendingRequests a)))
     (length (AuthManager.pendingRequests a)),
   am).

Record AuthorizedList := mkAuthorizedList {
  users : list string;
  groups : list string;
  admins : list string
}.

(** [getAuthorizedList()] *)
Definition getAuthorizedList (am : AuthManager.t)
  : AuthorizedList * AuthManager.t :=
  let am := AuthManager.loadAuthorized am in
  (mkAuthorizedList (AuthManager.users (AuthManager.authorized am))
     (AuthManager.groups (AuthManager.authorized am))
     (AuthManager.adminIds am),
   am).

End AuthReports.

(** ** TrelloAssistantBot: the authorization commands ([src/bot.js]) *)

Module Access.

(** The text sent, by template. *)
Inductive Notice :=
| Unauthorized (isGroup : bool) (chat : string)
| AlreadyHaveAccess
| RequestSubmitted (kind : AuthManager.Kind) (chat : string)
| NewAccessRequest (userName : string) (kind : AuthManager.Kind)
                   (chatTitle chat : string)
| RequestAlreadyPending
| AdminOnly
| Authorized (kind : AuthManager.Kind) (target : string)
| AccessGranted
| AlreadyAuthorized (kind : AuthManager.Kind)
| AuthorizationRemoved (kind : AuthManager.Kind) (target : string)
| CouldNotUnauthorize (kind : AuthManager.Kind).

Record t := mk {
  auth : AuthManager.t;             (* this.auth *)
  sendOutcomes : list bool;         (* of the next calls of the chat
                                       transport; past the end they
                                       succeed *)
  outbox : list (string * Notice);  (* delivered messages, by chat *)
  failures : nat                    (* console.error('Failed to notify ..') *)
}.

Definition set_auth (a : AuthManager.t) (st : t) : t :=
  mk a (sendOutcomes st) (outbox st) (failures st).

(** [await this.bot.sendMessage(chat, ..)]: [false] when it rejects. *)
Definition send (chat : string) (n : Notice) (st : t) : bool * t :=
  match sendOutcomes st with
  | false :: rest => (false, mk (auth st) rest (outbox st) (failures st))
  | _ => (true, mk (auth st) (tl (sendOutcomes st))
                   (outbox st ++ [(chat, n)]) (failures st))
  end.

(** A [sendMessage] whose rejection leaves the handler. *)
Definition sendOrThrow (chat : string) (n : Notice) (st : t)
  : Bot.Res unit * t :=
  match send chat n st with
  | (true, st') => (Bot.Ok tt, st')
  | (false, st') => (Bot.Thrown Bot.SendFailed, st')
  end.

(** [try { await this.bot.sendMessage(..) } catch (error) { console.error }] *)
Definition sendOrLog (chat : string) (n : Notice) (st : t) : t :=
  match send chat n st with
  | (true, st') => st'
  | (false, st') =>
      mk (auth st') (sendOutcomes st') (outbox st') (S (failures st'))
  end.

(** [withAuth(msg, callback)] *)
Definition withAuth (msg : Msg) (callback : t → Bot.Res unit * t) (st : t)
  : Bot.Res unit * t :=
  let '(ok, am) := AuthManager.isAuthorized msg (auth st) in
  let st := set_auth am st in
  if negb ok
  then sendOrThrow (Js.toString (chat_id msg))
         (Unauthorized (isGroupChat msg) (Js.toString (chat_id msg))) st
  else callback st.

(** [handleRequestAccess(msg)] (/request). The admins notified are
    [this.adminIds] of the bot, the list the [AuthManager] was built from;
    a chat is named by the text of its id. *)
Definition handleRequestAccess (now : string) (msg : Msg) (st : t)
  : Bot.Res unit * t :=
  let chat := Js.toString (chat_id msg) in
  let userName :=
    Js.orElse (from_first_name msg) (Js.orElse (from_username msg) "Unknown") in
  let '(ok, am) := AuthManager.isAuthorized msg (auth st) in
  let st := set_auth am st in
  if ok then sendOrThrow chat AlreadyHaveAccess st
  else
    let chatTitle := Js.orElse (chat_title msg) "Private Chat" in
    let kind := if isGroupChat msg then AuthManager.KGroup
                else AuthManager.KUser in
    let '(request, am) :=
      AuthManager.addAccessRequest (Js.toString (from_id msg)) userName chat
        chatTitle kind now (auth st) in
    let st := set_auth am st in
    match request with
    | Some _ =>
        match sendOrThrow chat (RequestSubmitted kind chat) st with
        | (Bot.Ok _, st) =>
            (Bot.Ok tt,
             fold_left
               (fun acc adminId =>
                  sendOrLog adminId
                    (NewAccessRequest userName kind chatTitle chat) acc)
               (AuthManager.adminIds (auth st)) st)
        | (Bot.Thrown e, st) => (Bot.Thrown e, st)
        end
    | None => sendOrThrow chat RequestAlreadyPending st
    end.

(** [param.startsWith('group:') ? param.replace('group:', '') : param] *)
Definition parseTarget (param : string) : AuthManager.Kind * string :=
  if String.prefix "group:" param
  then (AuthManager.KGroup, Text.removeFirst "group:" param)
  else (AuthManager.KUser, param).

(** [handleAuthorize(msg, param)] (/authorize ..) *)
Definition handleAuthorize (msg : Msg) (param : string) (st : t)
  : Bot.Res unit * t :=
  let chat := Js.toString (chat_id msg) in
  if negb (AuthManager.isAdmin (Js.toString (from_id msg)) (auth st))
  then sendOrThrow chat AdminOnly st
  else
    let '(kind, target) := parseTarget param in
    let '(success, am) :=
      match kind with
      | AuthManager.KGroup => AuthManager.authorizeGroup target (auth st)
      | AuthManager.KUser => AuthManager.authorizeUser target (auth st)
      end in
    let st := set_auth am st in
    if success
    then match sendOrThrow chat (Authorized kind target) st with
         | (Bot.Ok _, st) => (Bot.Ok tt, sendOrLog target AccessGranted st)
         | (Bot.Thrown e, st) => (Bot.Thrown e, st)
         end
    else sendOrThrow chat (AlreadyAuthorized kind) st.

(** [handleUnauthorize(msg, param)] (/unauthorize ..) *)
Definition handleUnauthorize (msg : Msg) (param : string) (st : t)
  : Bot.Res unit * t :=
  let chat := Js.toString (chat_id msg) in
  if negb (AuthManager.isAdmin (Js.toString (from_id msg)) (auth st))
  then sendOrThrow chat AdminOnly st
  else
    let '(kind, target) := parseTarget param in
    let '(success, am) :=
      match kind with
      | AuthManager.KGroup => AuthManager.unauthorizeGroup target (auth st)
      | AuthManager.KUser => AuthManager.unauthorizeUser target (auth st)
      end in
    let st := set_auth am st in
    if success
    then sendOrThrow chat (AuthorizationRemoved kind target) st
    else sendOrThrow chat (CouldNotUnauthorize kind) st.

End Access.

(** ** TrelloAssistantBot: polling errors ([handlePollingError],
       [src/bot.js]) *)

Module Polling.

Inductive Code :=
| ETELEGRAM | EFATAL | ECONNRESET | ETIMEDOUT | ENOTFOUND
| OtherCode.                     (* any other code, or none: 'UNKNOWN' *)

Record Error := mkError {
  code : Code;
  statusCode : option Z          (* error.response.statusCode *)
}.

Record t := mk {
  retryCount : Z;
  maxRetries : Z;
  retryDelay : Q                 (* milliseconds *)
}.

(** The fields as the constructor of the bot sets them. *)
Definition create : t := mk 0 5 (5000 # 1).

(** The poller together with the timers it has set and not yet seen
    fire, and the delays of all the reconnect timers it has ever set. *)
Record Sup := mkSup {
  st : t;
  reconnects : nat;              (* pending reconnect timers *)
  recoveries : nat;              (* pending final-recovery timers (60 s) *)
  scheduled : list Q             (* delays of the reconnect timers set *)
}.

Definition start : Sup := mkSup create 0 0 [].

(** [errorCode === 'ETELEGRAM' && error.response
     && error.response.statusCode === 409] *)
Definition isConflict (e : Error) : bool :=
  match code e, statusCode e with
  | ETELEGRAM, Some 409 => true
  | _, _ => false
  end.

Definition isNetwork (e : Error) : bool :=
  match code e with
  | EFATAL | ECONNRESET | ETIMEDOUT | ENOTFOUND => true
  | _ => false
  end.

(** [handlePollingError(error)] *)
Definition handlePollingError (e : Error) (s : Sup) : Sup :=
  if isConflict e then s
  else if isNetwork e then
    let c := st s in
    let n := retryCount c + 1 in
    if n <=? maxRetries c
    then mkSup (mk n (maxRetries c)
                   (Qmin (retryDelay c * (3 # 2)) (30000 # 1)))
               (S (reconnects s)) (recoveries s)
               (scheduled s ++ [retryDelay c])
    else mkSup (mk n (maxRetries c) (retryDelay c))
               (reconnects s) (S (recoveries s)) (scheduled s)
  else s.

(** A reconnect timer has fired and its [stopPolling().then(startPolling)]
    chain has settled. *)
Definition reconnectSettles (ok : bool) (s : Sup) : Sup :=
  let c := st s in
  mkSup (if ok then mk 0 (maxRetries c) (retryDelay c) else c)
        (pred (reconnects s)) (recoveries s) (scheduled s).

(** A final-recovery timer fires. *)
Definition recoveryFires (s : Sup) : Sup :=
  mkSup (mk 0 (maxRetries (st s)) (5000 # 1))
        (reconnects s) (pred (recoveries s)) (scheduled s).

Inductive Event :=
| PollingError (e : Error)
| ReconnectSettles (ok : bool)
| RecoveryFires.

(** One event; [None] when the event cannot happen in this state. *)
Definition step (ev : Event) (s : Sup) : option Sup :=
  match ev with
  | PollingError e => Some (handlePollingError e s)
  | ReconnectSettles ok =>
      match reconnects s with
      | O => None
      | S _ => Some (reconnectSettles ok s)
      end
  | RecoveryFires =>
      match recoveries s with
      | O => None
      | S _ => Some (recoveryFires s)
      end
  end.

Fixpoint run (es : list Event) (s : Sup) : option Sup :=
  match es with
  | [] => Some s
  | ev :: rest =>
      match step ev s with
      | Some s' => run rest s'
      | None => None
      end
  end.

Definition isRecovery (ev : Event) : bool :=
  match ev with RecoveryFires => true | _ => false end.

(** The event is the end of a timer that was set. *)
Definition isTimer (ev : Event) : bool :=
  match ev with PollingError _ => false | _ => true end.

(** The event is an error of the network kind that is no 409 conflict. *)
Definition isNetworkError (ev : Event) : bool :=
  match ev with
  | PollingError e => negb (isConflict e) && isNetwork e
  | _ => false
  end.

End Polling.

(** ** TokenManager: administration ([src/trello-service.js]) *)

Module TokenAdmin.

(** [clearAllTokens()] *)
Definition clearAllTokens (now : string) (tm : TokenManager.t)
  : TokenManager.t :=
  TokenManager.saveTokens now (TokenManager.set_tokens ∅ tm).

(** [Object.keys(this.tokens).length] of [getTokenStats()] *)
Definition totalCustomTokens (tm : TokenManager.t) : nat * TokenManager.t :=
  let tm := TokenManager.loadTokens tm in
  (size (TokenManager.tokens tm), tm).

End TokenAdmin.

(** ** ConfigManager: usage statistics ([src/connection-manager.js]) *)

Module Stats.

Record UserStats := mkUser {
  cardsCreated : Z;
  firstUse : option string;
  lastUse : option string
}.

Record ChatStats := mkChat {
  totalCards : Z;
  users : gmap string UserStats;
  createdAt : option string
}.

Record t := mk {
  statsFile : option (gmap string ChatStats);   (* data/stats.json *)
  writable : bool
}.

Definition loadStats (s : t) : gmap string ChatStats :=
  match statsFile s with
  | Some m => m
  | None => ∅                   (* catch: return {} *)
  end.

Definition saveStats (m : gmap string ChatStats) (s : t) : t :=
  if writable s then mk (Some m) (writable s) else s.

(** [incrementStats(chatId, userId)] *)
Definition incrementStats (chat user now : string) (s : t) : ChatStats * t :=
  let stats := loadStats s in
  let c := default (mkChat 0 ∅ (Some now)) (stats !! chat) in
  let u := default (mkUser 0 (Some now) None) (users c !! user) in
  let u' := mkUser (cardsCreated u + 1) (firstUse u) (Some now) in
  let c' := mkChat (totalCards c + 1) (<[user := u']> (users c))
                   (createdAt c) in
  (c', saveStats (<[chat := c']> stats) s).

(** The counters of [getStats(chatId)] (the ranking [topUsers] it also
    answers depends on the order of the keys in the file and is not part
    of this model). *)
Record ChatReport := mkChatReport {
  cr_totalCards : Z;
  cr_activeUsers : nat
}.

Definition getStats (chat : string) (s : t) : ChatReport :=
  let c := default (mkChat 0 ∅ None) (loadStats s !! chat) in
  mkChatReport (totalCards c) (size (users c)).

Record GlobalReport := mkGlobalReport {
  gr_totalCards : Z;
  gr_totalUsers : nat;
  gr_activeChats : nat
}.

(** [getGlobalStats()] *)
Definition getGlobalStats (s : t) : GlobalReport :=
  let stats := loadStats s in
  mkGlobalReport
    (map_fold (fun _ c acc => acc + totalCards c) 0 stats)
    (size (map_fold (fun _ c (acc : gset string) => acc ∪ dom (users c))
                    ∅ stats))
    (size stats).

(** A sequence of cards created, each by a user in a chat, at a time. *)
Fixpoint record (events : list (string * string * string)) (s : t) : t :=
  match events with
  | [] => s
  | (chat, user, now) :: rest => record rest (snd (incrementStats chat user now s))
  end.

End Stats.

(** ** ErrorHandler: Markdown escaping (class [ErrorHandler], in
       [src/trello-service.js]) *)

Module ErrorHandler.

Definition backslash : ascii := "\"%char.

(** [s.replace(/c/g, '\\c')] for one literal character [c]. *)
Fixpoint escapeChar (c : ascii) (s : string) : string :=
  match s with
  | EmptyString => EmptyString
  | String a s' =>
      if Ascii.eqb a c
      then String backslash (String a (escapeChar c s'))
      else String a (escapeChar c s')
  end.

(** The characters [escapeMarkdown] replaces, in the order of its
    [.replace] calls. *)
Definition escaped : list ascii :=
  ["*"; "_"; "["; "]"; "("; ")"; "~"; "`"; ">"; "#"; "+"; "-"; "="; "|";
   "{"; "}"; "."; "!"]%char.

(** [escapeMarkdown(text)] *)
Definition escapeMarkdown (text : option string) : string :=
  match text with
  | Some s => fold_left (fun acc c => escapeChar c acc) escaped s
  | None => EmptyString          (* if (!text) return '' *)
  end.

(** [s.replace(/[...]/g, '\\$&')] for a character class. *)
Fixpoint escapeClass (cls : ascii → bool) (s : string) : string :=
  match s with
  | EmptyString => EmptyString
  | String a s' =>
      if cls a then String backslash (String a (escapeClass cls s'))
      else String a (escapeClass cls s')
  end.

(** The class [[*_`\[\]]] of [safeMarkdown]. *)
Definition safeClass (a : ascii) : bool :=
  existsb (Ascii.eqb a) ["*"; "_"; "`"; "["; "]"]%char.

(** [safeMarkdown(text)] *)
Definition safeMarkdown (text : option string) : string :=
  match text with
  | Some s => escapeClass safeClass s
  | None => EmptyString
  end.

(** The class of the card-name escape the bot applies inline
    ([sendUpdatedCardList] and the other card listings of [src/bot.js]). *)
Definition cardNameClass (a : ascii) : bool :=
  existsb (Ascii.eqb a)
    ["_"; "*"; "["; "]"; "("; ")"; "~"; "`"; ">"; "#"; "+"; "-"; "="; "|";
     "{"; "}"; "."; "!"]%char.

Definition escapeCardName (s : string) : string := escapeClass cardNameClass s.

End ErrorHandler.

(** ** TrelloService (class [TrelloService], [src/trello-service.js]) *)

Module TrelloService.

Record Board := mkBoard {
  board_id : string;
  board_name : string;
  board_closed : bool
}.

Record Card := mkCard {
  card_id : string;
  card_name : string;
  card_closed : bool;
  dueComplete : bool             (* card.dueComplete === true *)
}.

Record Cache := mkCache {
  boards : option (list Board);
  lastUpdate : option Z          (* epoch milliseconds *)
}.

(** The cache of the constructor and of [clearCache()]. *)
Definition clearCache : Cache := mkCache None None.

(** [5 * 60 * 1000] *)
Definition cacheTimeout : Z := 300000.

(** [this.cache.boards && this.cache.lastUpdate &&
     Date.now() - this.cache.lastUpdate < this.cacheTimeout]: an array is
    truthy even when empty, a time stamp unless it is 0. *)
Definition cached (now : Z) (c : Cache) : option (list Board) :=
  match boards c, lastUpdate c with
  | Some bs, Some t =>
      if negb (t =? 0) && (now - t <? cacheTimeout) then Some bs else None
  | _, _ => None
  end.

(** [getBoards()] called at time [now]; when it asks Trello, the request
    ends at time [done] with [answer] ([None]: it failed, and the call
    throws 'Failed to fetch Trello boards'). *)
Definition getBoards (now done : Z) (answer : option (list Board))
           (c : Cache) : option (list Board) * Cache :=
  match cached now c with
  | Some bs => (Some bs, c)
  | None =>
      match answer with
      | Some raw =>
          let open := List.filter (fun b => negb (board_closed b)) raw in
          (Some open, mkCache (Some open) (Some done))
      | None => (None, c)
      end
  end.

(** [getListCards(listId, includeCompleted)], given the cards Trello
    answers for the list. *)
Definition getListCards (includeCompleted : bool) (cards : list Card)
  : list Card :=
  List.filter
    (fun card =>
       if card_closed card then false
       else if negb includeCompleted && dueComplete card then false
       else true)
    cards.

(** [allCards.filter(card => card.dueComplete === true).length] of
    [sendUpdatedCardList]. *)
Definition completedCount (cards : list Card) : nat :=
  length (List.filter dueComplete (getListCards true cards)).

(** A sequence of [getBoards()] calls, each with its two clock readings
    and what Trello would answer; the results in order. *)
Fixpoint calls (cs : list (Z * Z * option (list Board))) (c : Cache)
  : list (option (list Board)) * Cache :=
  match cs with
  | [] => ([], c)
  | (now, done, answer) :: rest =>
      let '(r, c1) := getBoards now done answer c in
      let '(rs, c2) := calls rest c1 in
      (r :: rs, c2)
  end.

End TrelloService.

(** ** TrelloAssistantBot: the completion deep link ([src/bot.js]) *)

Module DeepLink.

(** [s.split(sep)] for a separator of one character. *)
Fixpoint split (sep : ascii) (s : string) : list string :=
  match s with
  | EmptyString => [EmptyString]
  | String a s' =>
      if Ascii.eqb a sep then EmptyString :: split sep s'
      else match split sep s' with
           | h :: t => String a h :: t
           | [] => [String a EmptyString]
           end
  end.

(** [msg.text ? msg.text.split(' ')[1] : null] *)
Definition startParam (text : option string) : option string :=
  match text with
  | Some t => if Js.truthy t then split " " t !! 1%nat else None
  | None => None
  end.

(** The parameter of the completion link that [sendUpdatedCardList] puts
    under every card:
    [`complete_${card.id}_${listId}_${chatId}`]. *)
Definition completeParam (cardId listId chatId : string) : string :=
  "complete_" ++ cardId ++ "_" ++ listId ++ "_" ++ chatId.

Record Completion := mkCompletion {
  cardId : string;               (* parts[0] *)
  listId : option string;        (* parts[1] *)
  originalChatId : string        (* parts[2] || chatId *)
}.

(** The head of [handleStart]: the completion a [/start] message asks
    for, if any; [chatId] is the chat the message arrived in. *)
Definition parseComplete (text : option string) (chatId : string)
  : option Completion :=
  match startParam text with
  | Some p =>
      if Js.truthy p && String.prefix "complete_" p
      then
        let parts := split "_" (Text.removeFirst "complete_" p) in
        Some (mkCompletion (nth 0 parts EmptyString) (parts !! 1%nat)
                (Js.orElse (parts !! 2%nat) chatId))
      else None
  | None => None
  end.

End DeepLink.

(** ** TrelloAssistantBot: inline buttons ([handleCallbackQuery],
       [src/bot.js]) *)

Module Callback.

(** The head of [handleCallbackQuery]:
    [dataParts = query.data.split(':')], then the action [dataParts[0]]
    and its value [dataParts[1]]. *)
Definition parts (data : string) : string * option string :=
  let dataParts := DeepLink.split ":" data in
  (nth 0 dataParts EmptyString, dataParts !! 1%nat).

End Callback.

(* ===================================================================== *)
(** * Vocabulary of the further properties                               *)
(* ===================================================================== *)

(** ** Authorization state *)

(** No identity is listed twice among the authorized users or groups, in
    memory and on file. *)
Definition idsDistinct (am : AuthManager.t) : Prop :=
  (NoDup (AuthManager.users (AuthManager.authorized am)) ∧
   NoDup (AuthManager.groups (AuthManager.authorized am))) ∧
  ∀ d, AuthManager.authFile am = Some d →
       NoDup (AuthManager.users d) ∧ NoDup (AuthManager.groups d).

(** ** Connection supervisor and poller *)

(** The retry counter and the back-off delay of the supervisor are within
    their limits. *)
Definition withinLimits (s : ConnectionManager.Sup) : Prop :=
  let c := ConnectionManager.cm s in
  ConnectionManager.maxReconnectAttempts c = 10 ∧
  0 ≤ ConnectionManager.reconnectAttempts c ≤ 10 ∧
  (5000 # 1 <= ConnectionManager.reconnectDelay c)%Q ∧
  (ConnectionManager.reconnectDelay c <= 60000 # 1)%Q.

(** While the counter is under way and below its maximum, a reconnect
    attempt is running or a retry is scheduled. *)
Definition retryPending (s : ConnectionManager.Sup) : Prop :=
  let c := ConnectionManager.cm s in
  0 < ConnectionManager.reconnectAttempts c
    < ConnectionManager.maxReconnectAttempts c →
  (1 ≤ ConnectionManager.inFlight s + ConnectionManager.timers s)%nat.

(** The back-off delay of the poller, and the delay of every reconnect
    timer it has set, lie between 5 and 30 seconds. *)
Definition pollerWithinLimits (s : Polling.Sup) : Prop :=
  (5000 # 1 <= Polling.retryDelay (Polling.st s))%Q ∧
  (Polling.retryDelay (Polling.st s) <= 30000 # 1)%Q ∧
  0 ≤ Polling.retryCount (Polling.st s) ∧
  Forall (fun d => (5000 # 1 <= d)%Q ∧ (d <= 30000 # 1)%Q) (Polling.scheduled s).

(** ** Credential store *)

(** The cipher undoes itself, and a cipher text is never empty (it
    carries the initialisation vector and a colon). *)
Definition cipherSound (c : TokenManager.Cipher) : Prop :=
  (∀ s, TokenManager.decrypt c (TokenManager.encrypt c s) = s) ∧
  (∀ s, Js.truthy (TokenManager.encrypt c s) = true).

(** What a record reads as after it has been written to the file and
    read back. *)
Definition stored (dflt now : string) (d : TokenManager.TokenData)
  : TokenManager.TokenData :=
  TokenManager.mkToken (TokenManager.token d)
    (Some (Js.orElse (TokenManager.apiKey d) dflt))
    (TokenManager.workspace d)
    (Some (Js.orElse (TokenManager.addedAt d) now))
    (TokenManager.lastUsed d).

(** ** Usage statistics *)

(** The cards counted for a chat are the cards counted for its users. *)
Definition cardsAddUp (c : Stats.ChatStats) : Prop :=
  Stats.totalCards c
  = map_fold (fun _ u acc => acc + Stats.cardsCreated u) 0 (Stats.users c).

Definition statsAddUp (s : Stats.t) : Prop :=
  ∀ chat c, Stats.loadStats s !! chat = Some c → cardsAddUp c.

Definition freshStats : Stats.t := Stats.mk (Some ∅) true.

(** ** Markdown escaping *)

(** The inverse reading: a backslash in front of a character of the class
    is dropped. *)
Fixpoint unescapeClass (cls : ascii → bool) (s : string) : string :=
  match s with
  | EmptyString => EmptyString
  | String a s' =>
      match s' with
      | String b s'' =>
          if Ascii.eqb a ErrorHandler.backslash && cls b
          then String b (unescapeClass cls s'')
          else String a (unescapeClass cls s')
      | EmptyString => String a EmptyString
      end
  end.


(** ** Trello client *)

Definition allOpen (bs : list TrelloService.Board) : Prop :=
  Forall (fun b => TrelloService.board_closed b = false) bs.

Definition demoBoards : list TrelloService.Board :=
  [TrelloService.mkBoard "B1" "Ideas" false;
   TrelloService.mkBoard "B2" "Archive" true].

(** Every board the cache holds is open. *)
Definition cacheOpen (c : TrelloService.Cache) : Prop :=
  ∀ bs, TrelloService.boards c = Some bs → allOpen bs.

(** ** Deep links *)

(** The character does not occur in the string. *)
Fixpoint lacks (c : ascii) (s : string) : bool :=
  match s with
  | EmptyString => true
  | String a s' => negb (Ascii.eqb a c) && lacks c s'
  end.

(** An identifier that can be put in a link: no underscore, no space. *)
Definition linkSafe (s : string) : Prop :=
  lacks "_" s = true ∧ lacks " " s = true.

(** ** Sessions *)

(** A computation leaves the sessions stored under every key but [key]
    as they are. *)
Definition keepsOthers (key : string) {A} (m : Bot.M A) : Prop :=
  ∀ b k, k ≠ key →
    Bot.userSessions (snd (m b)) !! k = Bot.userSessions b !! k.

(** [ideaBot] after the idea text has arrived. *)
Definition listBot : Bot.t :=
  snd (Bot.onMessage noCapture noCapture "t1" (demoMsg "Buy milk") ideaBot).

Definition demoQuery (data : string) : Bot.Query :=
  Bot.mkQuery 42 42 Private data.

(* ===================================================================== *)
(** * Part III: properties                                               *)
(* ===================================================================== *)

(** ** Authorization gate *)

Section AuthFacts.
Import AuthManager.

Lemma includes_elem_of (x : string) (l : list string) :
  Js.includes x l = true ↔ x ∈ l.
Proof.
  induction l as [|y l IH]; simpl.
  - split; [discriminate | intros H; inversion H].
  - destruct (String.eqb_spec y x) as [->|Hne].
    + split; [intros _; left | reflexivity].
    + rewrite IH. split; [intros H; now right |].
      intros H. inversion H; subst; [congruence | assumption].
Qed.

Lemma loadAuthorized_file (am : t) : authFile (loadAuthorized am) = authFile am.
Proof. unfold loadAuthorized. destruct (authFile am) eqn:E; simpl; congruence. Qed.

Lemma loadAuthorized_admins (am : t) : adminIds (loadAuthorized am) = adminIds am.
Proof. unfold loadAuthorized. destruct (authFile am) eqn:E; simpl; congruence. Qed.

Lemma loadAuthorized_writable (am : t) : writable (loadAuthorized am) = writable am.
Proof. unfold loadAuthorized. destruct (authFile am) eqn:E; simpl; congruence. Qed.

(** Re-reading the file twice in a row is the same as reading it once. *)
Lemma loadAuthorized_idem (am : t) :
  loadAuthorized (loadAuthorized am) = loadAuthorized am.
Proof.
  unfold loadAuthorized at 1.
  rewrite loadAuthorized_file, loadAuthorized_admins.
  unfold loadAuthorized.
  destruct (authFile am) as [d|] eqn:E; reflexivity.
Qed.

Lemma isAdmin_load (a : string) (am : t) :
  isAdmin a (loadAuthorized am) = isAdmin a am.
Proof. unfold isAdmin. now rewrite loadAuthorized_admins. Qed.

Lemma includes_push (x y : string) (l : list string) :
  Js.includes x l = true → Js.includes x (Js.push y l) = true.
Proof.
  rewrite !includes_elem_of. unfold Js.push. intros H.
  apply elem_of_app. now left.
Qed.

(** Whoever is in the list stays in it while the admins are added. *)
Lemma ensureAdmins_keeps (x : string) (admins us : list string) :
  Js.includes x us = true → Js.includes x (ensureAdmins admins us) = true.
Proof.
  revert us. induction admins as [|a admins IH]; intros us H; simpl; [exact H |].
  apply IH. destruct (Js.includes a us); [exact H | now apply includes_push].
Qed.

(** Every admin is among the users once the admins have been added. *)
Lemma ensureAdmins_admin (a : string) (admins us : list string) :
  Js.includes a admins = true → Js.includes a (ensureAdmins admins us) = true.
Proof.
  revert us. induction admins as [|a' admins IH]; intros us H; simpl in *;
    [discriminate |].
  destruct (String.eqb_spec a' a) as [->|Hne].
  - apply ensureAdmins_keeps.
    destruct (Js.includes a us) eqn:E; [exact E |].
    apply includes_elem_of. unfold Js.push. apply elem_of_app. right.
    apply list_elem_of_singleton. reflexivity.
  - now apply IH.
Qed.

End AuthFacts.

(** C1. Every admin identity passes [isAuthorized] whatever the authorized
    users and groups hold (in memory or on file), and [unauthorizeUser] of an
    admin identity answers [false] without touching the stored document: the
    only effect is the re-read of the file that every operation starts with,
    so each later authorization query answers as it did before, and the
    admin is still among the authorized users. *)
Theorem admin_authorized_and_not_removable
    (am : AuthManager.t) (a : string)
    (Hadmin : AuthManager.isAdmin a am = true) :
  (∀ msg, Js.toString (from_id msg) = a →
          AuthManager.isAuthorized msg am = (true, am)) ∧
  fst (AuthManager.unauthorizeUser a am) = false ∧
  snd (AuthManager.unauthorizeUser a am) = AuthManager.loadAuthorized am ∧
  AuthManager.authFile (snd (AuthManager.unauthorizeUser a am))
    = AuthManager.authFile am ∧
  AuthManager.adminIds (snd (AuthManager.unauthorizeUser a am))
    = AuthManager.adminIds am ∧
  (AuthManager.loadAuthorized am = am →
     AuthManager.unauthorizeUser a am = (false, am)) ∧
  (∀ u, fst (AuthManager.isAuthorizedUser u (snd (AuthManager.unauthorizeUser a am)))
        = fst (AuthManager.isAuthorizedUser u am)) ∧
  (∀ g, fst (AuthManager.isAuthorizedGroup g (snd (AuthManager.unauthorizeUser a am)))
        = fst (AuthManager.isAuthorizedGroup g am)) ∧
  (is_Some (AuthManager.authFile am) ∨
   Js.includes a (AuthManager.users (AuthManager.authorized am)) = true →
   Js.includes a (AuthManager.users (AuthManager.authorized
                    (snd (AuthManager.unauthorizeUser a am)))) = true).
Proof.
  assert (Hun : AuthManager.unauthorizeUser a am
                = (false, AuthManager.loadAuthorized am)).
  { unfold AuthManager.unauthorizeUser. now rewrite isAdmin_load, Hadmin. }
  rewrite Hun; simpl.
  repeat split.
  - intros msg <-. unfold AuthManager.isAuthorized. now rewrite Hadmin.
  - apply loadAuthorized_file.
  - apply loadAuthorized_admins.
  - intros ->. reflexivity.
  - intros u. unfold AuthManager.isAuthorizedUser; simpl.
    now rewrite loadAuthorized_idem.
  - intros g. unfold AuthManager.isAuthorizedGroup; simpl.
    now rewrite loadAuthorized_idem.
  - unfold AuthManager.loadAuthorized.
    destruct (AuthManager.authFile am) as [d|]; simpl.
    + intros _. now apply ensureAdmins_admin.
    + intros [[d Hd] | H]; [discriminate | exact H].
Qed.

Lemma admin_authorized_and_not_removable_witness :
  AuthManager.isAdmin "100" demoAuth = true ∧
  fst (AuthManager.unauthorizeUser "100" demoAuth) = false.
Proof.
  split; [reflexivity |].
  exact (proj1 (proj2 (admin_authorized_and_not_removable demoAuth "100" eq_refl))).
Defined.

(** C2. For a sender that is not an admin, [isAuthorized] is the membership
    of the chat identity in the authorized groups when the chat is a group
    or supergroup, so any two non-admin senders get the same answer there,
    and the membership of the sender identity in the authorized users
    otherwise. *)
Theorem non_admin_decided_by_group_or_sender
    (am : AuthManager.t) (msg : Msg)
    (Hna : AuthManager.isAdmin (Js.toString (from_id msg)) am = false) :
  (isGroupChat msg = true →
     AuthManager.isAuthorized msg am
       = AuthManager.isAuthorizedGroup (Js.toString (chat_id msg)) am ∧
     fst (AuthManager.isAuthorized msg am)
       = Js.includes (Js.toString (chat_id msg))
           (AuthManager.groups
              (AuthManager.authorized (AuthManager.loadAuthorized am))) ∧
     ∀ msg', chat_id msg' = chat_id msg → isGroupChat msg' = true →
       AuthManager.isAdmin (Js.toString (from_id msg')) am = false →
       AuthManager.isAuthorized msg' am = AuthManager.isAuthorized msg am) ∧
  (isGroupChat msg = false →
     AuthManager.isAuthorized msg am
       = AuthManager.isAuthorizedUser (Js.toString (from_id msg)) am ∧
     fst (AuthManager.isAuthorized msg am)
       = Js.includes (Js.toString (from_id msg))
           (AuthManager.users
              (AuthManager.authorized (AuthManager.loadAuthorized am)))).
Proof.
  split; intros Hg.
  - assert (E : AuthManager.isAuthorized msg am
                = AuthManager.isAuthorizedGroup (Js.toString (chat_id msg)) am).
    { unfold AuthManager.isAuthorized. now rewrite Hna, Hg. }
    split; [exact E |]. split; [now rewrite E |].
    intros msg' Hc Hg' Hna'. rewrite E.
    unfold AuthManager.isAuthorized. now rewrite Hna', Hg', Hc.
  - assert (E : AuthManager.isAuthorized msg am
                = AuthManager.isAuthorizedUser (Js.toString (from_id msg)) am).
    { unfold AuthManager.isAuthorized. now rewrite Hna, Hg. }
    split; [exact E | now rewrite E].
Qed.

Lemma non_admin_decided_by_group_or_sender_witness :
  AuthManager.isAdmin (Js.toString (from_id (demoGroupMsg 8))) demoAuth = false ∧
  fst (AuthManager.isAuthorized (demoGroupMsg 8) demoAuth) = true.
Proof.
  split; [reflexivity |].
  destruct (non_admin_decided_by_group_or_sender demoAuth (demoGroupMsg 8) eq_refl)
    as [Hgrp _].
  destruct (Hgrp eq_refl) as (_ & -> & _). reflexivity.
Defined.

(** *** The request list holds each (requester, chat) pair once *)

Section RequestFacts.
Import AuthManager.

Lemma samePair_spec (u c : string) (r : AccessRequest) :
  samePair u c r = true ↔ pairOf r = (u, c).
Proof.
  unfold samePair, pairOf. rewrite andb_true_iff.
  rewrite !String.eqb_eq. split; [intros [-> ->]; reflexivity |].
  intros [= -> ->]; auto.
Qed.

Lemma existsb_samePair (u c : string) (l : list AccessRequest) :
  existsb (samePair u c) l = true ↔ (u, c) ∈ pairOf <$> l.
Proof.
  induction l as [|r l IH]; simpl.
  - split; [discriminate | intros H; inversion H].
  - rewrite orb_true_iff, IH, samePair_spec, elem_of_cons.
    split; intros [H|H]; auto.
Qed.

Lemma pairs_set_status (s : Status) (i : nat) (l : list AccessRequest) :
  pairOf <$> alter (set_status s) i l = pairOf <$> l.
Proof.
  revert i; induction l as [|r l IH]; intros [|i]; simpl; try reflexivity.
  f_equal. apply IH.
Qed.

Lemma uniquePairs_filter (P : AccessRequest → Prop)
      `{∀ r, Decision (P r)} (l : list AccessRequest) :
  uniquePairs l → uniquePairs (filter P l).
Proof.
  unfold uniquePairs. induction l as [|r l IH]; simpl; [auto |].
  rewrite NoDup_cons. intros [Hr Hl].
  rewrite filter_cons. destruct (decide (P r)); [| auto].
  simpl. rewrite NoDup_cons. split; [| auto].
  intros Hin. apply Hr.
  apply list_elem_of_fmap in Hin as (r' & -> & Hr').
  apply list_elem_of_fmap. exists r'. split; [reflexivity |].
  now apply list_elem_of_filter in Hr' as [_ ?].
Qed.

Lemma uniquePairs_push (r : AccessRequest) (l : list AccessRequest) :
  uniquePairs l →
  existsb (samePair (userId r) (chatId r)) l = false →
  uniquePairs (Js.push r l).
Proof.
  unfold uniquePairs, Js.push. intros Hl Hex.
  rewrite fmap_app. simpl. apply NoDup_app. split; [exact Hl |].
  split; [| apply NoDup_singleton].
  intros p Hp Hp'. apply list_elem_of_singleton in Hp'. subst p.
  apply existsb_samePair in Hp. congruence.
Qed.

Lemma pendingFor_absent (u c : string) (l : list AccessRequest) :
  (u, c) ∉ pairOf <$> l → pendingFor u c l = 0%nat.
Proof.
  unfold pendingFor. induction l as [|r l IH]; simpl; [reflexivity |].
  rewrite not_elem_of_cons. intros [Hr Hl].
  rewrite filter_cons. case_decide as HP; [| auto].
  destruct HP as [_ HP]. congruence.
Qed.

(** A list without repeated pairs holds at most one pending request for
    any pair. *)
Lemma uniquePairs_pendingFor (u c : string) (l : list AccessRequest) :
  uniquePairs l → (pendingFor u c l ≤ 1)%nat.
Proof.
  unfold uniquePairs, pendingFor.
  induction l as [|r l IH]; simpl; [lia |].
  rewrite NoDup_cons. intros [Hr Hl]. specialize (IH Hl).
  rewrite filter_cons. case_decide as HP; [| exact IH].
  destruct HP as [_ HP]. simpl. rewrite HP in Hr.
  pose proof (pendingFor_absent u c l Hr) as E. unfold pendingFor in E.
  rewrite E. lia.
Qed.
Lemma ru_set (a : Authorized) (am : t) :
  uniquePairs (pendingRequests a) → requestsUnique am →
  requestsUnique (set_authorized a am).
Proof. intros Ha [_ Hf]. split; [exact Ha | exact Hf]. Qed.

Lemma ru_save (am : t) : requestsUnique am → requestsUnique (saveAuthorized am).
Proof.
  intros [Hm Hf]. unfold saveAuthorized. destruct (writable am); [| now split].
  split; [exact Hm |]. simpl. now intros d [= <-].
Qed.

Lemma ru_load (am : t) : requestsUnique am → requestsUnique (loadAuthorized am).
Proof.
  intros [Hm Hf]. unfold loadAuthorized.
  destruct (authFile am) as [d|] eqn:E;
    [| split; [exact Hm | rewrite E; exact Hf]].
  apply ru_set; [apply (Hf d eq_refl) | split; [exact Hm | rewrite E; exact Hf]].
Qed.

Lemma ru_writeStatus (b : bool) (i : nat) (s : Status) (am : t) :
  requestsUnique am → requestsUnique (writeStatus b i s am).
Proof.
  intros H. unfold writeStatus. destruct b; [| exact H].
  apply ru_set; [| exact H]. destruct H as [Hm _]. simpl.
  unfold uniquePairs. rewrite pairs_set_status. exact Hm.
Qed.

Lemma ru_authorizeUser (u : string) (am : t) :
  requestsUnique am → requestsUnique (snd (authorizeUser u am)).
Proof.
  intros H. unfold authorizeUser.
  pose proof (ru_load am H) as HL.
  destruct (negb _); cbn [snd]; [| exact HL].
  apply ru_save. apply ru_set; [exact (proj1 HL) | exact HL].
Qed.

Lemma ru_authorizeGroup (g : string) (am : t) :
  requestsUnique am → requestsUnique (snd (authorizeGroup g am)).
Proof.
  intros H. unfold authorizeGroup.
  pose proof (ru_load am H) as HL.
  destruct (negb _); cbn [snd]; [| exact HL].
  apply ru_save. apply ru_set; [exact (proj1 HL) | exact HL].
Qed.

(** Every call of the API, and every fault of the disk, keeps the pairs
    of the stored requests distinct. *)
Lemma ru_step_preserved (o : Op) (am : t) :
  requestsUnique am → requestsUnique (step o am).
Proof.
  intros H. pose proof (ru_load am H) as HL.
  destruct o; cbn [step].
  - exact HL.
  - now apply ru_authorizeUser.
  - unfold unauthorizeUser. destruct (isAdmin _ _); [exact HL |].
    destruct (Js.indexOf _ _); cbn [snd]; [| exact HL].
    apply ru_save. apply ru_set; [exact (proj1 HL) | exact HL].
  - now apply ru_authorizeGroup.
  - unfold unauthorizeGroup.
    destruct (Js.indexOf _ _); cbn [snd]; [| exact HL].
    apply ru_save. apply ru_set; [exact (proj1 HL) | exact HL].
  - unfold addAccessRequest.
    destruct (existsb _ _) eqn:E; cbn [snd negb]; [exact HL |].
    apply ru_save. apply ru_set; [| exact HL].
    apply uniquePairs_push; [exact (proj1 HL) | exact E].
  - unfold approveRequest.
    destruct (_ && _); [| exact HL].
    destruct (_ !! _) as [r|]; cbn [snd]; [| exact HL].
    apply ru_save. apply ru_writeStatus.
    destruct (type r); [now apply ru_authorizeUser | now apply ru_authorizeGroup].
  - unfold rejectRequest.
    destruct (_ && _); [| exact HL].
    destruct (_ !! _) as [r|]; cbn [snd]; [| exact HL].
    apply ru_save. apply ru_writeStatus. exact HL.
  - unfold clearPendingRequests. apply ru_save. apply ru_set; [| exact HL].
    apply uniquePairs_filter. exact (proj1 HL).
  - unfold importAuthorizedList. apply ru_save.
    apply ru_set; [exact (proj1 HL) | exact HL].
  - destruct H as [Hm Hf]. split; [exact Hm | exact Hf].
  - destruct H as [Hm Hf]. split; [exact Hm |]. simpl. discriminate.
Qed.

Lemma ru_run (ops : list Op) (am : t) :
  requestsUnique am → requestsUnique (run ops am).
Proof.
  revert am. induction ops as [|o ops IH]; intros am H; simpl; [exact H |].
  apply IH, ru_step_preserved, H.
Qed.

Lemma ru_create (admins : list string) (file : option Authorized) (w : bool) :
  (∀ d, file = Some d → uniquePairs (pendingRequests d)) →
  requestsUnique (create admins file w).
Proof.
  intros Hf. unfold create. destruct file as [d|].
  - apply ru_load. split; [apply NoDup_nil_2 | exact Hf].
  - apply ru_save. split; [apply NoDup_nil_2 | discriminate].
Qed.

(** When a request for the pair is already stored, whatever its status,
    [addAccessRequest] answers [null] and only re-loads. *)
Lemma addAccessRequest_suppressed
      (u n c ct : string) (k : Kind) (now : string) (am : t) :
  (u, c) ∈ pairOf <$> pendingRequests (authorized (loadAuthorized am)) →
  addAccessRequest u n c ct k now am = (None, loadAuthorized am).
Proof.
  intros Hin. apply existsb_samePair in Hin.
  unfold addAccessRequest. now rewrite Hin.
Qed.

End RequestFacts.

(** *** A stored request keeps its pair occupied *)

Section PairOccupied.
Import AuthManager.
Variables u c : string.

Lemma occ_set (a : Authorized) (am : t) :
  (u, c) ∈ pairOf <$> pendingRequests a → occupied u c am →
  occupied u c (set_authorized a am).
Proof. intros Ha [_ Hf]. split; [exact Ha | exact Hf]. Qed.

Lemma occ_save (am : t) : occupied u c am → occupied u c (saveAuthorized am).
Proof.
  intros [Hm Hf]. unfold saveAuthorized.
  destruct (writable am); [| split; [exact Hm | exact Hf]].
  split; [exact Hm |]. simpl. now intros d [= <-].
Qed.

Lemma occ_load (am : t) : occupied u c am → occupied u c (loadAuthorized am).
Proof.
  intros [Hm Hf]. unfold loadAuthorized.
  destruct (authFile am) as [d|] eqn:E;
    [| split; [exact Hm | rewrite E; exact Hf]].
  apply occ_set; [apply (Hf d eq_refl) | split; [exact Hm | rewrite E; exact Hf]].
Qed.

Lemma occ_writeStatus (b : bool) (i : nat) (s : Status) (am : t) :
  occupied u c am → occupied u c (writeStatus b i s am).
Proof.
  intros H. unfold writeStatus. destruct b; [| exact H].
  apply occ_set; [| exact H]. destruct H as [Hm _]. simpl.
  rewrite pairs_set_status. exact Hm.
Qed.

Lemma occ_authorizeUser (x : string) (am : t) :
  occupied u c am → occupied u c (snd (authorizeUser x am)).
Proof.
  intros H. unfold authorizeUser. pose proof (occ_load am H) as HL.
  destruct (negb _); cbn [snd]; [| exact HL].
  apply occ_save. apply occ_set; [exact (proj1 HL) | exact HL].
Qed.

Lemma occ_authorizeGroup (x : string) (am : t) :
  occupied u c am → occupied u c (snd (authorizeGroup x am)).
Proof.
  intros H. unfold authorizeGroup. pose proof (occ_load am H) as HL.
  destruct (negb _); cbn [snd]; [| exact HL].
  apply occ_save. apply occ_set; [exact (proj1 HL) | exact HL].
Qed.

Lemma occ_step (o : Op) (am : t) :
  keepsRequests o = true → occupied u c am → occupied u c (step o am).
Proof.
  intros Hk H. pose proof (occ_load am H) as HL.
  destruct o; cbn [step]; try discriminate Hk.
  - exact HL.
  - now apply occ_authorizeUser.
  - unfold unauthorizeUser. destruct (isAdmin _ _); [exact HL |].
    destruct (Js.indexOf _ _); cbn [snd]; [| exact HL].
    apply occ_save. apply occ_set; [exact (proj1 HL) | exact HL].
  - now apply occ_authorizeGroup.
  - unfold unauthorizeGroup.
    destruct (Js.indexOf _ _); cbn [snd]; [| exact HL].
    apply occ_save. apply occ_set; [exact (proj1 HL) | exact HL].
  - unfold addAccessRequest.
    destruct (existsb _ _) eqn:E; cbn [snd negb]; [exact HL |].
    apply occ_save. apply occ_set; [| exact HL].
    cbn [pendingRequests set_pendingRequests]. unfold Js.push.
    rewrite fmap_app. apply elem_of_app. left. exact (proj1 HL).
  - unfold approveRequest.
    destruct (_ && _); [| exact HL].
    destruct (_ !! _) as [r|]; cbn [snd]; [| exact HL].
    apply occ_save. apply occ_writeStatus.
    destruct (type r); [now apply occ_authorizeUser | now apply occ_authorizeGroup].
  - unfold rejectRequest.
    destruct (_ && _); [| exact HL].
    destruct (_ !! _) as [r|]; cbn [snd]; [| exact HL].
    apply occ_save. apply occ_writeStatus. exact HL.
  - unfold importAuthorizedList. apply occ_save.
    apply occ_set; [exact (proj1 HL) | exact HL].
  - destruct H as [Hm Hf]. split; [exact Hm | exact Hf].
  - destruct H as [Hm Hf]. split; [exact Hm |]. simpl. discriminate.
Qed.

Lemma occ_run (ops : list Op) (am : t) :
  forallb keepsRequests ops = true → occupied u c am → occupied u c (run ops am).
Proof.
  revert am. induction ops as [|o ops IH]; intros am Hk H; simpl; [exact H |].
  simpl in Hk. apply andb_true_iff in Hk as [Ho Hops].
  apply IH; [exact Hops |]. now apply occ_step.
Qed.

(** After a re-load, a request found in memory is also the file's. *)
Lemma occ_loaded (am : t) :
  (u, c) ∈ pairOf <$> pendingRequests (authorized (loadAuthorized am)) →
  occupied u c (loadAuthorized am).
Proof.
  intros Hin. split; [exact Hin |].
  rewrite loadAuthorized_file. intros d E.
  unfold loadAuthorized in Hin. rewrite E in Hin. exact Hin.
Qed.

Lemma occ_suppresses (n ct : string) (k : Kind) (now : string) (am : t) :
  occupied u c am →
  addAccessRequest u n c ct k now am = (None, loadAuthorized am).
Proof.
  intros H. apply addAccessRequest_suppressed. exact (proj1 (occ_load am H)).
Qed.

End PairOccupied.

Section Decisions.
Import AuthManager.

Lemma lookup_pair_elem (l : list AccessRequest) (i : nat) (r : AccessRequest) :
  l !! i = Some r → (userId r, chatId r) ∈ pairOf <$> l.
Proof.
  intros H. apply list_elem_of_fmap. exists r. split; [reflexivity |].
  apply list_elem_of_lookup. eauto.
Qed.

Lemma rejectRequest_occupies (i : Z) (am am' : t) (r : AccessRequest) :
  rejectRequest i am = (Some r, am') → occupied (userId r) (chatId r) am'.
Proof.
  unfold rejectRequest. destruct (_ && _); [| discriminate].
  destruct (_ !! _) as [r0|] eqn:E; [| discriminate].
  intros [= <- <-]. cbn [userId chatId set_status].
  apply occ_save.
  apply (occ_writeStatus _ _ true (Z.to_nat i) Rejected (loadAuthorized am)).
  apply occ_loaded. exact (lookup_pair_elem _ _ _ E).
Qed.

Lemma approveRequest_occupies (i : Z) (am am' : t) (r : AccessRequest) :
  approveRequest i am = (Some r, am') → occupied (userId r) (chatId r) am'.
Proof.
  unfold approveRequest. destruct (_ && _); [| discriminate].
  destruct (_ !! _) as [r0|] eqn:E; [| discriminate].
  intros [= <- <-]. cbn [userId chatId set_status].
  apply occ_save, occ_writeStatus.
  pose proof (occ_loaded _ _ _ (lookup_pair_elem _ _ _ E)) as HL.
  destruct (type r0); [now apply occ_authorizeUser | now apply occ_authorizeGroup].
Qed.
End Decisions.

(** C9. A request for a (requester, chat) pair that already has a pending
    request in the stored list is answered with [null]; the list and the file
    stay as they were. Along every sequence of calls of the manager, started
    on a file whose requests are about distinct pairs, at most one pending
    request exists for any pair, in memory and on file. *)
Theorem duplicate_pending_request_suppressed :
  (∀ (am : AuthManager.t) (u n c ct : string) (k : AuthManager.Kind)
     (now : string) (r : AuthManager.AccessRequest),
     r ∈ AuthManager.pendingRequests
           (AuthManager.authorized (AuthManager.loadAuthorized am)) →
     AuthManager.userId r = u → AuthManager.chatId r = c →
     AuthManager.status r = AuthManager.Pending →
     AuthManager.addAccessRequest u n c ct k now am
       = (None, AuthManager.loadAuthorized am) ∧
     length (AuthManager.pendingRequests (AuthManager.authorized
               (snd (AuthManager.addAccessRequest u n c ct k now am))))
       = length (AuthManager.pendingRequests
                   (AuthManager.authorized (AuthManager.loadAuthorized am))) ∧
     AuthManager.authFile (snd (AuthManager.addAccessRequest u n c ct k now am))
       = AuthManager.authFile am) ∧
  (∀ (admins : list string) (file : option AuthManager.Authorized) (w : bool)
     (ops : list AuthManager.Op) (u c : string),
     (∀ d, file = Some d → uniquePairs (AuthManager.pendingRequests d)) →
     (AuthManager.pendingFor u c
        (AuthManager.pendingRequests (AuthManager.authorized
           (AuthManager.run ops (AuthManager.create admins file w)))) ≤ 1)%nat ∧
     ∀ d, AuthManager.authFile
            (AuthManager.run ops (AuthManager.create admins file w)) = Some d →
          (AuthManager.pendingFor u c (AuthManager.pendingRequests d) ≤ 1)%nat).
Proof.
  split.
  - intros am u n c ct k now r Hin Hu Hc _.
    assert (E : AuthManager.addAccessRequest u n c ct k now am
                = (None, AuthManager.loadAuthorized am)).
    { apply addAccessRequest_suppressed. subst u c.
      apply list_elem_of_fmap. exists r. split; [reflexivity | exact Hin]. }
    rewrite E. cbn [snd]. split; [reflexivity |]. split; [reflexivity |].
    apply loadAuthorized_file.
  - intros admins file w ops u c Hfile.
    destruct (ru_run ops _ (ru_create admins file w Hfile)) as [Hm Hf].
    split; [now apply uniquePairs_pendingFor |].
    intros d Hd. apply uniquePairs_pendingFor. exact (Hf d Hd).
Qed.

Lemma duplicate_pending_request_suppressed_witness :
  fst (AuthManager.addAccessRequest "7" "Ann" "7" "Private Chat"
         AuthManager.KUser "2024-01-02T00:00:00.000Z" demoRequests) = None ∧
  (AuthManager.pendingFor "7" "7"
     (AuthManager.pendingRequests (AuthManager.authorized demoRequests)) ≤ 1)%nat.
Proof.
  destruct duplicate_pending_request_suppressed as [Hdup Hinv].
  split.
  - assert (Hin :
      AuthManager.mkRequest "7" "Ann" "7" "Private Chat" AuthManager.KUser
        "2024-01-01T00:00:00.000Z" AuthManager.Pending
      ∈ AuthManager.pendingRequests
          (AuthManager.authorized (AuthManager.loadAuthorized demoRequests))).
    { apply list_elem_of_In. vm_compute. left. reflexivity. }
    destruct (Hdup demoRequests "7" "Ann" "7" "Private Chat" AuthManager.KUser
                "2024-01-02T00:00:00.000Z" _ Hin eq_refl eq_refl eq_refl)
      as [-> _].
    reflexivity.
  - refine (proj1 (Hinv ["100"] None true _ "7" "7" _)). discriminate.
Defined.

(** C10. [addAccessRequest] looks only at the pair: a stored request for the
    same (requester, chat) pair suppresses the new one whatever its status.
    In particular, once a request has been approved or rejected, every later
    request for its pair is answered with [null] and adds nothing, as long as
    the entry stays in the list (only [clearPendingRequests] removes
    entries). *)
Theorem request_suppressed_whatever_status :
  (∀ (am : AuthManager.t) (u n c ct : string) (k : AuthManager.Kind)
     (now : string) (r : AuthManager.AccessRequest),
     r ∈ AuthManager.pendingRequests
           (AuthManager.authorized (AuthManager.loadAuthorized am)) →
     AuthManager.userId r = u → AuthManager.chatId r = c →
     AuthManager.addAccessRequest u n c ct k now am
       = (None, AuthManager.loadAuthorized am)) ∧
  (∀ (am am' : AuthManager.t) (i : Z) (r : AuthManager.AccessRequest)
     (ops : list AuthManager.Op) (n ct : string) (k : AuthManager.Kind)
     (now : string),
     AuthManager.rejectRequest i am = (Some r, am') ∨
     AuthManager.approveRequest i am = (Some r, am') →
     forallb keepsRequests ops = true →
     AuthManager.addAccessRequest (AuthManager.userId r) n
       (AuthManager.chatId r) ct k now (AuthManager.run ops am')
       = (None, AuthManager.loadAuthorized (AuthManager.run ops am'))).
Proof.
  split.
  - intros am u n c ct k now r Hin Hu Hc.
    apply addAccessRequest_suppressed. subst u c.
    apply list_elem_of_fmap. exists r. split; [reflexivity | exact Hin].
  - intros am am' i r ops n ct k now Hdec Hops.
    apply occ_suppresses, occ_run; [exact Hops |].
    destruct Hdec as [H|H];
      [exact (rejectRequest_occupies _ _ _ _ H)
      | exact (approveRequest_occupies _ _ _ _ H)].
Qed.

Lemma request_suppressed_whatever_status_witness :
  fst (AuthManager.rejectRequest 0 demoRequests)
    = Some (AuthManager.mkRequest "7" "Ann" "7" "Private Chat"
              AuthManager.KUser "2024-01-01T00:00:00.000Z" AuthManager.Rejected) ∧
  fst (AuthManager.addAccessRequest "7" "Ann" "7" "Private Chat"
         AuthManager.KUser "2024-02-01T00:00:00.000Z"
         (snd (AuthManager.rejectRequest 0 demoRequests))) = None.
Proof.
  split; [reflexivity |].
  destruct request_suppressed_whatever_status as [_ Hdec].
  pose proof
    (Hdec demoRequests (snd (AuthManager.rejectRequest 0 demoRequests)) 0
       (AuthManager.mkRequest "7" "Ann" "7" "Private Chat"
          AuthManager.KUser "2024-01-01T00:00:00.000Z" AuthManager.Rejected)
       [] "Ann" "Private Chat" AuthManager.KUser "2024-02-01T00:00:00.000Z"
       (or_introl eq_refl) eq_refl) as H.
  cbn [AuthManager.userId AuthManager.chatId AuthManager.run] in H.
  rewrite H. reflexivity.
Defined.

(** ** Connection supervisor *)

Section SupervisorFacts.
Import ConnectionManager.

Lemma handleDisconnection_exhausted (s : Sup) :
  exhausted s → handleDisconnection s = s.
Proof.
  unfold exhausted, handleDisconnection. intros H.
  apply Z.leb_le in H. now rewrite H.
Qed.

(** While the counter is at its maximum, an event that does not restore
    the connection begins no attempt, puts nothing new in motion and
    leaves the counter alone. *)
Lemma exhausted_step (e : Event) (s s' : Sup) :
  exhausted s → restores e = false → step e s = Some s' →
  exhausted s' ∧
  attemptsBegun s' = attemptsBegun s ∧
  (timers s' + inFlight s' ≤ timers s + inFlight s)%nat ∧
  reconnectAttempts (cm s') = reconnectAttempts (cm s) ∧
  (isConnected (cm s) = false → isConnected (cm s') = false).
Proof.
  intros Hex He Hstep. destruct e as [p now | | ok]; simpl in Hstep.
  - destruct p; [discriminate He | |]; injection Hstep as <-.
    + repeat split; auto.
    + unfold healthCheck. rewrite handleDisconnection_exhausted by exact Hex.
      repeat split; auto.
  - destruct (timers s) as [|k] eqn:Et; [discriminate |]. injection Hstep as <-.
    rewrite handleDisconnection_exhausted by exact Hex.
    repeat split; auto. simpl. lia.
  - destruct ok; [discriminate He |].
    destruct (inFlight s) eqn:Ei; [discriminate |]. injection Hstep as <-.
    repeat split; auto. simpl. rewrite Ei. simpl. lia.
Qed.

Lemma exhausted_run (es : list Event) (s s' : Sup) :
  exhausted s → (∀ e, e ∈ es → restores e = false) → run es s = Some s' →
  exhausted s' ∧
  attemptsBegun s' = attemptsBegun s ∧
  (timers s' + inFlight s' ≤ timers s + inFlight s)%nat ∧
  reconnectAttempts (cm s') = reconnectAttempts (cm s) ∧
  (isConnected (cm s) = false → isConnected (cm s') = false).
Proof.
  revert s. induction es as [|e es IH]; intros s Hex Hes Hrun; simpl in Hrun.
  - injection Hrun as <-. repeat split; auto.
  - destruct (step e s) as [s1|] eqn:E; [| discriminate].
    destruct (exhausted_step e s s1 Hex) as (Hex1 & Hb & Ht & Ha & Hc);
      [apply Hes; left | exact E |].
    destruct (IH s1 Hex1) as (Hex' & Hb' & Ht' & Ha' & Hc');
      [intros e' He'; apply Hes; now right | exact Hrun |].
    repeat split; [exact Hex' | congruence | lia | congruence | auto].
Qed.

Lemma run_app (es1 es2 : list Event) (s : Sup) :
  run (es1 ++ es2) s = match run es1 s with
                       | Some s1 => run es2 s1
                       | None => None
                       end.
Proof.
  revert s. induction es1 as [|e es1 IH]; intros s; simpl; [reflexivity |].
  destruct (step e s); [apply IH | reflexivity].
Qed.
End SupervisorFacts.

(** C5. Once the reconnect counter has reached the configured maximum, no
    liveness-probe failure, retry timer or failing attempt begins a reconnect
    attempt or puts a new one in motion, however many follow; after a probe
    failure [getStatus] reports the supervisor as disconnected, with the
    counter at the value it had reached. *)
Theorem no_reconnect_after_max_attempts
    (s s' : ConnectionManager.Sup) (es : list ConnectionManager.Event) (now : Z)
    (Hmax : ConnectionManager.maxReconnectAttempts (ConnectionManager.cm s)
            ≤ ConnectionManager.reconnectAttempts (ConnectionManager.cm s))
    (Hes : ∀ e, e ∈ es → ConnectionManager.restores e = false)
    (Hrun : ConnectionManager.run
              (es ++ [ConnectionManager.HealthCheck
                        ConnectionManager.ProbeError now]) s = Some s') :
  ConnectionManager.attemptsBegun s' = ConnectionManager.attemptsBegun s ∧
  (ConnectionManager.timers s' + ConnectionManager.inFlight s'
   ≤ ConnectionManager.timers s + ConnectionManager.inFlight s)%nat ∧
  ∀ t,
    ConnectionManager.st_isConnected
      (ConnectionManager.getStatus t (ConnectionManager.cm s')) = false ∧
    ConnectionManager.st_reconnectAttempts
      (ConnectionManager.getStatus t (ConnectionManager.cm s'))
      = ConnectionManager.reconnectAttempts (ConnectionManager.cm s).
Proof.
  rewrite run_app in Hrun.
  destruct (ConnectionManager.run es s) as [s1|] eqn:E1; [| discriminate].
  destruct (exhausted_run es s s1 Hmax Hes E1) as (Hex1 & Hb1 & Ht1 & Ha1 & _).
  simpl in Hrun. injection Hrun as <-.
  unfold ConnectionManager.healthCheck.
  rewrite handleDisconnection_exhausted by exact Hex1.
  simpl. repeat split; auto.
Qed.

Lemma exhaustingRun_reaches_max :
  match ConnectionManager.run exhaustingRun ConnectionManager.start with
  | Some s =>
      ConnectionManager.reconnectAttempts (ConnectionManager.cm s) = 10 ∧
      ConnectionManager.attemptsBegun s = 10%nat ∧
      ConnectionManager.inFlight s = 0%nat ∧
      ConnectionManager.timers s = 0%nat ∧
      (ConnectionManager.reconnectDelay (ConnectionManager.cm s) == 60000 # 1)%Q
  | None => False
  end.
Proof. vm_compute. repeat split; reflexivity. Qed.

Lemma no_reconnect_after_max_attempts_witness :
  ConnectionManager.run
    [ConnectionManager.HealthCheck ConnectionManager.ProbeError 60000;
     ConnectionManager.HealthCheck ConnectionManager.ProbeError 120000]
    exhaustedSup = Some exhaustedSup ∧
  ConnectionManager.st_reconnectAttempts
    (ConnectionManager.getStatus 130000 (ConnectionManager.cm exhaustedSup)) = 10.
Proof.
  split; [reflexivity |].
  refine (proj2 (proj2 (proj2
    (no_reconnect_after_max_attempts exhaustedSup exhaustedSup
       [ConnectionManager.HealthCheck ConnectionManager.ProbeError 60000] 120000
       _ _ eq_refl)) 130000)).
  - simpl. lia.
  - intros e He. apply list_elem_of_singleton in He. subst e. reflexivity.
Defined.

(** ** Free-text structuring *)

(** The third line of [milkInput], once its URL is taken out and the rest is
    trimmed, is the bare marker: no white space follows it, so it is not
    recognised as a marker and is kept as the text of an item. *)
Lemma bare_marker_is_not_a_bullet :
  Text.stripEach (Text.matchUrls "- https://example.com/milk")
                 "- https://example.com/milk" = "-" ∧
  Text.afterBullet "-" = None ∧
  Text.afterNumber "-" = None ∧
  Text.processLine ([], []) "- https://example.com/milk"
    = (["https://example.com/milk"], ["- -"]).
Proof. repeat split; reflexivity. Qed.

(** C6. Structuring "Buy milk\n- 2% \n- https://example.com/milk" gives the
    title "Buy milk" and the one URL, but two detail bullets, "2%" and "-"
    (stored as "- 2%" and "- -"), and a description with the extra line
    "- -" in its Details block: neither the bullets nor the description are
    the expected ["2%"] and
    "Details:\n- 2%\n\nLinks:\n- https://example.com/milk". *)
Theorem structuring_milk_input :
  Text.extractUrlsFromText milkInput
    = Text.mkExtracted
        "Buy milk"
        ["https://example.com/milk"]
        ["- 2%"; "- -"]
        ("Details:" ++ Text.nl ++ "- 2%" ++ Text.nl ++ "- -" ++ Text.nl
         ++ Text.nl ++ "Links:" ++ Text.nl ++ "- https://example.com/milk") ∧
  detailBullets (Text.extractUrlsFromText milkInput) = ["2%"; "-"] ∧
  detailBullets (Text.extractUrlsFromText milkInput) ≠ ["2%"] ∧
  Text.description (Text.extractUrlsFromText milkInput)
    ≠ milkDescriptionExpected.
Proof.
  repeat split; try (vm_compute; reflexivity); vm_compute; discriminate.
Qed.

(** A single line with a URL has no Details block. *)
Lemma structuring_single_line :
  Text.extractUrlsFromText "Call mom https://x.co"
    = Text.mkExtracted "Call mom" ["https://x.co"] []
        ("Links:" ++ Text.nl ++ "- https://x.co").
Proof. vm_compute. reflexivity. Qed.

(** ** Credential resolver *)

Section TokenFacts.
Import TokenManager.

Lemma loadTokens_file (tm : t) : tokensFile (loadTokens tm) = tokensFile tm.
Proof. unfold loadTokens. destruct (tokensFile tm) eqn:E; simpl; congruence. Qed.

Lemma loadTokens_defaults (tm : t) :
  defaultApiKey (loadTokens tm) = defaultApiKey tm ∧
  defaultToken (loadTokens tm) = defaultToken tm ∧
  writable (loadTokens tm) = writable tm ∧
  cipher (loadTokens tm) = cipher tm.
Proof. unfold loadTokens. destruct (tokensFile tm); simpl; auto. Qed.

(** A record that is neither in memory nor on file resolves to the
    default pair. *)
Lemma getToken_absent (chat now : string) (tm : t) :
  (∀ enc, tokensFile tm = Some enc → enc !! chat = None) →
  fst (getToken chat now tm)
    = mkCredentials (defaultApiKey tm) (defaultToken tm)
                    (Some "Default Workspace").
Proof.
  intros Habs. unfold getToken.
  assert (E : tokens (loadTokens tm) !! chat = None).
  { unfold loadTokens. destruct (tokensFile tm) as [enc|] eqn:Ef; simpl.
    - rewrite lookup_omap. now rewrite (Habs enc eq_refl).
    - apply lookup_empty. }
  rewrite E. simpl.
  destruct (loadTokens_defaults tm) as (-> & -> & _). reflexivity.
Qed.

(** Removing a record that is in memory, on a disk that accepts the
    write, leaves a file without it. *)
Lemma removeToken_file (chat now : string) (tm : t) :
  is_Some (tokens tm !! chat) → writable tm = true →
  fst (removeToken chat now tm) = true ∧
  ∀ enc, tokensFile (snd (removeToken chat now tm)) = Some enc →
         enc !! chat = None.
Proof.
  intros [d Hd] Hw. unfold removeToken. rewrite Hd. simpl.
  split; [reflexivity |].
  unfold saveTokens. simpl. rewrite Hw. simpl.
  intros enc [= <-]. rewrite lookup_fmap, lookup_delete_eq. reflexivity.
Qed.
End TokenFacts.

Section BotFacts.
Import Bot.

(** The state a [sendMessage] leaves differs from the one it found only
    in the outbox and in the outcomes still to come. *)
Lemma sendMessage_frame (chat : Z) (r : Reply) (b : t) :
  userSessions (snd (sendMessage chat r b)) = userSessions b ∧
  trelloServices (snd (sendMessage chat r b)) = trelloServices b ∧
  tokenManager (snd (sendMessage chat r b)) = tokenManager b ∧
  config (snd (sendMessage chat r b)) = config b ∧
  errorLog (snd (sendMessage chat r b)) = errorLog b.
Proof.
  unfold sendMessage. destruct (sendOutcomes b) as [|[|] ?]; simpl; auto.
Qed.

Lemma sendMessage_delivered (chat : Z) (r : Reply) (b : t) :
  hd true (sendOutcomes b) = true →
  fst (sendMessage chat r b) = Ok tt ∧
  outbox (snd (sendMessage chat r b)) = (outbox b ++ [(chat, r)])%list.
Proof.
  unfold sendMessage. destruct (sendOutcomes b) as [|[|] ?]; simpl; auto.
  discriminate.
Qed.
End BotFacts.

(** C7. For a chat that has a credential record, after [/removeworkspace]
    has deleted the record (the credential store accepting the write), the
    resolver answers the process-wide default pair for that chat, the chat
    no longer counts as having a record and the client cache is empty. The
    chat's board and list selection is gone when the configuration store
    accepts its write too; when that write fails, [saveConfig] only logs
    the error and every chat's selection is what it was. *)
Theorem remove_workspace_restores_default
    (b : Bot.t) (msg : Msg) (now : string)
    (Hrec : fst (TokenManager.hasCustomToken (Js.toString (chat_id msg))
                   (Bot.tokenManager b)) = true)
    (Hwt : TokenManager.writable (Bot.tokenManager b) = true) :
  let chat := Js.toString (chat_id msg) in
  let b' := snd (Bot.handleRemoveWorkspace now msg b) in
  (∀ now',
     fst (TokenManager.getToken chat now' (Bot.tokenManager b'))
       = TokenManager.mkCredentials
           (TokenManager.defaultApiKey (Bot.tokenManager b))
           (TokenManager.defaultToken (Bot.tokenManager b))
           (Some "Default Workspace")) ∧
  fst (TokenManager.hasCustomToken chat (Bot.tokenManager b')) = false ∧
  Bot.trelloServices b' = ∅ ∧
  (ConfigManager.writable (Bot.config b) = true →
   ConfigManager.getChatConfig chat (Bot.config b')
     = ConfigManager.emptyConfig ∧
   ConfigManager.boardId (ConfigManager.getChatConfig chat (Bot.config b'))
     = None ∧
   ConfigManager.defaultListId
     (ConfigManager.getChatConfig chat (Bot.config b')) = None) ∧
  (ConfigManager.writable (Bot.config b) = false →
   ∀ c, ConfigManager.getChatConfig c (Bot.config b')
        = ConfigManager.getChatConfig c (Bot.config b)).
Proof.
  intros chat b'.
  set (tm := TokenManager.loadTokens (Bot.tokenManager b)).
  assert (Hin : is_Some (TokenManager.tokens tm !! chat)).
  { unfold TokenManager.hasCustomToken in Hrec. simpl in Hrec.
    now apply bool_decide_eq_true in Hrec. }
  destruct (loadTokens_defaults (Bot.tokenManager b)) as (Hk0 & Ht0 & Hw0 & _).
  fold tm in Hk0, Ht0, Hw0.
  assert (Hw : TokenManager.writable tm = true) by congruence.
  destruct (removeToken_file chat now tm Hin Hw) as [Hrm Hfile].
  set (tm' := snd (TokenManager.removeToken chat now tm)) in *.
  set (cfg' := ConfigManager.clearChatConfig chat (Bot.config b)).
  assert (Hb' : Bot.tokenManager b' = tm' ∧ Bot.config b' = cfg'
                ∧ Bot.trelloServices b' = ∅).
  { unfold b', Bot.handleRemoveWorkspace.
    unfold mbind, Bot.M_bind, Bot.bind, Bot.get, Bot.modify. cbn.
    fold chat. fold tm.
    rewrite (bool_decide_eq_true_2 _ Hin). cbn.
    destruct (TokenManager.removeToken chat now tm) as [removed tm1] eqn:Erm.
    cbn in Hrm. subst removed. cbn.
    match goal with
    | |- context [Bot.sendMessage ?c ?r ?s] =>
        destruct (sendMessage_frame c r s) as (_ & Hs & Ht & Hc & _);
        rewrite Ht, Hc, Hs
    end.
    cbn. unfold tm'. auto. }
  destruct Hb' as (Ht & Hc & Hs). rewrite Ht, Hc, Hs.
  assert (Hdef : TokenManager.defaultApiKey tm' = TokenManager.defaultApiKey (Bot.tokenManager b)
               ∧ TokenManager.defaultToken tm' = TokenManager.defaultToken (Bot.tokenManager b)).
  { unfold tm', TokenManager.removeToken. destruct Hin as [d ->]. cbn.
    unfold TokenManager.saveTokens. cbn. rewrite Hw. cbn. auto. }
  destruct Hdef as [Hk Htk].
  split; [| split; [| split; [reflexivity | split]]].
  - intros now'. rewrite (getToken_absent chat now' tm' Hfile).
    now rewrite Hk, Htk.
  - unfold TokenManager.hasCustomToken. cbn.
    apply bool_decide_eq_false_2. intros [d Hd].
    unfold TokenManager.loadTokens in Hd.
    destruct (TokenManager.tokensFile tm') as [enc|] eqn:Ef; cbn in Hd.
    + rewrite lookup_omap, (Hfile enc eq_refl) in Hd. discriminate.
    + rewrite lookup_empty in Hd. discriminate.
  - intros Hwc.
    assert (Hcfg : ConfigManager.getChatConfig chat cfg'
                   = ConfigManager.emptyConfig).
    { unfold cfg', ConfigManager.clearChatConfig, ConfigManager.saveConfig.
      rewrite Hwc. unfold ConfigManager.getChatConfig. cbn.
      now rewrite lookup_delete_eq. }
    rewrite Hcfg. repeat split.
  - intros Hwc c.
    unfold cfg', ConfigManager.clearChatConfig, ConfigManager.saveConfig.
    now rewrite Hwc.
Qed.

Lemma remove_workspace_restores_default_witness :
  fst (TokenManager.getToken "42" "t1" (Bot.tokenManager demoBot))
    = TokenManager.mkCredentials "key42" "tok42" (Some "Ann Lee") ∧
  fst (TokenManager.getToken "42" "t3"
         (Bot.tokenManager
            (snd (Bot.handleRemoveWorkspace "t2" (demoMsg "/removeworkspace")
                    demoBot))))
    = TokenManager.mkCredentials "defaultKey" "defaultToken"
        (Some "Default Workspace") ∧
  ConfigManager.getChatConfig "42"
    (Bot.config (snd (Bot.handleRemoveWorkspace "t2"
                        (demoMsg "/removeworkspace") demoBot)))
    = ConfigManager.emptyConfig.
Proof.
  destruct (remove_workspace_restores_default demoBot
              (demoMsg "/removeworkspace") "t2" eq_refl eq_refl)
    as (Hdef & _ & _ & Hcfg & _).
  split; [vm_compute; reflexivity |]. split; [exact (Hdef "t3") |].
  exact (proj1 (Hcfg eq_refl)).
Defined.

(** With the record in place and a configuration file that cannot be
    written, [/removeworkspace] deletes the record and reports the
    workspace as removed, and the chat's board and list are still
    selected. *)
Lemma remove_workspace_keeps_selection_when_config_write_fails :
  fst (TokenManager.hasCustomToken "42" (Bot.tokenManager demoBotFrozenConfig))
    = true ∧
  fst (TokenManager.hasCustomToken "42"
         (Bot.tokenManager
            (snd (Bot.handleRemoveWorkspace "t2" (demoMsg "/removeworkspace")
                    demoBotFrozenConfig)))) = false ∧
  Bot.outbox (snd (Bot.handleRemoveWorkspace "t2" (demoMsg "/removeworkspace")
                     demoBotFrozenConfig)) = [(42, Bot.WorkspaceRemoved)] ∧
  ConfigManager.getChatConfig "42"
    (Bot.config (snd (Bot.handleRemoveWorkspace "t2"
                        (demoMsg "/removeworkspace") demoBotFrozenConfig)))
    = ConfigManager.mkChatConfig (Some "B1") (Some "L1") (Some "t0").
Proof. repeat split; vm_compute; reflexivity. Qed.

(** C4. When the external check of a parsed credential pair fails,
    [validateToken] answers the structured error, the setup handler reports
    it and returns, and the token store, in memory and on file, is as it was
    (so are the chat's board selection, the session and the client cache).
    Whenever the handler does change the token store, the pair had passed the
    external check. *)
Theorem invalid_credentials_leave_store_untouched :
  (∀ (b : Bot.t) (msg : Msg) (txt now key tok err : string),
     Bot.parseCredentials txt = (Some key, Some tok) →
     Js.truthy key = true → Js.truthy tok = true →
     Bot.membersMe (Bot.remote b) key tok = TokenManager.HttpError err →
     TokenManager.validateToken (Bot.membersMe (Bot.remote b) key tok)
       = TokenManager.Invalid err ∧
     Bot.tokenManager (snd (Bot.handleWorkspaceSetup now msg txt b))
       = Bot.tokenManager b ∧
     Bot.config (snd (Bot.handleWorkspaceSetup now msg txt b)) = Bot.config b ∧
     Bot.userSessions (snd (Bot.handleWorkspaceSetup now msg txt b))
       = Bot.userSessions b ∧
     Bot.trelloServices (snd (Bot.handleWorkspaceSetup now msg txt b))
       = Bot.trelloServices b ∧
     (hd true (Bot.sendOutcomes b) = true →
      Bot.outbox (snd (Bot.handleWorkspaceSetup now msg txt b))
        = (Bot.outbox b
           ++ [(chat_id msg,
                Bot.InvalidCredentials err (String.length key)
                                       (String.length tok))])%list)) ∧
  (∀ (b : Bot.t) (msg : Msg) (txt now : string),
     Bot.tokenManager (snd (Bot.handleWorkspaceSetup now msg txt b))
       ≠ Bot.tokenManager b →
     ∃ key tok username fullName email,
       Bot.parseCredentials txt = (Some key, Some tok) ∧
       Bot.membersMe (Bot.remote b) key tok
         = TokenManager.HttpOk username fullName email).
Proof.
  split.
  - intros b msg txt now key tok err Hparse Hk Ht Hhttp.
    split; [now rewrite Hhttp |].
    unfold Bot.handleWorkspaceSetup. rewrite Hparse. cbn [Js.truthyOpt default].
    rewrite Hk, Ht. cbn [negb orb].
    unfold mbind, Bot.M_bind, Bot.bind, Bot.get. cbn.
    rewrite Hhttp. cbn.
    destruct (sendMessage_frame (chat_id msg)
                (Bot.InvalidCredentials err (String.length key) (String.length tok)) b)
      as (Hs & Hc & Htm & Hcf & _).
    repeat split; try assumption.
    intros Hsend.
    exact (proj2 (sendMessage_delivered _ _ b Hsend)).
  - intros b msg txt now Hne.
    unfold Bot.handleWorkspaceSetup in Hne.
    destruct (Bot.parseCredentials txt) as [apiKey token] eqn:Hparse.
    destruct (negb (Js.truthyOpt apiKey) || negb (Js.truthyOpt token)) eqn:Hfmt.
    + exfalso. apply Hne. apply sendMessage_frame.
    + apply orb_false_iff in Hfmt as [Hk Ht].
      destruct apiKey as [key|]; [| discriminate].
      destruct token as [tok|]; [| discriminate].
      cbn [default] in Hne.
      unfold mbind, Bot.M_bind, Bot.bind, Bot.get in Hne. cbn in Hne.
      destruct (Bot.membersMe (Bot.remote b) key tok) as [u f e | err] eqn:Hhttp.
      * exists key, tok, u, f, e. auto.
      * exfalso. apply Hne. cbn. apply sendMessage_frame.
Qed.

Lemma invalid_credentials_leave_store_untouched_witness :
  Bot.parseCredentials ("API_KEY: badkey" ++ Text.nl ++ "TOKEN: badtoken")
    = (Some "badkey", Some "badtoken") ∧
  Bot.tokenManager
    (snd (Bot.handleWorkspaceSetup "t1"
            (demoMsg ("API_KEY: badkey" ++ Text.nl ++ "TOKEN: badtoken"))
            ("API_KEY: badkey" ++ Text.nl ++ "TOKEN: badtoken") demoBot))
    = Bot.tokenManager demoBot.
Proof.
  split; [vm_compute; reflexivity |].
  destruct invalid_credentials_leave_store_untouched as [Hinv _].
  exact (proj1 (proj2
    (Hinv demoBot
       (demoMsg ("API_KEY: badkey" ++ Text.nl ++ "TOKEN: badtoken"))
       ("API_KEY: badkey" ++ Text.nl ++ "TOKEN: badtoken") "t1"
       "badkey" "badtoken" "Request failed with status code 401"
       eq_refl eq_refl eq_refl eq_refl))).
Defined.

(** ** Conversation sessions *)

Section SessionFacts.
Import Bot.

Lemma sendMessage_inv (c : Z) (r : Reply) (b b' : t) (res : Res unit) :
  sendMessage c r b = (res, b') →
  userSessions b' = userSessions b ∧
  errorLog b' = errorLog b ∧
  ((res = Ok tt ∧ outbox b' = (outbox b ++ [(c, r)])%list) ∨
   (res = Thrown SendFailed ∧ outbox b' = outbox b)).
Proof.
  unfold sendMessage.
  destruct (sendOutcomes b) as [|[|] ?]; intros [= <- <-]; cbn; auto.
Qed.

Ltac run :=
  unfold mbind, M_bind, bind, mret, M_ret, ret, get, modify, throw,
         deleteSession, mutateSession, getChatConfig, getTrelloService,
         getBoardLists; cbn.

Ltac send_cases :=
  match goal with
  | |- context [sendMessage ?c ?r ?st] =>
      let E := fresh "E" in
      let res := fresh "res" in
      let b' := fresh "b'" in
      let Hu := fresh "Hu" in
      let Hl := fresh "Hl" in
      let Ho := fresh "Ho" in
      destruct (sendMessage c r st) as [res b'] eqn:E;
      apply sendMessage_inv in E as (Hu & Hl & [[-> Ho] | [-> Ho]]);
      cbn in Hu, Hl, Ho |- *
  end.

(** An idea session that takes a text either ends up advanced, with the
    list prompt delivered and nothing thrown, or is gone from the store:
    every failure on the way deletes it. *)
Lemma idea_session_fails_closed
      (now : string) (msg : Msg) (txt : string) (s : Session) (b : t) :
  type s = AddIdea → step s = WaitingForIdea →
  userSessions b !! sessionKey msg = Some s →
  let r := handleSessionMessage now msg txt s b in
  userSessions (snd r) !! sessionKey msg = None ∨
  (fst r = Ok tt ∧
   errorLog (snd r) = errorLog b ∧
   userSessions (snd r) !! sessionKey msg = Some (withIdea msg txt s) ∧
   ∃ ls, outbox (snd r)
         = (outbox b ++ [(chat_id msg, SelectListForIdea (listButtons ls) txt)])%list).
Proof.
  intros Hty Hst Hs r. subst r.
  unfold handleSessionMessage. rewrite Hty, Hst.
  unfold tryCatch, ideaStep.
  destruct (data s) as [d|] eqn:Hd.
  2:{ left. run. send_cases; rewrite Hu; apply lookup_delete_eq. }
  run.
  destruct (negb _) eqn:Hboard.
  { left. cbn. send_cases; rewrite Hu; apply lookup_delete_eq. }
  destruct (TokenManager.getToken _ _ _) as [cred tm] eqn:Etok. cbn.
  destruct (listsOnBoard _ _ _) as [lists|] eqn:Elists; cbn.
  2:{ left. send_cases; rewrite Hu; apply lookup_delete_eq. }
  destruct (length _ =? 0)%nat eqn:Elen; cbn.
  { left. send_cases; rewrite Hu; apply lookup_delete_eq. }
  send_cases.
  - right. cbn. rewrite Hu, Hl, Ho, lookup_alter_eq, Hs.
    repeat split. eexists. reflexivity.
  - left. send_cases; rewrite Hu0; apply lookup_delete_eq.
Qed.

(** The advance itself: with a board selected, at least one open list on
    it and the prompt delivered, the session is rewritten in place. *)
Lemma idea_session_advances
      (now : string) (msg : Msg) (txt : string) (s : Session)
      (d : SessionData) (lists : list TList) (b : t) :
  type s = AddIdea → step s = WaitingForIdea → data s = Some d →
  Js.truthyOpt (ConfigManager.boardId
    (ConfigManager.getChatConfig (Js.toString (chat_id msg)) (config b))) = true →
  listsOnBoard (remote b) (clientKey (chat_id msg) now b)
    (default EmptyString (ConfigManager.boardId
       (ConfigManager.getChatConfig (Js.toString (chat_id msg)) (config b))))
    = Some lists →
  openLists lists ≠ [] →
  hd true (sendOutcomes b) = true →
  let r := handleSessionMessage now msg txt s b in
  fst r = Ok tt ∧
  userSessions (snd r)
    = alter (withIdea msg txt) (sessionKey msg) (userSessions b) ∧
  errorLog (snd r) = errorLog b ∧
  outbox (snd r)
    = (outbox b ++ [(chat_id msg,
                     SelectListForIdea (listButtons (openLists lists)) txt)])%list.
Proof.
  intros Hty Hst Hd Hboard Hlists Hopen Hsend r. subst r.
  unfold handleSessionMessage. rewrite Hty, Hst.
  unfold tryCatch, ideaStep. rewrite Hd. run.
  rewrite Hboard. cbn.
  unfold clientKey in Hlists.
  destruct (TokenManager.getToken _ _ _) as [cred tm] eqn:Etok.
  cbn in Hlists |- *. rewrite Hlists. cbn.
  fold (openLists lists).
  destruct (openLists lists) as [|l ls] eqn:Eopen; [congruence |]. cbn.
  match goal with
  | |- context [sendMessage ?c ?r ?st] =>
      destruct (sendMessage_delivered c r st Hsend) as [Hok Hout];
      pose proof (sendMessage_frame c r st) as (Hu & _ & _ & _ & Hl);
      destruct (sendMessage c r st) as [res b'] eqn:E
  end.
  cbn in Hok, Hout, Hu, Hl. subst res. cbn.
  repeat split; assumption.
Qed.

Section Listener.
Variables handleQuickIdea handleQuickTask : Msg → string → M unit.

Lemma plain_text_is_not_cancel (txt : string) :
  String.prefix "/" txt = false → String.eqb txt "/cancel" = false.
Proof.
  intros H. destruct (String.eqb_spec txt "/cancel") as [->|]; [| reflexivity].
  discriminate H.
Qed.

(** An explicit [/cancel] removes the session of its chat, whether or not
    the acknowledgement can be sent. *)
Lemma cancel_deletes_session
      (now : string) (msg : Msg) (s : Session) (b : t) :
  text msg = Some "/cancel" →
  userSessions b !! sessionKey msg = Some s →
  userSessions (snd (onMessage handleQuickIdea handleQuickTask now msg b))
    = delete (sessionKey msg) (userSessions b).
Proof.
  intros Htxt Hs. unfold onMessage, tryCatch, handleMentions.
  rewrite Htxt. cbn. run. rewrite Hs. cbn.
  send_cases; exact Hu.
Qed.

Lemma sendMessage_rejected (c : Z) (r : Reply) (b : t) :
  hd true (sendOutcomes b) = false →
  fst (sendMessage c r b) = Thrown SendFailed ∧
  userSessions (snd (sendMessage c r b)) = userSessions b ∧
  outbox (snd (sendMessage c r b)) = outbox b ∧
  errorLog (snd (sendMessage c r b)) = errorLog b.
Proof.
  unfold sendMessage. destruct (sendOutcomes b) as [|[|] ?]; cbn; auto;
    discriminate.
Qed.

(** A workspace-setup session whose text is rejected (it does not parse, or
    the pair fails the external check) stays stored when the rejection
    cannot be sent: the exception passes through [handleSessionMessage]
    uncaught and the listener only logs it. *)
Lemma workspace_failure_keeps_session
      (now : string) (msg : Msg) (txt : string) (s : Session) (b : t) :
  text msg = Some txt → Js.truthy txt = true → String.prefix "/" txt = false →
  userSessions b !! sessionKey msg = Some s →
  type s = SetWorkspace → step s = WaitingForCredentials →
  (negb (Js.truthyOpt (fst (parseCredentials txt)))
   || negb (Js.truthyOpt (snd (parseCredentials txt))) = true
   ∨ ∃ key tok err,
       parseCredentials txt = (Some key, Some tok) ∧
       Js.truthy key = true ∧ Js.truthy tok = true ∧
       membersMe (remote b) key tok = TokenManager.HttpError err) →
  hd true (sendOutcomes b) = false →
  let b' := snd (onMessage handleQuickIdea handleQuickTask now msg b) in
  errorLog b' = (errorLog b ++ [SendFailed])%list ∧
  userSessions b' = userSessions b ∧
  outbox b' = outbox b.
Proof.
  intros Htext Hne Hplain Hs Hty Hst Hrej Hsend b'. subst b'.
  unfold onMessage, tryCatch, handleMentions.
  rewrite Htext, Hne, Hplain, (plain_text_is_not_cancel txt Hplain).
  cbn [negb andb].
  unfold mbind, M_bind, bind, get. cbn [fst snd].
  rewrite Hs, Hst.
  replace (if isGroupChat msg then ret () else ret ()) with (@ret unit tt)
    by (now destruct (isGroupChat msg)).
  unfold ret. cbn -[handleSessionMessage]. rewrite Hs.
  cbn -[handleSessionMessage].
  unfold handleSessionMessage. rewrite Hty.
  unfold handleWorkspaceSetup.
  destruct (parseCredentials txt) as [apiKey token] eqn:Hparse.
  cbn [fst snd] in Hrej.
  destruct Hrej as [Hfmt | (key & tok & err & [= -> ->] & Hk & Ht & Hhttp)].
  - rewrite Hfmt.
    destruct (sendMessage_rejected (chat_id msg) InvalidFormat b Hsend)
      as (Hthrown & Hus & Hout & Hlog).
    destruct (sendMessage (chat_id msg) InvalidFormat b) as [res b1].
    cbn in Hthrown, Hus, Hout, Hlog. subst res. unfold modify. cbn.
    now rewrite Hus, Hout, Hlog.
  - cbn [Js.truthyOpt default from_option id]. rewrite Hk, Ht. cbn [negb orb].
    unfold mbind, M_bind, bind, get. cbn [fst snd]. rewrite Hhttp.
    cbn [TokenManager.validateToken].
    match goal with
    | |- context [sendMessage ?c ?r b] =>
        destruct (sendMessage_rejected c r b Hsend)
          as (Hthrown & Hus & Hout & Hlog);
        destruct (sendMessage c r b) as [res b1]
    end.
    cbn in Hthrown, Hus, Hout, Hlog. subst res. unfold modify. cbn.
    now rewrite Hus, Hout, Hlog.
Qed.
End Listener.
End SessionFacts.

(** C8. An idea session waiting for its text that receives a plain text,
    with a board selected, at least one open list on it and the list prompt
    delivered, is still stored under its key afterwards, now in step
    [waiting_for_list] and holding the text; a [/cancel] under that key then
    removes it, and a lookup finds nothing. *)
Theorem idea_session_advances_then_cancel
    (hqi hqt : Msg → string → Bot.M unit)
    (b : Bot.t) (msg : Msg) (txt now : string)
    (s : Bot.Session) (d : Bot.SessionData) (lists : list Bot.TList)
    (Htext : text msg = Some txt)
    (Hne : Js.truthy txt = true)
    (Hplain : String.prefix "/" txt = false)
    (Hsess : Bot.userSessions b !! Bot.sessionKey msg = Some s)
    (Htype : Bot.type s = Bot.AddIdea)
    (Hstep : Bot.step s = Bot.WaitingForIdea)
    (Hdata : Bot.data s = Some d)
    (Hboard : Js.truthyOpt (ConfigManager.boardId
                (ConfigManager.getChatConfig (Js.toString (chat_id msg))
                   (Bot.config b))) = true)
    (Hlists : Bot.listsOnBoard (Bot.remote b) (clientKey (chat_id msg) now b)
                (default EmptyString (ConfigManager.boardId
                   (ConfigManager.getChatConfig (Js.toString (chat_id msg))
                      (Bot.config b))))
              = Some lists)
    (Hopen : openLists lists ≠ [])
    (Hsend : hd true (Bot.sendOutcomes b) = true) :
  let b1 := snd (Bot.onMessage hqi hqt now msg b) in
  (∃ s1, Bot.userSessions b1 !! Bot.sessionKey msg = Some s1 ∧
         Bot.step s1 = Bot.WaitingForList ∧
         Bot.type s1 = Bot.AddIdea ∧
         Bot.idea <$> Bot.data s1 = Some (Some txt)) ∧
  Bot.errorLog b1 = Bot.errorLog b ∧
  ∀ (now' : string) (msg' : Msg),
    Bot.sessionKey msg' = Bot.sessionKey msg →
    text msg' = Some "/cancel" →
    Bot.userSessions (snd (Bot.onMessage hqi hqt now' msg' b1))
      !! Bot.sessionKey msg = None.
Proof.
  intros b1.
  assert (Hb1 : Bot.userSessions b1 !! Bot.sessionKey msg
                = Some (withIdea msg txt (stamped msg s))
                ∧ Bot.errorLog b1 = Bot.errorLog b).
  { unfold b1, Bot.onMessage, Bot.tryCatch, Bot.handleMentions.
    rewrite Htext, Hne, Hplain, (plain_text_is_not_cancel txt Hplain).
    cbn [negb andb].
    unfold mbind, Bot.M_bind, Bot.bind, Bot.get. cbn [fst snd].
    rewrite Hsess. unfold stamped.
    destruct (isGroupChat msg) eqn:Hg.
    - rewrite Hstep, Hdata.
      unfold Bot.mutateSession, Bot.modify. cbn [Bot.userSessions Bot.set_userSessions].
      rewrite lookup_alter_eq, Hsess. cbn [fmap option_fmap option_map default].
      fold (withSender msg).
      match goal with
      | |- context [Bot.handleSessionMessage now msg txt ?s' ?b'] =>
          destruct (idea_session_advances now msg txt s' _ lists b'
                      Htype Hstep ltac:(cbn; rewrite Hdata; reflexivity)
                      Hboard Hlists Hopen Hsend)
            as (Hok & Hus & Hl & _);
          destruct (Bot.handleSessionMessage now msg txt s' b') as [res b2]
      end.
      cbn in Hok, Hus, Hl. subst res. cbn [snd].
      rewrite Hus, Hl. rewrite !lookup_alter_eq, Hsess. auto.
    - unfold Bot.ret. cbn -[Bot.handleSessionMessage].
      rewrite Hsess. cbn -[Bot.handleSessionMessage].
      destruct (idea_session_advances now msg txt s d lists b
                  Htype Hstep Hdata Hboard Hlists Hopen Hsend)
        as (Hok & Hus & Hl & _).
      destruct (Bot.handleSessionMessage now msg txt s b) as [res b2].
      cbn in Hok, Hus, Hl. subst res. cbn [snd].
      rewrite Hus, Hl, lookup_alter_eq, Hsess. auto. }
  destruct Hb1 as [Hlook Hlog].
  split; [| split; [exact Hlog |]].
  - eexists. split; [exact Hlook |].
    unfold withIdea, stamped, withSender.
    destruct (isGroupChat msg); cbn; rewrite ?Htype, ?Hdata; cbn; auto.
  - intros now' msg' Hkey Hcancel. rewrite <- Hkey in Hlook |- *.
    rewrite (cancel_deletes_session hqi hqt now' msg' _ b1 Hcancel Hlook).
    apply lookup_delete_eq.
Qed.

Lemma idea_session_advances_then_cancel_witness :
  Bot.step <$> (Bot.userSessions ideaBot !! "42") = Some Bot.WaitingForIdea ∧
  (∃ s1, Bot.userSessions
           (snd (Bot.onMessage noCapture noCapture "t1" (demoMsg "my idea") ideaBot))
           !! "42" = Some s1 ∧
         Bot.step s1 = Bot.WaitingForList) ∧
  Bot.userSessions
    (snd (Bot.onMessage noCapture noCapture "t2" (demoMsg "/cancel")
            (snd (Bot.onMessage noCapture noCapture "t1" (demoMsg "my idea")
                    ideaBot))))
    !! "42" = None.
Proof.
  pose proof
    (idea_session_advances_then_cancel noCapture noCapture ideaBot
       (demoMsg "my idea") "my idea" "t1"
       (Bot.mkSession Bot.WaitingForIdea Bot.AddIdea
          (Some (Bot.mkData 42 (Some "Ann") None)) 42)
       (Bot.mkData 42 (Some "Ann") None)
       [Bot.mkList "L1" "Ideas" false; Bot.mkList "L2" "Old" true]
       eq_refl eq_refl eq_refl eq_refl eq_refl eq_refl eq_refl eq_refl eq_refl
       ltac:(vm_compute; discriminate) eq_refl)
    as (Hadv & _ & Hcancel).
  split; [reflexivity |]. split.
  - destruct Hadv as (s1 & Hs1 & Hstep & _). exists s1. split; [exact Hs1 | exact Hstep].
  - exact (Hcancel "t2" (demoMsg "/cancel") eq_refl eq_refl).
Defined.

(** The same session, board and open list with a transport that rejects
    the list prompt: the [catch] of [handleSessionMessage] deletes the
    session, so it is not retrievable in step [waiting_for_list]. *)
Lemma idea_session_deleted_when_prompt_is_rejected :
  Bot.step <$> (Bot.userSessions ideaBotFailing !! "42")
    = Some Bot.WaitingForIdea ∧
  ConfigManager.boardId
    (ConfigManager.getChatConfig "42" (Bot.config ideaBotFailing))
    = Some "B1" ∧
  openLists <$>
    Bot.listsOnBoard (Bot.remote ideaBotFailing)
      (clientKey 42 "t1" ideaBotFailing) "B1"
    = Some [Bot.mkList "L1" "Ideas" false] ∧
  Bot.userSessions
    (snd (Bot.onMessage noCapture noCapture "t1" (demoMsg "my idea")
            ideaBotFailing)) !! "42" = None ∧
  Bot.outbox
    (snd (Bot.onMessage noCapture noCapture "t1" (demoMsg "my idea")
            ideaBotFailing)) = [(42, Bot.SessionError)].
Proof. repeat split; vm_compute; reflexivity. Qed.

(** C3. A workspace-setup session outlives an exception raised while it is
    advanced: when the reply to the text "hello" cannot be sent,
    [handleWorkspaceSetup] throws, nothing on the way deletes the session,
    and the message listener logs the error with the session still stored.
    Under an idea session the same failure is caught by
    [handleSessionMessage], which deletes the session first. *)
Theorem workspace_session_survives_exception :
  fst (Bot.handleMentions noCapture noCapture "t1" (demoMsg "hello") setupBot)
    = Bot.Thrown Bot.SendFailed ∧
  Bot.errorLog (snd (Bot.onMessage noCapture noCapture "t1" (demoMsg "hello")
                       setupBot)) = [Bot.SendFailed] ∧
  Bot.userSessions (snd (Bot.onMessage noCapture noCapture "t1" (demoMsg "hello")
                           setupBot)) !! "42" = Some setupSession ∧
  Bot.userSessions (snd (Bot.onMessage noCapture noCapture "t1" (demoMsg "hello")
                           ideaBotFailing)) !! "42" = None.
Proof. repeat split; vm_compute; reflexivity. Qed.

(** The same holds when the list prompt is answered: an idea session in
    [waiting_for_list] whose chosen list is not (or no longer) among the open
    lists of the board is kept by the [catch] block of
    [handleIdeaListSelection], whatever the transport does. *)
Lemma list_selection_failure_keeps_session
    (now : string) (q : Bot.Query) (listId : string)
    (s : Bot.Session) (d : Bot.SessionData) (lists : list Bot.TList)
    (b : Bot.t) :
  Bot.userSessions b !! Bot.querySessionKey q = Some s →
  Bot.data s = Some d →
  Js.truthyOpt (Bot.idea d) = true →
  Bot.listsOnBoard (Bot.remote b) (clientKey (Bot.query_chat_id q) now b)
    (default EmptyString (ConfigManager.boardId
       (ConfigManager.getChatConfig (Js.toString (Bot.query_chat_id q))
          (Bot.config b))))
    = Some lists →
  List.find (fun l => String.eqb (Bot.list_id l) listId) (openLists lists) = None →
  Bot.userSessions (snd (Bot.handleIdeaListSelection now q listId b))
    = Bot.userSessions b.
Proof.
  intros Hs Hd Hidea Hlists Hfind.
  unfold Bot.handleIdeaListSelection.
  unfold mbind, Bot.M_bind, Bot.bind, Bot.get. cbn [fst snd].
  rewrite Hs, Hd, Hidea. cbn [negb].
  unfold Bot.tryCatch, Bot.getTrelloService.
  unfold clientKey in Hlists.
  destruct (TokenManager.getToken _ _ _) as [cred tm] eqn:Etok.
  cbn [fst] in Hlists. unfold Bot.getChatConfig, Bot.getBoardLists.
  cbn. rewrite Hlists. cbn. fold (openLists lists). rewrite Hfind.
  unfold Bot.throw, Bot.answerCallbackQuery, Bot.editMessageText. cbn.
  repeat match goal with
  | |- context [Bot.sendMessage ?c ?r ?st] =>
      let Hu := fresh "Hu" in
      destruct (sendMessage_frame c r st) as (Hu & _);
      destruct (Bot.sendMessage c r st) as [[[]|?] ?]; cbn in Hu |- *
  end; congruence.
Qed.

(** A press on the button of list L9, which the board does not have. *)
Lemma list_selection_failure_example :
  let waiting :=
    snd (Bot.onMessage noCapture noCapture "t1" (demoMsg "my idea") ideaBot) in
  Bot.step <$> (Bot.userSessions waiting !! "42") = Some Bot.WaitingForList ∧
  Bot.step <$> (Bot.userSessions
                  (snd (Bot.handleIdeaListSelection "t2"
                          (Bot.mkQuery 42 42 Private "idea_list:L9") "L9" waiting))
                  !! "42") = Some Bot.WaitingForList ∧
  Bot.userSessions
    (snd (Bot.handleIdeaListSelection "t2"
            (Bot.mkQuery 42 42 Private "idea_list:L1") "L1" waiting))
    !! "42" = None.
Proof. repeat split; vm_compute; reflexivity. Qed.

(* ===================================================================== *)
(** * Further properties                                                 *)
(* ===================================================================== *)

(** ** Authorization state *)

Section AuthorizeFacts.
Import AuthManager.

Lemma includes_false (x : string) (l : list string) :
  Js.includes x l = false ↔ x ∉ l.
Proof.
  rewrite <- includes_elem_of. destruct (Js.includes x l); split; congruence.
Qed.

Lemma NoDup_push (x : string) (l : list string) :
  Js.includes x l = false → NoDup l → NoDup (Js.push x l).
Proof.
  intros Hx Hl. unfold Js.push. apply NoDup_app. split; [exact Hl |].
  split; [| apply NoDup_singleton].
  intros y Hy Hy'. apply list_elem_of_singleton in Hy'. subst y.
  apply includes_false in Hx. contradiction.
Qed.

Lemma ensureAdmins_NoDup (admins us : list string) :
  NoDup us → NoDup (ensureAdmins admins us).
Proof.
  revert us. induction admins as [|a admins IH]; intros us H; simpl; [exact H |].
  apply IH. destruct (Js.includes a us) eqn:E; [exact H |].
  now apply NoDup_push.
Qed.

Lemma pushNew_ensureAdmins (xs acc : list string) :
  pushNew xs acc = ensureAdmins xs acc.
Proof.
  revert acc. induction xs as [|x xs IH]; intros acc; simpl; [reflexivity |].
  apply IH.
Qed.

Lemma splice1_NoDup (i : nat) (l : list string) :
  NoDup l → NoDup (Js.splice1 i l).
Proof.
  unfold Js.splice1. rewrite <- delete_take_drop.
  intros H. exact (sublist_NoDup _ _ H (sublist_delete l i)).
Qed.

(** An identity that is no admin is among the users after the admins were
    added exactly when it was before. *)
Lemma ensureAdmins_other (x : string) (admins us : list string) :
  Js.includes x admins = false →
  Js.includes x (ensureAdmins admins us) = Js.includes x us.
Proof.
  revert us. induction admins as [|a admins IH]; intros us H; simpl in *;
    [reflexivity |].
  destruct (String.eqb_spec a x) as [->|Hne]; [discriminate |].
  rewrite (IH _ H). destruct (Js.includes a us); [reflexivity |].
  destruct (Js.includes x us) eqn:E.
  - now apply includes_push.
  - apply includes_false. apply includes_false in E.
    unfold Js.push. rewrite elem_of_app, list_elem_of_singleton.
    intros [?|?]; [contradiction | congruence].
Qed.

(** [indexOf] finds the identity, and cutting that position out of a list
    without repetitions removes it. *)
Lemma indexOf_None (x : string) (l : list string) :
  Js.indexOf x l = None ↔ Js.includes x l = false.
Proof.
  induction l as [|y l IH]; simpl; [tauto |].
  destruct (String.eqb y x); [split; discriminate |].
  rewrite <- IH. destruct (Js.indexOf x l); simpl; split; congruence.
Qed.

Lemma splice1_removes (x : string) (l : list string) (i : nat) :
  NoDup l → Js.indexOf x l = Some i →
  Js.includes x (Js.splice1 i l) = false.
Proof.
  revert i. induction l as [|y l IH]; intros i Hnd Hi; simpl in Hi;
    [discriminate |].
  apply NoDup_cons in Hnd as [Hy Hl].
  destruct (String.eqb_spec y x) as [->|Hne].
  - injection Hi as <-. unfold Js.splice1. simpl. rewrite drop_0.
    now apply includes_false.
  - destruct (Js.indexOf x l) as [j|] eqn:Ej; [| discriminate].
    injection Hi as <-. unfold Js.splice1 in *. simpl.
    destruct (String.eqb_spec y x); [contradiction |].
    now apply IH.
Qed.

Lemma splice1_keeps (x v : string) (l : list string) (i : nat) :
  v ≠ x → Js.indexOf x l = Some i →
  Js.includes v (Js.splice1 i l) = Js.includes v l.
Proof.
  intros Hv. revert i. induction l as [|y l IH]; intros i Hi; simpl in Hi;
    [discriminate |].
  destruct (String.eqb_spec y x) as [->|Hne].
  - injection Hi as <-. unfold Js.splice1. simpl. rewrite drop_0.
    destruct (String.eqb_spec x v); [congruence | reflexivity].
  - destruct (Js.indexOf x l) as [j|] eqn:Ej; [| discriminate].
    injection Hi as <-. unfold Js.splice1 in *. simpl.
    destruct (String.eqb y v); [reflexivity |]. now apply IH.
Qed.

(** What a re-load sees after a save that went through. *)
Lemma load_after_save (am : t) :
  writable am = true →
  authorized (loadAuthorized (saveAuthorized am))
    = set_users (ensureAdmins (adminIds am) (users (authorized am)))
                (authorized am).
Proof.
  intros Hw. unfold saveAuthorized. rewrite Hw. reflexivity.
Qed.

End AuthorizeFacts.

Section AuthorizeRoundTrip.
Import AuthManager.

Lemma authorizeUser_then_listed (x : string) (am : t) :
  writable am = true →
  fst (isAuthorizedUser x (snd (authorizeUser x am))) = true.
Proof.
  intros Hw.
  assert (Hwl : writable (loadAuthorized am) = true)
    by now rewrite loadAuthorized_writable.
  unfold authorizeUser, isAuthorizedUser. cbn [fst].
  destruct (Js.includes x (users (authorized (loadAuthorized am)))) eqn:E;
    cbn [negb snd].
  - now rewrite loadAuthorized_idem.
  - rewrite load_after_save by exact Hwl. cbn.
    apply ensureAdmins_keeps. apply includes_elem_of.
    unfold Js.push. apply elem_of_app. right. now apply list_elem_of_singleton.
Qed.

Lemma authorizeGroup_then_listed (x : string) (am : t) :
  writable am = true →
  fst (isAuthorizedGroup x (snd (authorizeGroup x am))) = true.
Proof.
  intros Hw.
  assert (Hwl : writable (loadAuthorized am) = true)
    by now rewrite loadAuthorized_writable.
  unfold authorizeGroup, isAuthorizedGroup. cbn [fst].
  destruct (Js.includes x (groups (authorized (loadAuthorized am)))) eqn:E;
    cbn [negb snd].
  - now rewrite loadAuthorized_idem.
  - rewrite load_after_save by exact Hwl. cbn.
    apply includes_elem_of.
    unfold Js.push. apply elem_of_app. right. now apply list_elem_of_singleton.
Qed.

End AuthorizeRoundTrip.

(** X1. On a store that accepts writes, once [authorizeUser(u)] (or
    [authorizeGroup(g)]) has run, the identity is authorized, a private
    message of the user passes the gate, and authorizing it again answers
    [false]. *)
Theorem authorize_then_authorized
    (am : AuthManager.t) (x : string)
    (Hw : AuthManager.writable am = true) :
  fst (AuthManager.isAuthorizedUser x (snd (AuthManager.authorizeUser x am)))
    = true ∧
  fst (AuthManager.authorizeUser x (snd (AuthManager.authorizeUser x am)))
    = false ∧
  (∀ msg, Js.toString (from_id msg) = x → isGroupChat msg = false →
     fst (AuthManager.isAuthorized msg (snd (AuthManager.authorizeUser x am)))
       = true) ∧
  fst (AuthManager.isAuthorizedGroup x (snd (AuthManager.authorizeGroup x am)))
    = true ∧
  fst (AuthManager.authorizeGroup x (snd (AuthManager.authorizeGroup x am)))
    = false.
Proof.
  pose proof (authorizeUser_then_listed x am Hw) as Hu.
  pose proof (authorizeGroup_then_listed x am Hw) as Hg.
  repeat split.
  - exact Hu.
  - unfold AuthManager.isAuthorizedUser in Hu. cbn [fst] in Hu.
    unfold AuthManager.authorizeUser at 1. now rewrite Hu.
  - intros msg Hx Hpriv. unfold AuthManager.isAuthorized.
    destruct (AuthManager.isAdmin _ _); [reflexivity |].
    rewrite Hpriv, Hx. exact Hu.
  - exact Hg.
  - unfold AuthManager.isAuthorizedGroup in Hg. cbn [fst] in Hg.
    unfold AuthManager.authorizeGroup at 1. now rewrite Hg.
Qed.

Lemma authorize_then_authorized_witness :
  fst (AuthManager.isAuthorizedUser "9" demoAuth) = false ∧
  fst (AuthManager.isAuthorizedUser "9"
         (snd (AuthManager.authorizeUser "9" demoAuth))) = true.
Proof.
  split; [reflexivity |].
  exact (proj1 (authorize_then_authorized demoAuth "9" eq_refl)).
Defined.

(** *** No identity is ever listed twice *)

Section Distinct.
Import AuthManager.

Lemma idd_set (a : Authorized) (am : t) :
  NoDup (users a) → NoDup (groups a) → idsDistinct am →
  idsDistinct (set_authorized a am).
Proof. intros Hu Hg [_ Hf]. split; [now split | exact Hf]. Qed.

Lemma idd_save (am : t) : idsDistinct am → idsDistinct (saveAuthorized am).
Proof.
  intros [Hm Hf]. unfold saveAuthorized.
  destruct (writable am); [| split; [exact Hm | exact Hf]].
  split; [exact Hm |]. simpl. now intros d [= <-].
Qed.

Lemma idd_load (am : t) : idsDistinct am → idsDistinct (loadAuthorized am).
Proof.
  intros [Hm Hf]. unfold loadAuthorized.
  destruct (authFile am) as [d|] eqn:E;
    [| split; [exact Hm | rewrite E; exact Hf]].
  destruct (Hf d eq_refl) as [Hu Hg].
  apply idd_set; [now apply ensureAdmins_NoDup | exact Hg |].
  split; [exact Hm | rewrite E; exact Hf].
Qed.

Lemma idd_writeStatus (b : bool) (i : nat) (s : Status) (am : t) :
  idsDistinct am → idsDistinct (writeStatus b i s am).
Proof.
  intros H. unfold writeStatus. destruct b; [| exact H].
  destruct H as [[Hu Hg] Hf]. split; [now split | exact Hf].
Qed.

Lemma idd_authorizeUser (u : string) (am : t) :
  idsDistinct am → idsDistinct (snd (authorizeUser u am)).
Proof.
  intros H. unfold authorizeUser. pose proof (idd_load am H) as HL.
  destruct (Js.includes u _) eqn:E; cbn [snd negb]; [exact HL |].
  apply idd_save. destruct HL as [[Hu Hg] Hf].
  apply idd_set; [now apply NoDup_push | exact Hg | now split].
Qed.

Lemma idd_authorizeGroup (g : string) (am : t) :
  idsDistinct am → idsDistinct (snd (authorizeGroup g am)).
Proof.
  intros H. unfold authorizeGroup. pose proof (idd_load am H) as HL.
  destruct (Js.includes g _) eqn:E; cbn [snd negb]; [exact HL |].
  apply idd_save. destruct HL as [[Hu Hg] Hf].
  apply idd_set; [exact Hu | now apply NoDup_push | now split].
Qed.

Lemma idd_step (o : Op) (am : t) : idsDistinct am → idsDistinct (step o am).
Proof.
  intros H. pose proof (idd_load am H) as HL.
  destruct o; cbn [step].
  - exact HL.
  - now apply idd_authorizeUser.
  - unfold unauthorizeUser. destruct (isAdmin _ _); [exact HL |].
    destruct (Js.indexOf _ _); cbn [snd]; [| exact HL].
    apply idd_save. destruct HL as [[Hu Hg] Hf].
    apply idd_set; [now apply splice1_NoDup | exact Hg | now split].
  - now apply idd_authorizeGroup.
  - unfold unauthorizeGroup.
    destruct (Js.indexOf _ _); cbn [snd]; [| exact HL].
    apply idd_save. destruct HL as [[Hu Hg] Hf].
    apply idd_set; [exact Hu | now apply splice1_NoDup | now split].
  - unfold addAccessRequest.
    destruct (existsb _ _); cbn [snd negb]; [exact HL |].
    apply idd_save. destruct HL as [[Hu Hg] Hf].
    apply idd_set; [exact Hu | exact Hg | now split].
  - unfold approveRequest.
    destruct (_ && _); [| exact HL].
    destruct (_ !! _) as [r|]; cbn [snd]; [| exact HL].
    apply idd_save. apply idd_writeStatus.
    destruct (type r); [now apply idd_authorizeUser | now apply idd_authorizeGroup].
  - unfold rejectRequest.
    destruct (_ && _); [| exact HL].
    destruct (_ !! _) as [r|]; cbn [snd]; [| exact HL].
    apply idd_save. apply idd_writeStatus. exact HL.
  - unfold clearPendingRequests. apply idd_save.
    destruct HL as [[Hu Hg] Hf]. apply idd_set; [exact Hu | exact Hg | now split].
  - unfold importAuthorizedList. apply idd_save.
    destruct HL as [[Hu Hg] Hf].
    apply idd_set; [| | now split]; cbn; rewrite pushNew_ensureAdmins;
      now apply ensureAdmins_NoDup.
  - destruct H as [Hm Hf]. split; [exact Hm | exact Hf].
  - destruct H as [Hm Hf]. split; [exact Hm |]. simpl. discriminate.
Qed.

End Distinct.

(** X2. No operation of the manager, and no fault of the file under it,
    ever lists an identity twice among the authorized users or groups:
    every append is guarded by [includes], so a manager that starts
    without repetitions (in memory and on file) has none after any
    sequence of calls. *)
Theorem ids_stay_distinct (ops : list AuthManager.Op) (am : AuthManager.t)
    (H : idsDistinct am) :
  idsDistinct (AuthManager.run ops am).
Proof.
  revert am H. induction ops as [|o ops IH]; intros am H; simpl; [exact H |].
  apply IH, idd_step, H.
Qed.

Lemma ids_stay_distinct_witness :
  idsDistinct
    (AuthManager.run
       [AuthManager.OpAuthorizeUser "7"; AuthManager.OpAuthorizeUser "8";
        AuthManager.OpImportAuthorizedList ["8"; "9"; "9"] ["-500"];
        AuthManager.OpUnauthorizeUser "7"]
       demoAuth).
Proof.
  apply ids_stay_distinct. unfold idsDistinct, demoAuth. simpl.
  split; [split; apply NoDup_nil_2 |].
  intros d [= <-]. simpl. split; apply NoDup_singleton.
Defined.

Section Removal.
Import AuthManager.

Lemma reload_after_update (a : Authorized) (am : t) :
  writable am = true →
  authorized (loadAuthorized (saveAuthorized (set_authorized a am)))
    = set_users (ensureAdmins (adminIds am) (users a)) a.
Proof. intros Hw. now rewrite load_after_save. Qed.

Lemma includes_indexOf (x : string) (l : list string) :
  Js.includes x l = true → ∃ i, Js.indexOf x l = Some i.
Proof.
  intros H. destruct (Js.indexOf x l) as [i|] eqn:E; [now exists i |].
  apply indexOf_None in E. congruence.
Qed.

Lemma isAdmin_save (a : string) (am : t) :
  isAdmin a (saveAuthorized am) = isAdmin a am.
Proof. unfold isAdmin, saveAuthorized. now destruct (writable am). Qed.

End Removal.

(** X3. On a store that accepts writes and lists nobody twice,
    [unauthorizeUser(u)] of an authorized identity that is no admin answers
    [true]; afterwards [u] is no longer an authorized user and a private
    message of [u] is turned away, while every other identity that is no
    admin, and every group, is authorized exactly as before. *)
Theorem unauthorize_removes_exactly (am : AuthManager.t) (x : string)
    (Hd : idsDistinct am)
    (Hw : AuthManager.writable am = true)
    (Hna : AuthManager.isAdmin x am = false)
    (Hin : fst (AuthManager.isAuthorizedUser x am) = true) :
  let am' := snd (AuthManager.unauthorizeUser x am) in
  fst (AuthManager.unauthorizeUser x am) = true ∧
  fst (AuthManager.isAuthorizedUser x am') = false ∧
  (∀ msg, Js.toString (from_id msg) = x → isGroupChat msg = false →
     fst (AuthManager.isAuthorized msg am') = false) ∧
  (∀ v, v ≠ x → AuthManager.isAdmin v am = false →
     fst (AuthManager.isAuthorizedUser v am')
       = fst (AuthManager.isAuthorizedUser v am)) ∧
  (∀ g, fst (AuthManager.isAuthorizedGroup g am')
          = fst (AuthManager.isAuthorizedGroup g am)).
Proof.
  intros am'. subst am'.
  unfold AuthManager.isAuthorizedUser in Hin. cbn [fst] in Hin.
  destruct (includes_indexOf _ _ Hin) as [i Hi].
  pose proof (idd_load am Hd) as [[HU HG] _].
  assert (Hwl : AuthManager.writable (AuthManager.loadAuthorized am) = true)
    by now rewrite loadAuthorized_writable.
  assert (Hafter : AuthManager.unauthorizeUser x am =
    (true, AuthManager.saveAuthorized
             (AuthManager.set_authorized
                (AuthManager.set_users
                   (Js.splice1 i (AuthManager.users (AuthManager.authorized
                                    (AuthManager.loadAuthorized am))))
                   (AuthManager.authorized (AuthManager.loadAuthorized am)))
                (AuthManager.loadAuthorized am)))).
  { unfold AuthManager.unauthorizeUser.
    rewrite isAdmin_load, Hna, Hi. reflexivity. }
  rewrite Hafter. cbn [fst snd].
  assert (Hx : fst (AuthManager.isAuthorizedUser x
      (AuthManager.saveAuthorized
         (AuthManager.set_authorized
            (AuthManager.set_users
               (Js.splice1 i (AuthManager.users (AuthManager.authorized
                                (AuthManager.loadAuthorized am))))
               (AuthManager.authorized (AuthManager.loadAuthorized am)))
            (AuthManager.loadAuthorized am)))) = false).
  { unfold AuthManager.isAuthorizedUser. cbn [fst].
    rewrite reload_after_update by exact Hwl. cbn [AuthManager.users AuthManager.set_users].
    rewrite ensureAdmins_other
      by (rewrite loadAuthorized_admins; exact Hna).
    now apply splice1_removes. }
  split; [reflexivity |]. split; [exact Hx |]. split; [| split].
  - intros msg Hm Hpriv. unfold AuthManager.isAuthorized.
    rewrite Hm, Hpriv.
    replace (AuthManager.isAdmin x _) with false; [exact Hx |].
    symmetry. rewrite isAdmin_save.
    unfold AuthManager.isAdmin in *. cbn. rewrite loadAuthorized_admins.
    exact Hna.
  - intros v Hv Hva. unfold AuthManager.isAuthorizedUser. cbn [fst].
    rewrite reload_after_update by exact Hwl. cbn [AuthManager.users AuthManager.set_users].
    rewrite ensureAdmins_other
      by (rewrite loadAuthorized_admins; exact Hva).
    now apply (splice1_keeps x).
  - intros g. unfold AuthManager.isAuthorizedGroup. cbn [fst].
    rewrite reload_after_update by exact Hwl. reflexivity.
Qed.

Lemma unauthorize_removes_exactly_witness :
  fst (AuthManager.isAuthorizedUser "7" demoAuth) = true ∧
  fst (AuthManager.isAuthorizedUser "7"
         (snd (AuthManager.unauthorizeUser "7" demoAuth))) = false.
Proof.
  split; [reflexivity |].
  refine (proj1 (proj2 (unauthorize_removes_exactly demoAuth "7" _ eq_refl
                          eq_refl eq_refl))).
  unfold idsDistinct, demoAuth. simpl.
  split; [split; apply NoDup_nil_2 |].
  intros d [= <-]. simpl. split; apply NoDup_singleton.
Defined.

(** X4. [unauthorizeGroup(g)] has no admin guard: on a store that accepts
    writes and lists no group twice, an authorized group is removed, and
    afterwards a message in that group passes the gate exactly when its
    sender is an admin. *)
Theorem unauthorize_group_leaves_admins_only (am : AuthManager.t) (g : string)
    (Hd : idsDistinct am)
    (Hw : AuthManager.writable am = true)
    (Hin : fst (AuthManager.isAuthorizedGroup g am) = true) :
  let am' := snd (AuthManager.unauthorizeGroup g am) in
  fst (AuthManager.unauthorizeGroup g am) = true ∧
  fst (AuthManager.isAuthorizedGroup g am') = false ∧
  (∀ msg, Js.toString (chat_id msg) = g → isGroupChat msg = true →
     fst (AuthManager.isAuthorized msg am')
       = AuthManager.isAdmin (Js.toString (from_id msg)) am) ∧
  (∀ h, h ≠ g →
     fst (AuthManager.isAuthorizedGroup h am')
       = fst (AuthManager.isAuthorizedGroup h am)).
Proof.
  intros am'. subst am'.
  unfold AuthManager.isAuthorizedGroup in Hin. cbn [fst] in Hin.
  destruct (includes_indexOf _ _ Hin) as [i Hi].
  pose proof (idd_load am Hd) as [[HU HG] _].
  assert (Hwl : AuthManager.writable (AuthManager.loadAuthorized am) = true)
    by now rewrite loadAuthorized_writable.
  unfold AuthManager.unauthorizeGroup. rewrite Hi. cbn [fst snd].
  assert (Hx : fst (AuthManager.isAuthorizedGroup g
      (AuthManager.saveAuthorized
         (AuthManager.set_authorized
            (AuthManager.set_groups
               (Js.splice1 i (AuthManager.groups (AuthManager.authorized
                                (AuthManager.loadAuthorized am))))
               (AuthManager.authorized (AuthManager.loadAuthorized am)))
            (AuthManager.loadAuthorized am)))) = false).
  { unfold AuthManager.isAuthorizedGroup. cbn [fst].
    rewrite reload_after_update by exact Hwl.
    cbn [AuthManager.groups AuthManager.set_groups AuthManager.set_users].
    now apply splice1_removes. }
  split; [reflexivity |]. split; [exact Hx |]. split.
  - intros msg Hm Hgrp. unfold AuthManager.isAuthorized.
    rewrite Hm, Hgrp.
    replace (AuthManager.isAdmin (Js.toString (from_id msg)) _)
      with (AuthManager.isAdmin (Js.toString (from_id msg)) am).
    + destruct (AuthManager.isAdmin _ am); [reflexivity | exact Hx].
    + rewrite isAdmin_save. unfold AuthManager.isAdmin. cbn.
      now rewrite loadAuthorized_admins.
  - intros h Hh. unfold AuthManager.isAuthorizedGroup. cbn [fst].
    rewrite reload_after_update by exact Hwl.
    cbn [AuthManager.groups AuthManager.set_groups AuthManager.set_users].
    now apply (splice1_keeps g).
Qed.

Lemma unauthorize_group_leaves_admins_only_witness :
  fst (AuthManager.isAuthorized (demoGroupMsg 7) demoAuth) = true ∧
  fst (AuthManager.isAuthorized (demoGroupMsg 7)
         (snd (AuthManager.unauthorizeGroup "-500" demoAuth))) = false ∧
  fst (AuthManager.isAuthorized (demoGroupMsg 100)
         (snd (AuthManager.unauthorizeGroup "-500" demoAuth))) = true.
Proof.
  assert (Hd : idsDistinct demoAuth).
  { unfold idsDistinct, demoAuth. simpl.
    split; [split; apply NoDup_nil_2 |].
    intros d [= <-]. simpl. split; apply NoDup_singleton. }
  destruct (unauthorize_group_leaves_admins_only demoAuth "-500" Hd eq_refl
              eq_refl) as (_ & _ & Hgate & _).
  split; [reflexivity |]. split.
  - now rewrite (Hgate (demoGroupMsg 7) eq_refl eq_refl).
  - now rewrite (Hgate (demoGroupMsg 100) eq_refl eq_refl).
Defined.

(** *** Decisions on access requests *)

Section DecisionFacts.
Import AuthManager.

Lemma loadAuthorized_readable (d : Authorized) (am : t) :
  authFile am = Some d →
  authorized (loadAuthorized am)
    = set_users (ensureAdmins (adminIds am) (users d)) d.
Proof. intros E. unfold loadAuthorized. now rewrite E. Qed.

Lemma saveAuthorized_file (am : t) :
  writable am = true → authFile (saveAuthorized am) = Some (authorized am).
Proof. intros Hw. unfold saveAuthorized. now rewrite Hw. Qed.

Lemma saveAuthorized_writable (am : t) :
  writable (saveAuthorized am) = writable am.
Proof.
  unfold saveAuthorized. destruct (writable am) eqn:E; [reflexivity | exact E].
Qed.

Lemma saveAuthorized_admins' (am : t) :
  adminIds (saveAuthorized am) = adminIds am.
Proof. unfold saveAuthorized. now destruct (writable am). Qed.

Lemma saveAuthorized_authorized (am : t) :
  authorized (saveAuthorized am) = authorized am.
Proof. unfold saveAuthorized. now destruct (writable am). Qed.

Lemma authorizeUser_requests (u : string) (am : t) :
  pendingRequests (authorized (snd (authorizeUser u am)))
    = pendingRequests (authorized (loadAuthorized am)).
Proof.
  unfold authorizeUser. destruct (negb _); cbn [snd]; [| reflexivity].
  now rewrite saveAuthorized_authorized.
Qed.

Lemma authorizeGroup_requests (g : string) (am : t) :
  pendingRequests (authorized (snd (authorizeGroup g am)))
    = pendingRequests (authorized (loadAuthorized am)).
Proof.
  unfold authorizeGroup. destruct (negb _); cbn [snd]; [| reflexivity].
  now rewrite saveAuthorized_authorized.
Qed.

Lemma authorizeUser_writable (u : string) (am : t) :
  writable (snd (authorizeUser u am)) = writable am.
Proof.
  unfold authorizeUser. destruct (negb _); cbn [snd];
    rewrite ?saveAuthorized_writable; unfold set_authorized;
    cbn [writable]; apply loadAuthorized_writable.
Qed.

Lemma authorizeGroup_writable (g : string) (am : t) :
  writable (snd (authorizeGroup g am)) = writable am.
Proof.
  unfold authorizeGroup. destruct (negb _); cbn [snd];
    rewrite ?saveAuthorized_writable; unfold set_authorized;
    cbn [writable]; apply loadAuthorized_writable.
Qed.

Lemma authorizeUser_users (u : string) (am : t) :
  Js.includes u (users (authorized (snd (authorizeUser u am)))) = true.
Proof.
  unfold authorizeUser.
  destruct (Js.includes u (users (authorized (loadAuthorized am)))) eqn:E;
    cbn [negb snd]; [exact E |].
  rewrite saveAuthorized_authorized. cbn.
  apply includes_elem_of. unfold Js.push. apply elem_of_app. right.
  now apply list_elem_of_singleton.
Qed.

Lemma authorizeGroup_groups (g : string) (am : t) :
  Js.includes g (groups (authorized (snd (authorizeGroup g am)))) = true.
Proof.
  unfold authorizeGroup.
  destruct (Js.includes g (groups (authorized (loadAuthorized am)))) eqn:E;
    cbn [negb snd]; [exact E |].
  rewrite saveAuthorized_authorized. cbn.
  apply includes_elem_of. unfold Js.push. apply elem_of_app. right.
  now apply list_elem_of_singleton.
Qed.

Lemma in_range (i : nat) {A} (l : list A) (r : A) :
  l !! i = Some r →
  (0 <=? Z.of_nat i) && (Z.of_nat i <? Z.of_nat (length l)) = true.
Proof.
  intros H. apply lookup_lt_Some in H.
  apply andb_true_iff. split; [apply Z.leb_le | apply Z.ltb_lt]; lia.
Qed.

Lemma filter_pending_idem (l : list AccessRequest) :
  filter (fun r => isPending r = true) (filter (fun r => isPending r = true) l)
    = filter (fun r => isPending r = true) l.
Proof.
  induction l as [|r l IH]; [reflexivity |].
  rewrite filter_cons. case_decide as HP; [| exact IH].
  rewrite filter_cons. rewrite decide_True by exact HP. now rewrite IH.
Qed.

End DecisionFacts.

(** X5. While the file can be read and written, [approveRequest(i)] answers
    the request with status approved and the requester (the user, or the
    group for a group request) is authorized afterwards; but the nested
    [authorizeUser]/[authorizeGroup] has re-read the file into a fresh
    object, so the status is written to an object that is no longer
    [this.authorized]: the stored requests are what they were, and a
    request that was pending is still listed by [getPendingRequests]. *)
Theorem approve_grants_but_request_stays_stored
    (am : AuthManager.t) (d : AuthManager.Authorized) (i : nat)
    (r : AuthManager.AccessRequest)
    (Hf : AuthManager.authFile am = Some d)
    (Hw : AuthManager.writable am = true)
    (Hi : AuthManager.pendingRequests d !! i = Some r) :
  let res := AuthManager.approveRequest (Z.of_nat i) am in
  fst res = Some (AuthManager.set_status AuthManager.Approved r) ∧
  (AuthManager.type r = AuthManager.KUser →
     fst (AuthManager.isAuthorizedUser (AuthManager.userId r) (snd res)) = true) ∧
  (AuthManager.type r = AuthManager.KGroup →
     fst (AuthManager.isAuthorizedGroup (AuthManager.chatId r) (snd res)) = true) ∧
  AuthManager.pendingRequests <$> AuthManager.authFile (snd res)
    = Some (AuthManager.pendingRequests d) ∧
  fst (AuthManager.getPendingRequests (snd res))
    = fst (AuthManager.getPendingRequests am).
Proof.
  intros res.
  pose proof (loadAuthorized_readable d am Hf) as HL.
  assert (HLr : AuthManager.pendingRequests
                  (AuthManager.authorized (AuthManager.loadAuthorized am))
                = AuthManager.pendingRequests d) by now rewrite HL.
  assert (Hwl : AuthManager.writable (AuthManager.loadAuthorized am) = true)
    by now rewrite loadAuthorized_writable.
  assert (Hfl : AuthManager.authFile (AuthManager.loadAuthorized am) = Some d)
    by now rewrite loadAuthorized_file.
  set (am1 := match AuthManager.type r with
              | AuthManager.KGroup =>
                  snd (AuthManager.authorizeGroup (AuthManager.chatId r)
                         (AuthManager.loadAuthorized am))
              | AuthManager.KUser =>
                  snd (AuthManager.authorizeUser (AuthManager.userId r)
                         (AuthManager.loadAuthorized am))
              end).
  assert (Hres : res = (Some (AuthManager.set_status AuthManager.Approved r),
                        AuthManager.saveAuthorized am1)).
  { subst res am1. unfold AuthManager.approveRequest.
    rewrite HLr, (in_range i _ r Hi), Nat2Z.id, Hi, Hfl. reflexivity. }
  assert (Hw1 : AuthManager.writable am1 = true).
  { subst am1. destruct (AuthManager.type r);
      [rewrite authorizeUser_writable | rewrite authorizeGroup_writable];
      exact Hwl. }
  assert (Hr1 : AuthManager.pendingRequests (AuthManager.authorized am1)
                = AuthManager.pendingRequests d).
  { subst am1. destruct (AuthManager.type r);
      [rewrite authorizeUser_requests | rewrite authorizeGroup_requests];
      now rewrite loadAuthorized_idem. }
  rewrite Hres. cbn [fst snd].
  split; [reflexivity |]. split; [| split; [| split]].
  - intros Hk. unfold AuthManager.isAuthorizedUser. cbn [fst].
    rewrite load_after_save by exact Hw1. cbn.
    apply ensureAdmins_keeps. subst am1. rewrite Hk.
    apply authorizeUser_users.
  - intros Hk. unfold AuthManager.isAuthorizedGroup. cbn [fst].
    rewrite load_after_save by exact Hw1. cbn.
    subst am1. rewrite Hk. apply authorizeGroup_groups.
  - rewrite saveAuthorized_file by exact Hw1. cbn. now rewrite Hr1.
  - unfold AuthManager.getPendingRequests. cbn [fst].
    rewrite load_after_save by exact Hw1. cbn. now rewrite Hr1, HLr.
Qed.

Lemma approve_grants_but_request_stays_stored_witness :
  let am := AuthManager.saveAuthorized demoRequests in
  let res := AuthManager.approveRequest 0 am in
  fst (AuthManager.isAuthorizedUser "7" am) = false ∧
  fst (AuthManager.isAuthorizedUser "7" (snd res)) = true ∧
  length (fst (AuthManager.getPendingRequests (snd res))) = 1%nat.
Proof.
  intros am res.
  destruct (approve_grants_but_request_stays_stored am
              (AuthManager.authorized am) 0
              (AuthManager.mkRequest "7" "Ann" "7" "Private Chat"
                 AuthManager.KUser "2024-01-01T00:00:00.000Z"
                 AuthManager.Pending)
              eq_refl eq_refl eq_refl) as (_ & Hu & _ & _ & Hp).
  split; [reflexivity |]. split; [exact (Hu eq_refl) |].
  change (AuthManager.approveRequest (Z.of_nat 0) am) with res in Hp.
  rewrite Hp. reflexivity.
Defined.

(** X6. On a store that accepts writes, [rejectRequest(i)] with [i] in
    range answers the request with status rejected and stores exactly that
    change: a re-read finds request [i] rejected, every other request as it
    was, and the authorized users and groups as a re-read found them
    before. *)
Theorem reject_is_stored (am : AuthManager.t) (i : nat)
    (r : AuthManager.AccessRequest)
    (Hw : AuthManager.writable am = true)
    (Hi : AuthManager.pendingRequests
            (AuthManager.authorized (AuthManager.loadAuthorized am)) !! i
          = Some r) :
  let res := AuthManager.rejectRequest (Z.of_nat i) am in
  let before := AuthManager.authorized (AuthManager.loadAuthorized am) in
  let after := AuthManager.authorized (AuthManager.loadAuthorized (snd res)) in
  fst res = Some (AuthManager.set_status AuthManager.Rejected r) ∧
  AuthManager.pendingRequests after !! i
    = Some (AuthManager.set_status AuthManager.Rejected r) ∧
  (∀ j, j ≠ i → AuthManager.pendingRequests after !! j
                = AuthManager.pendingRequests before !! j) ∧
  (∀ u, AuthManager.isAdmin u am = false →
        Js.includes u (AuthManager.users after)
        = Js.includes u (AuthManager.users before)) ∧
  AuthManager.groups after = AuthManager.groups before.
Proof.
  intros res before after.
  assert (Hwl : AuthManager.writable (AuthManager.loadAuthorized am) = true)
    by now rewrite loadAuthorized_writable.
  assert (Hres : res =
    (Some (AuthManager.set_status AuthManager.Rejected r),
     AuthManager.saveAuthorized
       (AuthManager.writeStatus true i AuthManager.Rejected
          (AuthManager.loadAuthorized am)))).
  { subst res. unfold AuthManager.rejectRequest.
    rewrite (in_range i _ r Hi), Nat2Z.id, Hi. reflexivity. }
  subst after. rewrite Hres. cbn [fst snd].
  rewrite load_after_save by exact Hwl.
  unfold AuthManager.writeStatus, AuthManager.set_authorized.
  cbn [AuthManager.authorized AuthManager.adminIds AuthManager.set_users
       AuthManager.set_pendingRequests AuthManager.users AuthManager.groups
       AuthManager.pendingRequests].
  fold before. fold before in Hi.
  split; [reflexivity |]. split; [| split; [| split]].
  - rewrite list_lookup_alter, decide_True by reflexivity. now rewrite Hi.
  - intros j Hj. rewrite list_lookup_alter.
    now rewrite decide_False by congruence.
  - intros u Hu. rewrite loadAuthorized_admins.
    now rewrite ensureAdmins_other.
  - reflexivity.
Qed.

Lemma reject_is_stored_witness :
  AuthManager.status <$>
    AuthManager.pendingRequests
      (AuthManager.authorized
         (AuthManager.loadAuthorized
            (snd (AuthManager.rejectRequest 0 demoRequests)))) !! 0%nat
  = Some AuthManager.Rejected.
Proof.
  destruct (reject_is_stored demoRequests 0
              (AuthManager.mkRequest "7" "Ann" "7" "Private Chat"
                 AuthManager.KUser "2024-01-01T00:00:00.000Z"
                 AuthManager.Pending)
              eq_refl eq_refl) as (_ & H & _).
  change (Z.of_nat 0) with 0 in H. rewrite H. reflexivity.
Defined.

(** X7. On a store that accepts writes, [clearPendingRequests] keeps
    exactly the requests that are still pending, in their order: what a
    re-read finds stored afterwards is what [getPendingRequests] answered
    before and still answers, and [getStats] then counts as many pending
    requests as requests. *)
Theorem clear_keeps_exactly_the_pending (am : AuthManager.t)
    (Hw : AuthManager.writable am = true) :
  let am' := AuthManager.clearPendingRequests am in
  AuthManager.pendingRequests
    (AuthManager.authorized (AuthManager.loadAuthorized am'))
    = fst (AuthManager.getPendingRequests am) ∧
  fst (AuthManager.getPendingRequests am')
    = fst (AuthManager.getPendingRequests am) ∧
  AuthReports.pendingRequests (fst (AuthReports.getStats am'))
    = AuthReports.totalRequests (fst (AuthReports.getStats am')).
Proof.
  intros am'. subst am'.
  assert (Hwl : AuthManager.writable (AuthManager.loadAuthorized am) = true)
    by now rewrite loadAuthorized_writable.
  unfold AuthManager.clearPendingRequests, AuthManager.getPendingRequests,
    AuthReports.getStats.
  cbn [fst AuthReports.pendingRequests AuthReports.totalRequests].
  rewrite reload_after_update by exact Hwl.
  cbn [AuthManager.pendingRequests AuthManager.set_pendingRequests
       AuthManager.set_users].
  rewrite filter_pending_idem. repeat split; reflexivity.
Qed.

Lemma clear_keeps_exactly_the_pending_witness :
  let am := snd (AuthManager.rejectRequest 0 demoRequests) in
  AuthReports.totalRequests (fst (AuthReports.getStats am)) = 1%nat ∧
  AuthReports.totalRequests
    (fst (AuthReports.getStats (AuthManager.clearPendingRequests am)))
  = 0%nat.
Proof.
  intros am. split; [reflexivity |].
  destruct (clear_keeps_exactly_the_pending am eq_refl) as (_ & _ & H).
  rewrite <- H. reflexivity.
Defined.

Section RenewFacts.
Import AuthManager.

Lemma existsb_samePair_false (u c : string) (l : list AccessRequest) :
  (∀ r, r ∈ l → pairOf r ≠ (u, c)) → existsb (samePair u c) l = false.
Proof.
  intros H. destruct (existsb (samePair u c) l) eqn:E; [| reflexivity].
  apply existsb_samePair in E.
  apply list_elem_of_fmap in E as (r & Hr & Hin).
  exfalso. now apply (H r Hin).
Qed.

End RenewFacts.

(** X8. Only pending requests block a new one after a clean-up: on a store
    that accepts writes, when every stored request of the pair
    (requester, chat) has been decided, [addAccessRequest] for that pair
    succeeds right after [clearPendingRequests]. *)
Theorem decided_pair_can_request_again_after_clear
    (u n c ct : string) (k : AuthManager.Kind) (now : string)
    (am : AuthManager.t)
    (Hw : AuthManager.writable am = true)
    (Hdecided : ∀ r,
       r ∈ AuthManager.pendingRequests
             (AuthManager.authorized (AuthManager.loadAuthorized am)) →
       AuthManager.pairOf r = (u, c) → AuthManager.isPending r = false) :
  fst (AuthManager.addAccessRequest u n c ct k now
         (AuthManager.clearPendingRequests am))
  = Some (AuthManager.mkRequest u n c ct k now AuthManager.Pending).
Proof.
  assert (Hwl : AuthManager.writable (AuthManager.loadAuthorized am) = true)
    by now rewrite loadAuthorized_writable.
  unfold AuthManager.addAccessRequest, AuthManager.clearPendingRequests.
  rewrite reload_after_update by exact Hwl.
  cbn [AuthManager.pendingRequests AuthManager.set_pendingRequests
       AuthManager.set_users].
  rewrite existsb_samePair_false; [reflexivity |].
  intros r Hr Hp. apply list_elem_of_filter in Hr as [Hpend Hr].
  rewrite (Hdecided r Hr Hp) in Hpend. discriminate.
Qed.

Lemma decided_pair_can_request_again_after_clear_witness :
  let am := snd (AuthManager.rejectRequest 0 demoRequests) in
  fst (AuthManager.addAccessRequest "7" "Ann" "7" "Private Chat"
         AuthManager.KUser "2024-02-01T00:00:00.000Z" am) = None ∧
  fst (AuthManager.addAccessRequest "7" "Ann" "7" "Private Chat"
         AuthManager.KUser "2024-02-01T00:00:00.000Z"
         (AuthManager.clearPendingRequests am)) ≠ None.
Proof.
  intros am. split; [reflexivity |].
  rewrite (decided_pair_can_request_again_after_clear "7" "Ann" "7"
             "Private Chat" AuthManager.KUser "2024-02-01T00:00:00.000Z" am
             eq_refl); [discriminate |].
  intros r Hr _. vm_compute in Hr.
  apply list_elem_of_singleton in Hr. subst r. reflexivity.
Defined.

(** X9. On a store that accepts writes, after [importAuthorizedList(us, gs)]
    every imported user and group is authorized, and whoever was
    authorized before still is. *)
Theorem import_authorizes_all (us gs : list string) (am : AuthManager.t)
    (Hw : AuthManager.writable am = true) :
  let am' := AuthManager.importAuthorizedList us gs am in
  (∀ u, (u ∈ us ∨ fst (AuthManager.isAuthorizedUser u am) = true) →
        fst (AuthManager.isAuthorizedUser u am') = true) ∧
  (∀ g, (g ∈ gs ∨ fst (AuthManager.isAuthorizedGroup g am) = true) →
        fst (AuthManager.isAuthorizedGroup g am') = true).
Proof.
  intros am'. subst am'.
  assert (Hwl : AuthManager.writable (AuthManager.loadAuthorized am) = true)
    by now rewrite loadAuthorized_writable.
  unfold AuthManager.importAuthorizedList, AuthManager.isAuthorizedUser,
    AuthManager.isAuthorizedGroup.
  cbn [fst]. rewrite reload_after_update by exact Hwl.
  cbn [AuthManager.users AuthManager.groups AuthManager.set_users].
  split.
  - intros u [Hu | Hu]; apply ensureAdmins_keeps.
    + rewrite pushNew_ensureAdmins.
      apply ensureAdmins_admin. now apply includes_elem_of.
    + rewrite pushNew_ensureAdmins. now apply ensureAdmins_keeps.
  - intros g [Hg | Hg]; rewrite pushNew_ensureAdmins.
    + apply ensureAdmins_admin. now apply includes_elem_of.
    + now apply ensureAdmins_keeps.
Qed.

Lemma import_authorizes_all_witness :
  fst (AuthManager.isAuthorizedUser "9"
         (AuthManager.importAuthorizedList ["8"; "9"] ["-600"] demoAuth))
  = true.
Proof.
  refine (proj1 (import_authorizes_all ["8"; "9"] ["-600"] demoAuth eq_refl)
            "9" (or_introl _)).
  apply list_elem_of_In. vm_compute. right. left. reflexivity.
Defined.

(** ** The authorization commands *)

Section AccessFacts.
Import Access.

Lemma send_auth (chat : string) (n : Notice) (st : t) :
  auth (snd (send chat n st)) = auth st.
Proof. unfold send. destruct (sendOutcomes st) as [|[] ?]; reflexivity. Qed.

Lemma sendOrThrow_auth (chat : string) (n : Notice) (st : t) :
  auth (snd (sendOrThrow chat n st)) = auth st.
Proof.
  unfold sendOrThrow, send. destruct (sendOutcomes st) as [|[] ?]; reflexivity.
Qed.

Lemma sendOrLog_auth (chat : string) (n : Notice) (st : t) :
  auth (sendOrLog chat n st) = auth st.
Proof.
  unfold sendOrLog, send. destruct (sendOutcomes st) as [|[] ?]; reflexivity.
Qed.

(** Every message is accounted for: delivered, or logged as failed. *)
Lemma sendOrLog_accounted (chat : string) (n : Notice) (st : t) :
  (length (outbox (sendOrLog chat n st)) + failures (sendOrLog chat n st)
   = S (length (outbox st) + failures st))%nat.
Proof.
  unfold sendOrLog, send. destruct (sendOutcomes st) as [|[] ?]; simpl;
    rewrite ?length_app; simpl; lia.
Qed.

Lemma notify_all_auth (n : Notice) (chats : list string) (st : t) :
  auth (fold_left (fun acc c => sendOrLog c n acc) chats st) = auth st.
Proof.
  revert st. induction chats as [|c chats IH]; intros st; simpl; [reflexivity |].
  now rewrite IH, sendOrLog_auth.
Qed.

Lemma notify_all_accounted (n : Notice) (chats : list string) (st : t) :
  let st' := fold_left (fun acc c => sendOrLog c n acc) chats st in
  (length (outbox st') + failures st'
   = length (outbox st) + failures st + length chats)%nat.
Proof.
  revert st. induction chats as [|c chats IH]; intros st; simpl; [lia |].
  rewrite IH, sendOrLog_accounted. lia.
Qed.

Lemma sendOrThrow_delivered (chat : string) (n : Notice) (st : t) :
  head (sendOutcomes st) ≠ Some false →
  sendOrThrow chat n st
  = (Bot.Ok tt, mk (auth st) (tl (sendOutcomes st))
                   (outbox st ++ [(chat, n)]) (failures st)).
Proof.
  intros H. unfold sendOrThrow, send.
  destruct (sendOutcomes st) as [|[] ?]; simpl in *; congruence.
Qed.

(** A target written [group:<id>] names the group [<id>]. *)
Lemma parseTarget_group (target : string) :
  parseTarget ("group:" ++ target) = (AuthManager.KGroup, target).
Proof.
  unfold parseTarget. destruct target; reflexivity.
Qed.

End AccessFacts.

(** X10. [/authorize] and [/unauthorize] from a sender who is no admin
    change nothing in the authorization state, whatever the parameter, and
    send nothing but the refusal (if it can be delivered). *)
Theorem admin_commands_refuse_others (msg : Msg) (param : string)
    (st : Access.t)
    (Hna : AuthManager.isAdmin (Js.toString (from_id msg)) (Access.auth st)
           = false) :
  let refused (st' : Access.t) :=
    Access.auth st' = Access.auth st ∧
    Access.failures st' = Access.failures st ∧
    (Access.outbox st' = Access.outbox st ∨
     Access.outbox st'
     = (Access.outbox st
        ++ [(Js.toString (chat_id msg), Access.AdminOnly)])%list) in
  refused (snd (Access.handleAuthorize msg param st)) ∧
  refused (snd (Access.handleUnauthorize msg param st)).
Proof.
  intros refused. subst refused.
  unfold Access.handleAuthorize, Access.handleUnauthorize. rewrite Hna.
  cbn [negb]. unfold Access.sendOrThrow, Access.send.
  destruct (Access.sendOutcomes st) as [|[] ?]; cbn; auto.
Qed.

Lemma admin_commands_refuse_others_witness :
  let st := Access.mk demoAuth [] [] 0 in
  Access.auth (snd (Access.handleAuthorize (demoGroupMsg 7) "9" st))
  = Access.auth st.
Proof.
  intros st.
  exact (proj1 (proj1 (admin_commands_refuse_others (demoGroupMsg 7) "9" st
                         eq_refl))).
Defined.

(** X11. When an admin sends [/authorize u] (or [/authorize group:g]) and
    the store accepts writes, [u] is an authorized user (or [g] an
    authorized group) afterwards, whether or not the confirmation and the
    notice to the newly authorized chat could be delivered. *)
Theorem admin_authorize_command_grants (msg : Msg) (target : string)
    (st : Access.t)
    (Hadm : AuthManager.isAdmin (Js.toString (from_id msg)) (Access.auth st)
            = true)
    (Hw : AuthManager.writable (Access.auth st) = true) :
  (String.prefix "group:" target = false →
   fst (AuthManager.isAuthorizedUser target
          (Access.auth (snd (Access.handleAuthorize msg target st)))) = true) ∧
  fst (AuthManager.isAuthorizedGroup target
         (Access.auth (snd (Access.handleAuthorize msg ("group:" ++ target) st))))
  = true.
Proof.
  split.
  - intros Hp. unfold Access.handleAuthorize, Access.parseTarget.
    rewrite Hadm, Hp. cbn [negb].
    destruct (AuthManager.authorizeUser target (Access.auth st))
      as [success am] eqn:E.
    assert (Ham : fst (AuthManager.isAuthorizedUser target am) = true).
    { replace am with (snd (AuthManager.authorizeUser target (Access.auth st)))
        by now rewrite E.
      now apply authorizeUser_then_listed. }
    destruct success.
    + destruct (Access.sendOrThrow _ _ _) as [[[]|e] st1] eqn:E1; cbn [snd];
        pose proof (sendOrThrow_auth (Js.toString (chat_id msg))
                      (Access.Authorized AuthManager.KUser target)
                      (Access.set_auth am st)) as Ha;
        rewrite E1 in Ha; cbn in Ha.
      * now rewrite sendOrLog_auth, Ha.
      * now rewrite Ha.
    + now rewrite sendOrThrow_auth.
  - unfold Access.handleAuthorize.
    rewrite Hadm. cbn [negb]. fold (Access.parseTarget ("group:" ++ target)).
    rewrite parseTarget_group.
    destruct (AuthManager.authorizeGroup target (Access.auth st))
      as [success am] eqn:E.
    assert (Ham : fst (AuthManager.isAuthorizedGroup target am) = true).
    { replace am with (snd (AuthManager.authorizeGroup target (Access.auth st)))
        by now rewrite E.
      now apply authorizeGroup_then_listed. }
    destruct success.
    + destruct (Access.sendOrThrow _ _ _) as [[[]|e] st1] eqn:E1; cbn [snd];
        pose proof (sendOrThrow_auth (Js.toString (chat_id msg))
                      (Access.Authorized AuthManager.KGroup target)
                      (Access.set_auth am st)) as Ha;
        rewrite E1 in Ha; cbn in Ha.
      * now rewrite sendOrLog_auth, Ha.
      * now rewrite Ha.
    + now rewrite sendOrThrow_auth.
Qed.

Lemma admin_authorize_command_grants_witness :
  let st := Access.mk demoAuth [true; false] [] 0 in
  fst (AuthManager.isAuthorizedGroup "-700"
         (Access.auth (snd (Access.handleAuthorize (demoGroupMsg 100)
                              "group:-700" st)))) = true.
Proof.
  intros st.
  exact (proj2 (admin_authorize_command_grants (demoGroupMsg 100) "-700" st
                  eq_refl eq_refl)).
Defined.

Section RequestAccessFacts.
Import Access.

(** A refused sender is no admin, so the gate has re-read the file. *)
Lemma isAuthorized_refused (msg : Msg) (am : AuthManager.t) :
  fst (AuthManager.isAuthorized msg am) = false →
  snd (AuthManager.isAuthorized msg am) = AuthManager.loadAuthorized am.
Proof.
  unfold AuthManager.isAuthorized.
  destruct (AuthManager.isAdmin _ _); [discriminate |].
  destruct (isGroupChat msg); reflexivity.
Qed.

Lemma notify_all_extends (n : Notice) (chats : list string) (st : t) :
  ∃ rest, outbox (fold_left (fun acc c => sendOrLog c n acc) chats st)
          = (outbox st ++ rest)%list.
Proof.
  revert st. induction chats as [|c chats IH]; intros st; simpl.
  - exists []. now rewrite app_nil_r.
  - destruct (IH (sendOrLog c n st)) as [rest ->].
    unfold sendOrLog, send. destruct (sendOutcomes st) as [|[] ?]; simpl.
    + eexists. now rewrite <- app_assoc.
    + eexists. now rewrite <- app_assoc.
    + now exists rest.
Qed.

End RequestAccessFacts.

(** X12. [/request] from a sender the gate refuses, with no request of the
    pair stored yet, a store that accepts writes and the acknowledgement
    delivered: the handler completes; the acknowledgement is the first
    message it sends; every admin is tried once, each failed notification
    being logged instead of aborting the loop; and the request is stored,
    in memory and on file. *)
Theorem request_access_stores_and_notifies (now : string) (msg : Msg)
    (st : Access.t)
    (Hun : fst (AuthManager.isAuthorized msg (Access.auth st)) = false)
    (Hfree : (Js.toString (from_id msg), Js.toString (chat_id msg))
             ∉ AuthManager.pairOf <$>
                 AuthManager.pendingRequests
                   (AuthManager.authorized
                      (AuthManager.loadAuthorized (Access.auth st))))
    (Hw : AuthManager.writable (Access.auth st) = true)
    (Hsend : head (Access.sendOutcomes st) ≠ Some false) :
  let res := Access.handleRequestAccess now msg st in
  let kind := if isGroupChat msg then AuthManager.KGroup
              else AuthManager.KUser in
  fst res = Bot.Ok tt ∧
  (∃ rest, Access.outbox (snd res)
           = (Access.outbox st
              ++ (Js.toString (chat_id msg),
                  Access.RequestSubmitted kind (Js.toString (chat_id msg)))
                 :: rest)%list) ∧
  (length (Access.outbox (snd res)) + Access.failures (snd res)
   = length (Access.outbox st) + Access.failures st + 1
     + length (AuthManager.adminIds (Access.auth st)))%nat ∧
  occupied (Js.toString (from_id msg)) (Js.toString (chat_id msg))
           (Access.auth (snd res)).
Proof.
  intros res kind.
  assert (Hex : existsb
            (AuthManager.samePair (Js.toString (from_id msg))
               (Js.toString (chat_id msg)))
            (AuthManager.pendingRequests
               (AuthManager.authorized
                  (AuthManager.loadAuthorized (Access.auth st)))) = false).
  { destruct (existsb _ _) eqn:E; [| reflexivity].
    apply existsb_samePair in E. contradiction. }
  assert (Hwl : AuthManager.writable
                  (AuthManager.loadAuthorized (Access.auth st)) = true)
    by now rewrite loadAuthorized_writable.
  set (req := AuthManager.mkRequest (Js.toString (from_id msg))
                (Js.orElse (from_first_name msg)
                   (Js.orElse (from_username msg) "Unknown"))
                (Js.toString (chat_id msg))
                (Js.orElse (chat_title msg) "Private Chat")
                kind now AuthManager.Pending).
  set (am1 := AuthManager.saveAuthorized
                (AuthManager.set_authorized
                   (AuthManager.set_pendingRequests
                      (Js.push req
                         (AuthManager.pendingRequests
                            (AuthManager.authorized
                               (AuthManager.loadAuthorized (Access.auth st)))))
                      (AuthManager.authorized
                         (AuthManager.loadAuthorized (Access.auth st))))
                   (AuthManager.loadAuthorized (Access.auth st)))).
  set (note := Access.NewAccessRequest
                 (Js.orElse (from_first_name msg)
                    (Js.orElse (from_username msg) "Unknown"))
                 kind (Js.orElse (chat_title msg) "Private Chat")
                 (Js.toString (chat_id msg))).
  set (st1 := Access.mk am1 (tl (Access.sendOutcomes st))
                (Access.outbox st
                 ++ [(Js.toString (chat_id msg),
                      Access.RequestSubmitted kind
                        (Js.toString (chat_id msg)))])%list
                (Access.failures st)).
  assert (Hres : res =
            (Bot.Ok tt,
             fold_left (fun acc a => Access.sendOrLog a note acc)
                       (AuthManager.adminIds am1) st1)).
  { subst res. unfold Access.handleRequestAccess.
    pose proof (isAuthorized_refused msg _ Hun) as Hst.
    destruct (AuthManager.isAuthorized msg (Access.auth st)) as [ok am0].
    cbn [fst snd] in Hun, Hst. subst ok am0.
    cbn [Access.auth Access.set_auth].
    unfold AuthManager.addAccessRequest.
    rewrite loadAuthorized_idem, Hex. cbn [negb].
    fold kind. fold req. fold am1.
    rewrite sendOrThrow_delivered by exact Hsend.
    reflexivity. }
  rewrite Hres. cbn [fst snd].
  destruct (notify_all_extends note (AuthManager.adminIds am1) st1)
    as [rest Hrest].
  pose proof (notify_all_accounted note (AuthManager.adminIds am1) st1) as Hacc.
  cbn zeta in Hacc.
  split; [reflexivity |]. split; [| split].
  - exists rest. rewrite Hrest. subst st1. cbn [Access.outbox].
    now rewrite <- app_assoc.
  - rewrite Hacc. subst st1. cbn [Access.outbox Access.failures].
    rewrite length_app. cbn [length]. subst am1.
    rewrite saveAuthorized_admins'. unfold AuthManager.set_authorized.
    cbn [AuthManager.adminIds]. rewrite loadAuthorized_admins. lia.
  - rewrite notify_all_auth. subst st1. cbn [Access.auth]. subst am1.
    unfold occupied.
    rewrite saveAuthorized_authorized, saveAuthorized_file by exact Hwl.
    assert (Hin : (Js.toString (from_id msg), Js.toString (chat_id msg))
              ∈ AuthManager.pairOf <$>
                  Js.push req
                    (AuthManager.pendingRequests
                       (AuthManager.authorized
                          (AuthManager.loadAuthorized (Access.auth st))))).
    { unfold Js.push. rewrite fmap_app. apply elem_of_app. right.
      cbn. now apply list_elem_of_singleton. }
    split; [exact Hin |]. now intros d [= <-].
Qed.

Lemma request_access_stores_and_notifies_witness :
  let st := Access.mk (AuthManager.create ["100"] None true) [true; false] [] 0 in
  let msg := mkMsg 7 (Some "Ann") None 7 Private None (Some "/request") false in
  let st' := snd (Access.handleRequestAccess "2024-01-01T00:00:00.000Z" msg st) in
  Access.failures st' = 1%nat ∧ length (Access.outbox st') = 1%nat ∧
  occupied "7" "7" (Access.auth st').
Proof.
  intros st msg st'.
  assert (Hfree : (Js.toString (from_id msg), Js.toString (chat_id msg))
             ∉ AuthManager.pairOf <$>
                 AuthManager.pendingRequests
                   (AuthManager.authorized
                      (AuthManager.loadAuthorized (Access.auth st)))).
  { vm_compute. intros H. inversion H. }
  assert (Hsend : head (Access.sendOutcomes st) ≠ Some false)
    by (simpl; discriminate).
  destruct (request_access_stores_and_notifies "2024-01-01T00:00:00.000Z"
              msg st eq_refl Hfree eq_refl Hsend) as (_ & _ & _ & Hocc).
  split; [reflexivity |]. split; [reflexivity |]. exact Hocc.
Defined.

(** X13. [withAuth] runs the callback only behind the gate: for a message
    the gate refuses the outcome is the same whatever the callback is (it
    is never called), for a message it lets through the outcome is the
    callback's on the re-read authorization state, and for an admin the
    callback runs on the state as it is. *)
Theorem withAuth_guards_the_callback (msg : Msg)
    (callback : Access.t → Bot.Res unit * Access.t) (st : Access.t) :
  (fst (AuthManager.isAuthorized msg (Access.auth st)) = false →
   ∀ other, Access.withAuth msg callback st = Access.withAuth msg other st) ∧
  (fst (AuthManager.isAuthorized msg (Access.auth st)) = true →
   Access.withAuth msg callback st
   = callback (Access.set_auth
                 (snd (AuthManager.isAuthorized msg (Access.auth st))) st)) ∧
  (AuthManager.isAdmin (Js.toString (from_id msg)) (Access.auth st) = true →
   Access.withAuth msg callback st
   = callback (Access.set_auth (Access.auth st) st)).
Proof.
  unfold Access.withAuth. repeat split.
  - intros H other.
    destruct (AuthManager.isAuthorized msg (Access.auth st)) as [ok am].
    cbn [fst] in H. subst ok. reflexivity.
  - intros H.
    destruct (AuthManager.isAuthorized msg (Access.auth st)) as [ok am].
    cbn [fst] in H. subst ok. reflexivity.
  - intros H. unfold AuthManager.isAuthorized. rewrite H. reflexivity.
Qed.

Lemma withAuth_guards_the_callback_witness :
  let st := Access.mk demoAuth [] [] 0 in
  let grant := fun s : Access.t =>
                 (Bot.Ok tt,
                  Access.set_auth
                    (snd (AuthManager.authorizeUser "9" (Access.auth s))) s) in
  fst (AuthManager.isAuthorizedUser "9"
         (Access.auth (snd (Access.withAuth (demoGroupMsg 7) grant st)))) = true ∧
  Access.withAuth
    (mkMsg 9 None None 9 Private None None false) grant st
  = Access.withAuth
      (mkMsg 9 None None 9 Private None None false) (fun s => (Bot.Ok tt, s)) st.
Proof.
  intros st grant. split.
  - rewrite (proj1 (proj2 (withAuth_guards_the_callback (demoGroupMsg 7) grant
                             st)) eq_refl).
    reflexivity.
  - exact (proj1 (withAuth_guards_the_callback
                    (mkMsg 9 None None 9 Private None None false) grant st)
             eq_refl (fun s => (Bot.Ok tt, s))).
Defined.

(** ** Connection supervisor: limits *)

Section BackoffFacts.

Lemma backoff_grows (d : Q) (cap : Q) :
  (5000 # 1 <= d)%Q → (5000 # 1 <= cap)%Q →
  (5000 # 1 <= Qmin (d * (3 # 2)) cap)%Q ∧ (Qmin (d * (3 # 2)) cap <= cap)%Q
  ∧ (d <= cap → d <= Qmin (d * (3 # 2)) cap)%Q.
Proof.
  intros Hd Hcap.
  assert (Hmul : (d <= d * (3 # 2))%Q).
  { unfold Qle in *. destruct d as [n p]. simpl in *.
    rewrite Pos2Z.inj_mul. nia. }
  split; [| split].
  - apply Q.min_glb; [| exact Hcap]. eapply Qle_trans; [exact Hd | exact Hmul].
  - apply Q.le_min_r.
  - intros H. apply Q.min_glb; [exact Hmul | exact H].
Qed.

End BackoffFacts.

Section LimitFacts.
Import ConnectionManager.

Lemma wl_handleDisconnection (s : Sup) :
  withinLimits s → withinLimits (handleDisconnection s).
Proof.
  unfold withinLimits, handleDisconnection. intros (Hm & Ha & Hd1 & Hd2).
  destruct (Z.leb_spec (maxReconnectAttempts (cm s)) (reconnectAttempts (cm s)));
    cbn; repeat split; try assumption; lia.
Qed.

Lemma wl_step (e : Event) (s s' : Sup) :
  withinLimits s → step e s = Some s' → withinLimits s'.
Proof.
  intros H Hs. destruct e as [p now | | ok]; simpl in Hs.
  - injection Hs as <-. destruct p; cbn.
    + destruct H as (Hm & Ha & Hd1 & Hd2). unfold withinLimits. cbn.
      repeat split; try assumption; try lia; unfold Qle; simpl; lia.
    + exact H.
    + apply wl_handleDisconnection. exact H.
  - destruct (timers s); [discriminate |]. injection Hs as <-.
    apply wl_handleDisconnection. exact H.
  - destruct (inFlight s); [discriminate |]. injection Hs as <-.
    destruct H as (Hm & Ha & Hd1 & Hd2). unfold withinLimits, attemptEnds.
    destruct ok;
      cbn [cm maxReconnectAttempts reconnectAttempts reconnectDelay].
    + repeat split; try assumption; try lia; unfold Qle; simpl; lia.
    + destruct (backoff_grows (reconnectDelay (cm s)) (60000 # 1) Hd1)
        as (B1 & B2 & _); [unfold Qle; simpl; lia |].
      repeat split; try assumption; lia.
Qed.

Lemma rp_handleDisconnection (s : Sup) :
  retryPending (handleDisconnection s).
Proof.
  unfold retryPending, handleDisconnection.
  destruct (Z.leb_spec (maxReconnectAttempts (cm s)) (reconnectAttempts (cm s)));
    cbn; lia.
Qed.

Lemma rp_step (e : Event) (s s' : Sup) :
  retryPending s → step e s = Some s' → retryPending s'.
Proof.
  intros H Hs. destruct e as [p now | | ok]; simpl in Hs.
  - injection Hs as <-. destruct p; cbn.
    + unfold retryPending. cbn. lia.
    + exact H.
    + apply rp_handleDisconnection.
  - destruct (timers s); [discriminate |]. injection Hs as <-.
    apply rp_handleDisconnection.
  - destruct (inFlight s) eqn:E; [discriminate |]. injection Hs as <-.
    unfold retryPending, attemptEnds. destruct ok; cbn; lia.
Qed.

End LimitFacts.

(** X14. From its construction on, whatever the health checks, retry
    timers and reconnect attempts do and however they interleave, the
    supervisor's reconnect counter stays between 0 and 10 and its back-off
    delay between 5 and 60 seconds. *)
Theorem supervisor_stays_within_limits
    (es : list ConnectionManager.Event) (s' : ConnectionManager.Sup)
    (Hrun : ConnectionManager.run es ConnectionManager.start = Some s') :
  withinLimits s'.
Proof.
  assert (H0 : withinLimits ConnectionManager.start).
  { unfold withinLimits. cbn. repeat split; try lia; unfold Qle; simpl; lia. }
  revert Hrun H0. generalize ConnectionManager.start.
  induction es as [|e es IH]; intros s Hrun Hs; simpl in Hrun.
  - now injection Hrun as <-.
  - destruct (ConnectionManager.step e s) as [s1|] eqn:E; [| discriminate].
    apply (IH s1 Hrun). eapply wl_step; eassumption.
Qed.

Lemma supervisor_stays_within_limits_witness :
  ∃ s', ConnectionManager.run exhaustingRun ConnectionManager.start = Some s'
        ∧ withinLimits s'.
Proof.
  exists exhaustedSup.
  assert (H : ConnectionManager.run exhaustingRun ConnectionManager.start
              = Some exhaustedSup) by (vm_compute; reflexivity).
  split; [exact H |].
  exact (supervisor_stays_within_limits exhaustingRun exhaustedSup H).
Defined.

(** X15. The supervisor does not give up early: from its construction on,
    whenever the reconnect counter is above 0 and below the maximum, a
    reconnect attempt is running or a retry timer is set. *)
Theorem supervisor_keeps_retrying_below_max
    (es : list ConnectionManager.Event) (s' : ConnectionManager.Sup)
    (Hrun : ConnectionManager.run es ConnectionManager.start = Some s') :
  retryPending s'.
Proof.
  assert (H0 : retryPending ConnectionManager.start).
  { unfold retryPending. cbn. lia. }
  revert Hrun H0. generalize ConnectionManager.start.
  induction es as [|e es IH]; intros s Hrun Hs; simpl in Hrun.
  - now injection Hrun as <-.
  - destruct (ConnectionManager.step e s) as [s1|] eqn:E; [| discriminate].
    apply (IH s1 Hrun). eapply rp_step; eassumption.
Qed.

Lemma supervisor_keeps_retrying_below_max_witness :
  let es := [ConnectionManager.HealthCheck ConnectionManager.ProbeError 0;
             ConnectionManager.AttemptEnds false] in
  ∃ s', ConnectionManager.run es ConnectionManager.start = Some s'
        ∧ (1 ≤ ConnectionManager.inFlight s' + ConnectionManager.timers s')%nat.
Proof.
  intros es.
  assert (H : ConnectionManager.run es ConnectionManager.start
              = Some (ConnectionManager.mkSup
                        (ConnectionManager.mk false 1 10
                           (Qmin ((5000 # 1) * (3 # 2)) (60000 # 1)) None)
                        0 1 1)) by reflexivity.
  eexists. split; [exact H |].
  apply (supervisor_keeps_retrying_below_max es _ H). cbn. lia.
Defined.

(** ** Polling errors *)

Section PollerFacts.
Import Polling.

Lemma pl_step (ev : Event) (s s' : Sup) :
  pollerWithinLimits s → step ev s = Some s' → pollerWithinLimits s'.
Proof.
  intros (H1 & H2 & H3 & H4) Hs. destruct ev as [e | ok |]; simpl in Hs.
  - injection Hs as <-. unfold handlePollingError.
    destruct (isConflict e); [now repeat split |].
    destruct (isNetwork e); [| now repeat split].
    destruct (Z.leb_spec (retryCount (st s) + 1) (maxRetries (st s)));
      unfold pollerWithinLimits; cbn [st retryDelay retryCount scheduled].
    + destruct (backoff_grows (retryDelay (st s)) (30000 # 1) H1)
        as (B1 & B2 & _); [unfold Qle; simpl; lia |].
      repeat split; try assumption; try lia.
      apply Forall_app. split; [exact H4 |]. now repeat constructor.
    + repeat split; try assumption; lia.
  - destruct (reconnects s); [discriminate |]. injection Hs as <-.
    unfold pollerWithinLimits, reconnectSettles.
    destruct ok; cbn [st retryDelay retryCount scheduled];
      repeat split; try assumption; lia.
  - destruct (recoveries s); [discriminate |]. injection Hs as <-.
    unfold pollerWithinLimits, recoveryFires.
    cbn [st retryDelay retryCount scheduled].
    repeat split; try assumption; try lia; unfold Qle; simpl; lia.
Qed.

Lemma pl_run (es : list Event) (s s' : Sup) :
  pollerWithinLimits s → run es s = Some s' → pollerWithinLimits s'.
Proof.
  revert s. induction es as [|ev es IH]; intros s H Hrun; simpl in Hrun.
  - now injection Hrun as <-.
  - destruct (step ev s) as [s1|] eqn:E; [| discriminate].
    apply (IH s1); [| exact Hrun]. eapply pl_step; eassumption.
Qed.

Lemma pl_start : pollerWithinLimits start.
Proof.
  unfold pollerWithinLimits. cbn.
  repeat split; try lia; try (unfold Qle; simpl; lia). constructor.
Qed.

Lemma delay_step (ev : Event) (s s' : Sup) :
  pollerWithinLimits s → isRecovery ev = false → step ev s = Some s' →
  (retryDelay (st s) <= retryDelay (st s'))%Q.
Proof.
  intros (H1 & H2 & _) Hr Hs. destruct ev as [e | ok |]; simpl in Hs;
    [| | discriminate Hr].
  - injection Hs as <-. unfold handlePollingError.
    destruct (isConflict e); [apply Qle_refl |].
    destruct (isNetwork e); [| apply Qle_refl].
    destruct (retryCount (st s) + 1 <=? maxRetries (st s));
      cbn [st retryDelay]; [| apply Qle_refl].
    destruct (backoff_grows (retryDelay (st s)) (30000 # 1) H1)
      as (_ & _ & B); [unfold Qle; simpl; lia |].
    exact (B H2).
  - destruct (reconnects s); [discriminate |]. injection Hs as <-.
    unfold reconnectSettles. destruct ok; cbn [st retryDelay]; apply Qle_refl.
Qed.

Lemma timers_step (ev : Event) (s s' : Sup) :
  step ev s = Some s' →
  (reconnects s' + recoveries s' + (if isTimer ev then 1 else 0)
   = reconnects s + recoveries s + (if isNetworkError ev then 1 else 0))%nat.
Proof.
  intros Hs. destruct ev as [e | ok |]; simpl in Hs.
  - injection Hs as <-. unfold handlePollingError. simpl.
    destruct (isConflict e); [simpl; lia |].
    destruct (isNetwork e); [| simpl; lia].
    destruct (_ <=? _); simpl; lia.
  - destruct (reconnects s) eqn:E; [discriminate |]. injection Hs as <-.
    simpl. rewrite E. simpl. lia.
  - destruct (recoveries s) eqn:E; [discriminate |]. injection Hs as <-.
    simpl. rewrite E. simpl. lia.
Qed.

End PollerFacts.

(** X16. From the construction of the bot on, whatever polling errors
    arrive and however the timers they set fire, the poller's back-off
    delay, and the delay of every reconnect timer it sets, lies between 5
    and 30 seconds. *)
Theorem poller_delays_within_limits
    (es : list Polling.Event) (s' : Polling.Sup)
    (Hrun : Polling.run es Polling.start = Some s') :
  pollerWithinLimits s'.
Proof. exact (pl_run es Polling.start s' pl_start Hrun). Qed.

Lemma poller_delays_within_limits_witness :
  let es := [Polling.PollingError (Polling.mkError Polling.EFATAL None);
             Polling.PollingError (Polling.mkError Polling.ETIMEDOUT None);
             Polling.ReconnectSettles true] in
  ∃ s', Polling.run es Polling.start = Some s' ∧ pollerWithinLimits s'.
Proof.
  intros es.
  destruct (Polling.run es Polling.start) as [s'|] eqn:E;
    [| vm_compute in E; discriminate].
  exists s'. split; [reflexivity |].
  exact (poller_delays_within_limits es s' E).
Defined.

(** X17. A reconnect that succeeds resets the poller's retry counter but
    not its back-off delay: along any run in which no final-recovery timer
    fires, the delay never decreases. *)
Theorem poller_delay_only_reset_by_final_recovery
    (es : list Polling.Event) (s s' : Polling.Sup)
    (Hs : pollerWithinLimits s)
    (Hes : ∀ ev, ev ∈ es → Polling.isRecovery ev = false)
    (Hrun : Polling.run es s = Some s') :
  (Polling.retryDelay (Polling.st s) <= Polling.retryDelay (Polling.st s'))%Q.
Proof.
  revert s Hs Hrun. induction es as [|ev es IH]; intros s Hs Hrun;
    simpl in Hrun.
  - injection Hrun as <-. apply Qle_refl.
  - destruct (Polling.step ev s) as [s1|] eqn:E; [| discriminate].
    eapply Qle_trans.
    + apply (delay_step ev s s1 Hs); [apply Hes; left | exact E].
    + apply IH; [intros ev' H'; apply Hes; now right | | exact Hrun].
      eapply pl_step; eassumption.
Qed.

Lemma poller_delay_only_reset_by_final_recovery_witness :
  let es := [Polling.PollingError (Polling.mkError Polling.EFATAL None);
             Polling.ReconnectSettles true] in
  ∃ s', Polling.run es Polling.start = Some s'
        ∧ Polling.retryCount (Polling.st s') = 0
        ∧ (5000 # 1 <= Polling.retryDelay (Polling.st s'))%Q.
Proof.
  intros es.
  destruct (Polling.run es Polling.start) as [s'|] eqn:E;
    [| vm_compute in E; discriminate].
  exists s'. split; [reflexivity |]. split.
  - vm_compute in E. injection E as <-. reflexivity.
  - refine (poller_delay_only_reset_by_final_recovery es Polling.start s'
              pl_start _ E).
    intros ev Hev. apply list_elem_of_In in Hev.
    destruct Hev as [<- | [<- | []]]; reflexivity.
Defined.

(** X18. Every polling error of the network kind sets exactly one timer
    (a reconnect or, past the retry limit, a final recovery) and no other
    error sets any, a 409 conflict included: along any run the timers
    still pending plus the timers that ended equal the timers pending at
    the start plus the network errors handled. *)
Theorem poller_sets_one_timer_per_network_error
    (es : list Polling.Event) (s s' : Polling.Sup)
    (Hrun : Polling.run es s = Some s') :
  (Polling.reconnects s' + Polling.recoveries s'
   + length (List.filter Polling.isTimer es)
   = Polling.reconnects s + Polling.recoveries s
     + length (List.filter Polling.isNetworkError es))%nat.
Proof.
  revert s Hrun. induction es as [|ev es IH]; intros s Hrun; simpl in Hrun.
  - injection Hrun as <-. simpl. lia.
  - destruct (Polling.step ev s) as [s1|] eqn:E; [| discriminate].
    pose proof (timers_step ev s s1 E) as H1.
    pose proof (IH s1 Hrun) as H2. simpl.
    destruct (Polling.isTimer ev), (Polling.isNetworkError ev); simpl; lia.
Qed.

Lemma poller_sets_one_timer_per_network_error_witness :
  let es := [Polling.PollingError (Polling.mkError Polling.ETELEGRAM (Some 409));
             Polling.PollingError (Polling.mkError Polling.ECONNRESET None);
             Polling.PollingError (Polling.mkError Polling.OtherCode None)] in
  ∃ s', Polling.run es Polling.start = Some s'
        ∧ (Polling.reconnects s' + Polling.recoveries s' = 1)%nat.
Proof.
  intros es.
  destruct (Polling.run es Polling.start) as [s'|] eqn:E;
    [| vm_compute in E; discriminate].
  exists s'. split; [reflexivity |].
  pose proof (poller_sets_one_timer_per_network_error es Polling.start s' E)
    as H.
  simpl in H. lia.
Defined.

(** ** Credential store: what is written can be read back *)

Section StoreFacts.
Import TokenManager.

Lemma orElse_idem (o : option string) (d : string) :
  Js.orElse (Some (Js.orElse o d)) d = Js.orElse o d.
Proof.
  unfold Js.orElse. destruct o as [s|]; [| now destruct (Js.truthy d)].
  destruct (Js.truthy s) eqn:E; [now rewrite E |].
  now destruct (Js.truthy d).
Qed.

Lemma orElse_truthy_or_default (o : option string) (d : string) :
  Js.truthy (Js.orElse o d) = false → Js.orElse o d = d.
Proof.
  unfold Js.orElse. destruct o as [s|]; [| reflexivity].
  destruct (Js.truthy s) eqn:E; [congruence | reflexivity].
Qed.

Lemma demoCipher_sound : cipherSound demoCipher.
Proof. split; intros s; reflexivity. Qed.

(** Reading back one written record. *)
Lemma load_saved_entry (now : string) (tm1 tm2 : t) (d : TokenData) :
  cipherSound (cipher tm1) → cipher tm2 = cipher tm1 →
  defaultApiKey tm2 = defaultApiKey tm1 →
  loadEntry tm2 (saveEntry now tm1 d)
  = Some (stored (defaultApiKey tm1) now d).
Proof.
  intros [Hrt Hne] Hc Hd. unfold loadEntry, saveEntry, stored.
  cbn [token apiKey workspace addedAt lastUsed Js.truthyOpt default
       from_option id].
  rewrite Hc, Hd, !Hne, !Hrt. reflexivity.
Qed.

(** Reading back the whole file after a write that went through. *)
Lemma load_saved_tokens (now : string) (tm : t) :
  cipherSound (cipher tm) → writable tm = true →
  tokens (loadTokens (saveTokens now tm))
  = stored (defaultApiKey tm) now <$> tokens tm.
Proof.
  intros Hc Hw. unfold saveTokens. rewrite Hw. unfold loadTokens.
  cbn [tokensFile set_tokens tokens].
  apply map_eq. intros k. rewrite lookup_omap, !lookup_fmap.
  destruct (tokens tm !! k) as [d|]; [| reflexivity]. cbn.
  now apply load_saved_entry.
Qed.

Lemma saveTokens_defaults (now : string) (tm : t) :
  defaultApiKey (saveTokens now tm) = defaultApiKey tm ∧
  defaultToken (saveTokens now tm) = defaultToken tm ∧
  writable (saveTokens now tm) = writable tm ∧
  cipher (saveTokens now tm) = cipher tm.
Proof.
  unfold saveTokens. destruct (writable tm) eqn:E; cbn; auto.
Qed.

(** What [getToken] answers from the records a re-read finds. *)
Lemma getToken_answer (chat now : string) (tm : t) :
  fst (getToken chat now tm)
  = match tokens (loadTokens tm) !! chat with
    | Some d => mkCredentials (Js.orElse (apiKey d) (defaultApiKey tm))
                              (token d) (workspace d)
    | None => mkCredentials (defaultApiKey tm) (defaultToken tm)
                            (Some "Default Workspace")
    end.
Proof.
  unfold getToken.
  destruct (loadTokens_defaults tm) as (Hk & Ht & Hw & Hc).
  destruct (tokens (loadTokens tm) !! chat) as [d|]; cbn [fst].
  - cbn [apiKey token workspace].
    destruct (saveTokens_defaults now
                (set_tokens
                   (<[chat := mkToken (token d) (apiKey d) (workspace d)
                               (addedAt d) (Some now)]>
                      (tokens (loadTokens tm)))
                   (loadTokens tm))) as (-> & _).
    cbn [set_tokens defaultApiKey]. now rewrite Hk.
  - now rewrite Hk, Ht.
Qed.

End StoreFacts.

(** X19. With a sound cipher and a store that accepts writes, what
    [setToken] stores for a chat is what [getToken] answers for it
    afterwards: the token itself, the API key (the bot's default key when
    none was given) and the workspace name (['Unknown Workspace'] when none
    was given). *)
Theorem stored_token_is_read_back
    (chat tok : string) (key ws : option string) (now now' : string)
    (tm : TokenManager.t)
    (Hc : cipherSound (TokenManager.cipher tm))
    (Hw : TokenManager.writable tm = true) :
  fst (TokenManager.getToken chat now'
         (TokenManager.setToken chat tok key ws now tm))
  = TokenManager.mkCredentials
      (Js.orElse key (TokenManager.defaultApiKey tm)) tok
      (Some (Js.orElse ws "Unknown Workspace")) ∧
  fst (TokenManager.hasCustomToken chat
         (TokenManager.setToken chat tok key ws now tm)) = true.
Proof.
  unfold TokenManager.setToken, TokenManager.hasCustomToken.
  rewrite getToken_answer. cbn [fst].
  rewrite load_saved_tokens by assumption.
  cbn [TokenManager.set_tokens TokenManager.tokens TokenManager.defaultApiKey].
  rewrite lookup_fmap, lookup_insert_eq.
  destruct (saveTokens_defaults now
              (TokenManager.set_tokens
                 (<[chat := TokenManager.mkToken tok
                       (Some (Js.orElse key (TokenManager.defaultApiKey tm)))
                       (Some (Js.orElse ws "Unknown Workspace"))
                       (Some now) (Some now)]> (TokenManager.tokens tm)) tm))
    as (-> & _).
  cbn [fmap option_fmap option_map stored TokenManager.token
       TokenManager.apiKey TokenManager.workspace TokenManager.set_tokens
       TokenManager.defaultApiKey].
  rewrite !orElse_idem. split; [reflexivity |].
  apply bool_decide_eq_true_2. eauto.
Qed.

Lemma stored_token_is_read_back_witness :
  fst (TokenManager.getToken "7" "t2"
         (TokenManager.setToken "7" "tok7" None (Some "Ann Lee") "t1"
            (Bot.tokenManager demoBot)))
  = TokenManager.mkCredentials "defaultKey" "tok7" (Some "Ann Lee").
Proof.
  exact (proj1 (stored_token_is_read_back "7" "tok7" None (Some "Ann Lee")
                  "t1" "t2" (Bot.tokenManager demoBot) demoCipher_sound
                  eq_refl)).
Defined.

(** X20. Chats do not share credentials: with a sound cipher and a store
    that accepts writes, after the records have been read from the file,
    storing a token for one chat does not change what [getToken] answers
    for any other chat. *)
Theorem token_of_other_chat_unchanged
    (a b tok : string) (key ws : option string) (now now' : string)
    (tm0 : TokenManager.t)
    (Hc : cipherSound (TokenManager.cipher tm0))
    (Hw : TokenManager.writable tm0 = true)
    (Hab : a ≠ b) :
  let tm := TokenManager.loadTokens tm0 in
  fst (TokenManager.getToken b now'
         (TokenManager.setToken a tok key ws now tm))
  = fst (TokenManager.getToken b now' tm).
Proof.
  intros tm.
  destruct (loadTokens_defaults tm0) as (Hk & Ht & Hw' & Hc').
  assert (Hctm : cipherSound (TokenManager.cipher tm))
    by (subst tm; now rewrite Hc').
  assert (Hwtm : TokenManager.writable tm = true)
    by (subst tm; now rewrite Hw').
  unfold TokenManager.setToken. rewrite !getToken_answer.
  rewrite load_saved_tokens by assumption.
  destruct (saveTokens_defaults now
              (TokenManager.set_tokens
                 (<[a := TokenManager.mkToken tok
                       (Some (Js.orElse key (TokenManager.defaultApiKey tm)))
                       (Some (Js.orElse ws "Unknown Workspace"))
                       (Some now) (Some now)]> (TokenManager.tokens tm)) tm))
    as (-> & -> & _).
  cbn [TokenManager.set_tokens TokenManager.defaultApiKey
       TokenManager.defaultToken TokenManager.tokens].
  rewrite lookup_fmap, lookup_insert_ne by exact Hab.
  replace (TokenManager.tokens (TokenManager.loadTokens tm))
    with (TokenManager.tokens tm).
  - destruct (TokenManager.tokens tm !! b) as [d|]; [| reflexivity].
    cbn [fmap option_fmap option_map stored TokenManager.token
         TokenManager.apiKey TokenManager.workspace].
    now rewrite orElse_idem.
  - subst tm. unfold TokenManager.loadTokens at 2.
    rewrite loadTokens_file. unfold TokenManager.loadTokens.
    destruct (TokenManager.tokensFile tm0); reflexivity.
Qed.

Lemma token_of_other_chat_unchanged_witness :
  let tm := TokenManager.loadTokens (Bot.tokenManager demoBot) in
  fst (TokenManager.getToken "42" "t2"
         (TokenManager.setToken "7" "tok7" None None "t1" tm))
  = TokenManager.mkCredentials "key42" "tok42" (Some "Ann Lee").
Proof.
  intros tm.
  assert (H : "7" ≠ "42") by discriminate.
  pose proof (token_of_other_chat_unchanged "7" "42" "tok7" None None "t1"
                "t2" (Bot.tokenManager demoBot) demoCipher_sound eq_refl H)
    as E.
  cbv zeta in E. fold tm in E. rewrite E. reflexivity.
Defined.

(** X21. [clearAllTokens] lasts only if it can be written. For every
    chat id (the store is keyed by the decimal text of the id): on a store
    that accepts writes the chat resolves to the bot's default credentials
    afterwards and no custom token is left; on a store that rejects the
    write, the chat resolves exactly as before, because [getToken]
    re-reads the file. *)
Theorem clear_all_tokens_lasts_only_if_written
    (chat : Z) (now now' : string) (tm : TokenManager.t) :
  let key := Js.toString chat in
  (TokenManager.writable tm = true →
   fst (TokenManager.getToken key now' (TokenAdmin.clearAllTokens now tm))
   = TokenManager.mkCredentials (TokenManager.defaultApiKey tm)
       (TokenManager.defaultToken tm) (Some "Default Workspace") ∧
   fst (TokenAdmin.totalCustomTokens (TokenAdmin.clearAllTokens now tm))
   = 0%nat) ∧
  (TokenManager.writable tm = false →
   fst (TokenManager.getToken key now' (TokenAdmin.clearAllTokens now tm))
   = fst (TokenManager.getToken key now' tm)).
Proof.
  intros key.
  unfold TokenAdmin.clearAllTokens, TokenAdmin.totalCustomTokens. split.
  - intros Hw. rewrite getToken_answer. cbn [fst].
    destruct (saveTokens_defaults now (TokenManager.set_tokens ∅ tm))
      as (-> & -> & _).
    unfold TokenManager.saveTokens. cbn [TokenManager.set_tokens
      TokenManager.writable]. rewrite Hw.
    unfold TokenManager.loadTokens. cbn [TokenManager.tokensFile
      TokenManager.set_tokens TokenManager.tokens
      TokenManager.defaultApiKey TokenManager.defaultToken].
    rewrite fmap_empty, omap_empty, lookup_empty. split; [reflexivity |].
    apply map_size_empty.
  - intros Hw. rewrite !getToken_answer.
    unfold TokenManager.saveTokens. cbn [TokenManager.set_tokens
      TokenManager.writable]. rewrite Hw.
    unfold TokenManager.loadTokens. cbn [TokenManager.tokensFile
      TokenManager.set_tokens TokenManager.tokens
      TokenManager.defaultApiKey TokenManager.defaultToken].
    destruct (TokenManager.tokensFile tm); reflexivity.
Qed.

Lemma clear_all_tokens_lasts_only_if_written_witness :
  let tm := Bot.tokenManager demoBot in
  TokenManager.cred_token (fst (TokenManager.getToken "42" "t2" tm)) = "tok42" ∧
  TokenManager.cred_token
    (fst (TokenManager.getToken "42" "t2" (TokenAdmin.clearAllTokens "t1" tm)))
  = "defaultToken".
Proof.
  intros tm. split; [reflexivity |].
  pose proof (proj1 (proj1 (clear_all_tokens_lasts_only_if_written 42 "t1"
                              "t2" tm) eq_refl)) as E.
  change (Js.toString 42) with "42" in E. rewrite E. reflexivity.
Defined.

(** ** Chat configuration and usage statistics *)

(** X22. On a store that accepts writes, [setChatConfig] makes
    [getChatConfig] of the same chat answer the old settings overridden by
    the new ones and stamped with the time of the call, leaves the settings
    of every other chat alone, and [clearChatConfig] brings the chat back
    to the empty settings. *)
Theorem chat_config_is_read_back
    (chat : string)
    (settings : ConfigManager.ChatConfig → ConfigManager.ChatConfig)
    (now : string) (cfg : ConfigManager.t)
    (Hw : ConfigManager.writable cfg = true) :
  let cfg' := ConfigManager.setChatConfig chat settings now cfg in
  let new := settings (ConfigManager.getChatConfig chat cfg) in
  ConfigManager.getChatConfig chat cfg'
  = ConfigManager.mkChatConfig (ConfigManager.boardId new)
      (ConfigManager.defaultListId new) (Some now) ∧
  (∀ other, other ≠ chat →
     ConfigManager.getChatConfig other cfg'
     = ConfigManager.getChatConfig other cfg) ∧
  ConfigManager.getChatConfig chat (ConfigManager.clearChatConfig chat cfg')
  = ConfigManager.emptyConfig ∧
  (∀ other, other ≠ chat →
     ConfigManager.getChatConfig other
       (ConfigManager.clearChatConfig chat cfg')
     = ConfigManager.getChatConfig other cfg).
Proof.
  intros cfg' new. subst cfg' new.
  unfold ConfigManager.setChatConfig, ConfigManager.clearChatConfig,
    ConfigManager.getChatConfig, ConfigManager.saveConfig.
  rewrite Hw. cbn [ConfigManager.loadConfig ConfigManager.configFile
                   ConfigManager.writable].
  repeat split.
  - now rewrite lookup_insert_eq.
  - intros other Ho. now rewrite lookup_insert_ne by congruence.
  - now rewrite lookup_delete_eq.
  - intros other Ho.
    now rewrite lookup_delete_ne, lookup_insert_ne by congruence.
Qed.

Lemma chat_config_is_read_back_witness :
  ConfigManager.getChatConfig "42"
    (ConfigManager.setChatConfig "42"
       (fun old => ConfigManager.mkChatConfig (ConfigManager.boardId old)
                     (Some "L9") (ConfigManager.updatedAt old))
       "t1" (Bot.config demoBot))
  = ConfigManager.mkChatConfig (Some "B1") (Some "L9") (Some "t1").
Proof.
  exact (proj1 (chat_config_is_read_back "42"
                  (fun old => ConfigManager.mkChatConfig
                                (ConfigManager.boardId old) (Some "L9")
                                (ConfigManager.updatedAt old))
                  "t1" (Bot.config demoBot) eq_refl)).
Defined.

Section StatsFacts.
Import Stats.

(** Replacing one entry of a map changes a sum over it by the
    difference. *)
Lemma sum_insert {A} (f : A → Z) (k : string) (v : A) (m : gmap string A) :
  map_fold (fun _ x acc => acc + f x) 0 (<[k := v]> m)
  = map_fold (fun _ x acc => acc + f x) 0 m
    - match m !! k with Some old => f old | None => 0 end + f v.
Proof.
  destruct (m !! k) as [old|] eqn:E.
  - rewrite <- insert_delete_eq.
    rewrite map_fold_insert_L;
      [| intros; lia | apply lookup_delete_eq].
    rewrite (map_fold_delete_L _ _ k old m); [lia | intros; lia | exact E].
  - rewrite map_fold_insert_L; [lia | intros; lia | exact E].
Qed.

Lemma incrementStats_writable (chat user now : string) (s : t) :
  writable (snd (incrementStats chat user now s)) = writable s.
Proof.
  unfold incrementStats, saveStats. cbn [snd].
  destruct (writable s) eqn:E; [reflexivity | exact E].
Qed.

Lemma incrementStats_stored (chat user now : string) (s : t) :
  writable s = true →
  loadStats (snd (incrementStats chat user now s))
  = <[chat := fst (incrementStats chat user now s)]> (loadStats s).
Proof.
  intros Hw. unfold incrementStats, saveStats. cbn [fst snd].
  rewrite Hw. reflexivity.
Qed.

Lemma incrementStats_total (chat user now : string) (s : t) :
  totalCards (fst (incrementStats chat user now s))
  = match loadStats s !! chat with
    | Some c => totalCards c
    | None => 0
    end + 1.
Proof.
  unfold incrementStats. cbn [fst totalCards].
  now destruct (loadStats s !! chat).
Qed.

Lemma global_step (chat user now : string) (s : t) :
  writable s = true →
  gr_totalCards (getGlobalStats (snd (incrementStats chat user now s)))
  = gr_totalCards (getGlobalStats s) + 1.
Proof.
  intros Hw. unfold getGlobalStats. cbn [gr_totalCards].
  rewrite incrementStats_stored by exact Hw.
  rewrite sum_insert, incrementStats_total. lia.
Qed.

Lemma chat_step (chat' chat user now : string) (s : t) :
  writable s = true →
  cr_totalCards (getStats chat' (snd (incrementStats chat user now s)))
  = cr_totalCards (getStats chat' s)
    + (if decide (chat = chat') then 1 else 0).
Proof.
  intros Hw. unfold getStats. cbn [cr_totalCards].
  rewrite incrementStats_stored by exact Hw.
  destruct (decide (chat = chat')) as [->|Hne].
  - rewrite lookup_insert_eq. cbn [default from_option id].
    rewrite incrementStats_total.
    now destruct (loadStats s !! chat').
  - rewrite lookup_insert_ne by exact Hne. lia.
Qed.

Lemma addUp_step (chat user now : string) (s : t) :
  statsAddUp s → statsAddUp (snd (incrementStats chat user now s)).
Proof.
  intros H. destruct (writable s) eqn:Hw.
  - intros chat' c'. rewrite incrementStats_stored by exact Hw.
    destruct (decide (chat = chat')) as [<-|Hne].
    + rewrite lookup_insert_eq. intros [= <-].
      unfold incrementStats, cardsAddUp. cbn [fst totalCards users].
      rewrite sum_insert. cbn [cardsCreated].
      destruct (loadStats s !! chat) as [c|] eqn:E;
        cbn [default from_option id].
      * pose proof (H chat c E) as Hc. unfold cardsAddUp in Hc. rewrite Hc.
        destruct (users c !! user); cbn [default from_option id cardsCreated];
          lia.
      * cbn [users totalCards]. rewrite lookup_empty, map_fold_empty.
        cbn [default from_option id cardsCreated]. lia.
    + rewrite lookup_insert_ne by exact Hne. apply H.
  - unfold incrementStats, saveStats. cbn [snd]. rewrite Hw. exact H.
Qed.

End StatsFacts.

(** X23. Every card is counted once: on a store that accepts writes,
    after any sequence of [incrementStats] calls the total of
    [getGlobalStats] has grown by the number of calls, and the total of
    [getStats] for a chat by the number of calls made for that chat. *)
Theorem every_card_is_counted_once
    (events : list (string * string * string)) (s : Stats.t)
    (Hw : Stats.writable s = true) :
  Stats.gr_totalCards (Stats.getGlobalStats (Stats.record events s))
  = Stats.gr_totalCards (Stats.getGlobalStats s) + Z.of_nat (length events) ∧
  ∀ chat,
    Stats.cr_totalCards (Stats.getStats chat (Stats.record events s))
    = Stats.cr_totalCards (Stats.getStats chat s)
      + Z.of_nat (length (List.filter
                            (fun e => String.eqb (fst (fst e)) chat) events)).
Proof.
  revert s Hw. induction events as [|[[c u] now] events IH]; intros s Hw.
  - simpl. split; [lia | intros; lia].
  - cbn [Stats.record].
    destruct (IH (snd (Stats.incrementStats c u now s))) as [Hg Hc];
      [now rewrite incrementStats_writable |].
    split.
    + rewrite Hg, global_step by exact Hw. cbn [length]. lia.
    + intros chat. rewrite Hc, chat_step by exact Hw. cbn [List.filter fst].
      destruct (decide (c = chat)) as [->|Hne].
      * rewrite String.eqb_refl. cbn [length]. lia.
      * apply String.eqb_neq in Hne. rewrite Hne. lia.
Qed.

Lemma every_card_is_counted_once_witness :
  let s := Stats.record [("42", "7", "t1"); ("42", "8", "t2");
                         ("-500", "7", "t3")] freshStats in
  Stats.gr_totalCards (Stats.getGlobalStats s) = 3 ∧
  Stats.cr_totalCards (Stats.getStats "42" s) = 2.
Proof.
  intros s.
  destruct (every_card_is_counted_once
              [("42", "7", "t1"); ("42", "8", "t2"); ("-500", "7", "t3")]
              freshStats eq_refl) as [Hg Hc].
  split; [exact Hg | exact (Hc "42")].
Defined.

(** X24. The statistics stay consistent: if for every chat on file the
    cards counted for the chat are the sum of the cards counted for its
    users, this is still so after any sequence of [incrementStats] calls,
    whether or not the writes go through. *)
Theorem chat_totals_are_the_sum_of_user_totals
    (events : list (string * string * string)) (s : Stats.t)
    (H : statsAddUp s) :
  statsAddUp (Stats.record events s).
Proof.
  revert s H. induction events as [|[[c u] now] events IH]; intros s H;
    [exact H |].
  cbn [Stats.record]. apply IH. now apply addUp_step.
Qed.

Lemma chat_totals_are_the_sum_of_user_totals_witness :
  statsAddUp (Stats.record [("42", "7", "t1"); ("42", "7", "t2");
                            ("42", "8", "t3")] freshStats).
Proof.
  apply chat_totals_are_the_sum_of_user_totals.
  intros chat c Hc. cbn in Hc. rewrite lookup_empty in Hc. discriminate.
Defined.

(** ** Markdown escaping *)

Section EscapeFacts.
Import ErrorHandler.

Lemma escapeChar_app (c : ascii) (s1 s2 : string) :
  escapeChar c (s1 ++ s2) = escapeChar c s1 ++ escapeChar c s2.
Proof.
  induction s1 as [|a s1 IH]; simpl; [reflexivity |].
  destruct (Ascii.eqb a c); simpl; now rewrite IH.
Qed.

Lemma chain_app (cs : list ascii) (s1 s2 : string) :
  fold_left (fun acc c => escapeChar c acc) cs (s1 ++ s2)
  = fold_left (fun acc c => escapeChar c acc) cs s1
    ++ fold_left (fun acc c => escapeChar c acc) cs s2.
Proof.
  revert s1 s2. induction cs as [|c cs IH]; intros s1 s2; simpl;
    [reflexivity |].
  now rewrite escapeChar_app, IH.
Qed.

(** On one character the eighteen replacements in a row do what the
    one-pass class replacement does. *)
Lemma chain_one (a : ascii) :
  fold_left (fun acc c => escapeChar c acc) escaped (String a EmptyString)
  = escapeClass cardNameClass (String a EmptyString).
Proof. destruct a as [[] [] [] [] [] [] [] []]; reflexivity. Qed.

Lemma escapeClass_cons (cls : ascii → bool) (a : ascii) (s : string) :
  escapeClass cls (String a s)
  = escapeClass cls (String a EmptyString) ++ escapeClass cls s.
Proof. simpl. now destruct (cls a). Qed.

(** An escaped text never starts with a character of the class. *)
Lemma escapeClass_head (cls : ascii → bool) (s : string) :
  cls backslash = false →
  match escapeClass cls s with
  | String b _ => cls b = false
  | EmptyString => True
  end.
Proof.
  intros Hb. destruct s as [|a s]; simpl; [exact I |].
  destruct (cls a) eqn:E; [exact Hb | exact E].
Qed.

Lemma unescape_escape (cls : ascii → bool) (s : string) :
  cls backslash = false → unescapeClass cls (escapeClass cls s) = s.
Proof.
  intros Hb. induction s as [|a s IH]; [reflexivity |].
  cbn [escapeClass]. destruct (cls a) eqn:E.
  - cbn [unescapeClass]. rewrite Ascii.eqb_refl, E. cbn [andb].
    now rewrite IH.
  - pose proof (escapeClass_head cls s Hb) as Hh.
    cbn [unescapeClass]. destruct (escapeClass cls s) as [|b r] eqn:Er.
    + destruct s as [|a' s']; [reflexivity |].
      simpl in Er. destruct (cls a'); discriminate.
    + rewrite Hh, andb_false_r. now rewrite IH.
Qed.

End EscapeFacts.

(** X25. The eighteen global replacements [escapeMarkdown] chains are one
    pass: since no replacement touches the backslashes or the characters
    an earlier one has written, the result is the text with a backslash
    put in front of each of the eighteen characters, which is the escape
    the bot applies inline to card names; and the escape loses nothing:
    dropping the backslash in front of an escaped character gives the text
    back ([safeMarkdown] likewise, for its five characters). *)
Theorem escapeMarkdown_is_one_pass (s : string) :
  ErrorHandler.escapeMarkdown (Some s) = ErrorHandler.escapeCardName s ∧
  unescapeClass ErrorHandler.cardNameClass
    (ErrorHandler.escapeMarkdown (Some s)) = s ∧
  unescapeClass ErrorHandler.safeClass
    (ErrorHandler.safeMarkdown (Some s)) = s.
Proof.
  assert (H : ErrorHandler.escapeMarkdown (Some s)
              = ErrorHandler.escapeCardName s).
  { unfold ErrorHandler.escapeMarkdown, ErrorHandler.escapeCardName.
    induction s as [|a s IH]; [reflexivity |].
    change (String a s) with (String a EmptyString ++ s) at 1.
    rewrite chain_app, chain_one, IH.
    symmetry. apply escapeClass_cons. }
  split; [exact H |]. split.
  - rewrite H. now apply unescape_escape.
  - now apply unescape_escape.
Qed.

(** ** Trello client: the board cache *)

Section CacheFacts.
Import TrelloService.

Lemma filter_open (raw : list Board) :
  allOpen (List.filter (fun b => negb (board_closed b)) raw).
Proof.
  unfold allOpen. apply List.Forall_forall. intros b Hb.
  apply List.filter_In in Hb as [_ Hb]. now apply negb_true_iff in Hb.
Qed.

Lemma cached_boards (now : Z) (c : Cache) (bs : list Board) :
  cached now c = Some bs → boards c = Some bs.
Proof.
  unfold cached. destruct (boards c) as [bs'|]; [| discriminate].
  destruct (lastUpdate c); [| discriminate].
  destruct (_ && _); [| discriminate]. congruence.
Qed.

Lemma getBoards_open (now done : Z) (answer : option (list Board)) (c : Cache) :
  cacheOpen c →
  cacheOpen (snd (getBoards now done answer c)) ∧
  ∀ bs, fst (getBoards now done answer c) = Some bs → allOpen bs.
Proof.
  intros Hc. unfold getBoards.
  destruct (cached now c) as [bs|] eqn:E; cbn [fst snd].
  - split; [exact Hc |]. intros bs' [= <-].
    apply Hc. eapply cached_boards, E.
  - destruct answer as [raw|]; cbn [fst snd].
    + split; [intros bs [= <-] | intros bs [= <-]]; apply filter_open.
    + split; [exact Hc | discriminate].
Qed.

Lemma calls_open (cs : list (Z * Z * option (list Board))) (c : Cache) :
  cacheOpen c →
  Forall (fun r => ∀ bs, r = Some bs → allOpen bs) (fst (calls cs c)).
Proof.
  revert c. induction cs as [|[[now done] answer] cs IH]; intros c Hc;
    cbn [calls]; [constructor |].
  destruct (getBoards_open now done answer c Hc) as [Hc1 Hr].
  destruct (getBoards now done answer c) as [r c1]. cbn [fst snd] in *.
  specialize (IH c1 Hc1). destruct (calls cs c1) as [rs c2].
  cbn [fst] in *. constructor; assumption.
Qed.

End CacheFacts.

(** X26. The board cache. Whatever Trello answers and whenever
    [getBoards] is called, starting from an empty cache it never answers
    a closed board. After a fetch that ended at time [d1], a call less
    than five minutes later answers the boards of that fetch without
    regard to what Trello would say now, and leaves the cache as it is; a
    call five minutes later or more asks Trello again: it fails if Trello
    fails (the old boards are not served) and otherwise answers the open
    boards of the new answer. *)
Theorem board_cache_serves_open_boards_for_five_minutes
    (t1 d1 t2 d2 : Z) (raw : list TrelloService.Board)
    (Hd : d1 ≠ 0) :
  let c1 := snd (TrelloService.getBoards t1 d1 (Some raw)
                   TrelloService.clearCache) in
  let open := List.filter (fun b => negb (TrelloService.board_closed b)) in
  (∀ cs, Forall (fun r => ∀ bs, r = Some bs → allOpen bs)
                (fst (TrelloService.calls cs TrelloService.clearCache))) ∧
  (t2 - d1 < TrelloService.cacheTimeout →
   ∀ answer, TrelloService.getBoards t2 d2 answer c1 = (Some (open raw), c1)) ∧
  (TrelloService.cacheTimeout ≤ t2 - d1 →
   TrelloService.getBoards t2 d2 None c1 = (None, c1) ∧
   ∀ raw', fst (TrelloService.getBoards t2 d2 (Some raw') c1)
           = Some (open raw')).
Proof.
  intros c1 open. split; [| split].
  - intros cs. apply calls_open. intros bs. discriminate.
  - intros Hfresh answer. subst c1. unfold TrelloService.getBoards.
    cbn [TrelloService.cached TrelloService.clearCache TrelloService.boards
         TrelloService.lastUpdate snd].
    unfold TrelloService.cached.
    cbn [TrelloService.boards TrelloService.lastUpdate].
    apply Z.eqb_neq in Hd. apply Z.ltb_lt in Hfresh.
    rewrite Hd, Hfresh. reflexivity.
  - intros Hold. subst c1. unfold TrelloService.getBoards.
    cbn [TrelloService.cached TrelloService.clearCache TrelloService.boards
         TrelloService.lastUpdate snd].
    unfold TrelloService.cached.
    cbn [TrelloService.boards TrelloService.lastUpdate].
    apply Z.ltb_ge in Hold. rewrite Hold, andb_false_r.
    split; [reflexivity | intros raw'; reflexivity].
Qed.

Lemma board_cache_serves_open_boards_for_five_minutes_witness :
  let c1 := snd (TrelloService.getBoards 1000 1200 (Some demoBoards)
                   TrelloService.clearCache) in
  fst (TrelloService.getBoards 200000 200100 None c1)
  = Some [TrelloService.mkBoard "B1" "Ideas" false] ∧
  fst (TrelloService.getBoards 400000 400100 None c1) = None.
Proof.
  intros c1. subst c1.
  assert (Hd : 1200 ≠ 0) by lia.
  destruct (board_cache_serves_open_boards_for_five_minutes 1000 1200 200000
              200100 demoBoards Hd) as (_ & Hhit & _).
  destruct (board_cache_serves_open_boards_for_five_minutes 1000 1200 400000
              400100 demoBoards Hd) as (_ & _ & Hmiss).
  cbv zeta in Hhit, Hmiss. split.
  - rewrite (Hhit ltac:(unfold TrelloService.cacheTimeout; lia) None).
    reflexivity.
  - rewrite (proj1 (Hmiss ltac:(unfold TrelloService.cacheTimeout; lia))).
    reflexivity.
Defined.

(** X27. [getListCards] never answers an archived card; asked without
    completed cards it answers exactly the cards of its answer with them
    that are not complete. So, Trello answering the same cards to the two
    requests [sendUpdatedCardList] makes, the active cards it starts from
    and the completed cards it counts for its note add up to the open
    cards of the list. *)
Theorem active_and_completed_cards_add_up (cards : list TrelloService.Card) :
  (∀ inc card, In card (TrelloService.getListCards inc cards) →
     TrelloService.card_closed card = false) ∧
  TrelloService.getListCards false cards
  = List.filter (fun c => negb (TrelloService.dueComplete c))
                (TrelloService.getListCards true cards) ∧
  (length (TrelloService.getListCards false cards)
   + TrelloService.completedCount cards
   = length (TrelloService.getListCards true cards))%nat.
Proof.
  unfold TrelloService.completedCount, TrelloService.getListCards.
  split; [| split].
  - intros inc card Hin. apply List.filter_In in Hin as [_ H].
    now destruct (TrelloService.card_closed card).
  - induction cards as [|c cards IH]; [reflexivity |].
    simpl. destruct (TrelloService.card_closed c); [exact IH |].
    destruct (TrelloService.dueComplete c) eqn:E; simpl; rewrite E;
      simpl in *; [exact IH | now f_equal].
  - induction cards as [|c cards IH]; [reflexivity |].
    simpl. destruct (TrelloService.card_closed c); [exact IH |].
    destruct (TrelloService.dueComplete c) eqn:E; simpl; rewrite E;
      simpl in *; lia.
Qed.


(** ** The completion deep link *)

Section LinkFacts.
Import DeepLink.

Lemma lacks_app (c : ascii) (s1 s2 : string) :
  lacks c (s1 ++ s2) = lacks c s1 && lacks c s2.
Proof.
  induction s1 as [|a s1 IH]; simpl; [reflexivity |].
  now rewrite IH, andb_assoc.
Qed.

Lemma split_lacks (c : ascii) (s : string) :
  lacks c s = true → split c s = [s].
Proof.
  induction s as [|a s IH]; simpl; [reflexivity |].
  intros H. apply andb_true_iff in H as [Ha Hs].
  apply negb_true_iff in Ha. rewrite Ha, (IH Hs). reflexivity.
Qed.

Lemma split_at (c : ascii) (s1 s2 : string) :
  lacks c s1 = true →
  split c (s1 ++ String c s2) = s1 :: split c s2.
Proof.
  induction s1 as [|a s1 IH]; simpl.
  - intros _. now rewrite Ascii.eqb_refl.
  - intros H. apply andb_true_iff in H as [Ha Hs].
    apply negb_true_iff in Ha. rewrite Ha, (IH Hs). reflexivity.
Qed.

Lemma truthy_nonempty (s : string) : s ≠ EmptyString → Js.truthy s = true.
Proof. destruct s; [congruence | reflexivity]. Qed.

(** The parameter of a [/start] message is what follows the space. *)
Lemma startParam_start (p : string) :
  lacks " " p = true → startParam (Some ("/start " ++ p)) = Some p.
Proof.
  intros H. unfold startParam. simpl.
  change (EmptyString ++ p) with p.
  rewrite (split_lacks " " p H). reflexivity.
Qed.

Lemma complete_prefix (rest : string) :
  String.prefix "complete_" ("complete_" ++ rest) = true ∧
  Text.removeFirst "complete_" ("complete_" ++ rest) = rest.
Proof. destruct rest; split; reflexivity. Qed.

End LinkFacts.

(** X28. The completion link can be read back: for a card id and a list
    id without underscore or space, and a non-empty chat id likewise, the
    [/start] message that opening the link of [sendUpdatedCardList] sends
    is parsed by [handleStart] into that card, that list and that chat,
    in whichever chat the message arrives. *)
Theorem completion_link_is_read_back (card list chat here : string)
    (Hcard : linkSafe card) (Hlist : linkSafe list) (Hchat : linkSafe chat)
    (Hne : chat ≠ EmptyString) :
  DeepLink.parseComplete
    (Some ("/start " ++ DeepLink.completeParam card list chat)) here
  = Some (DeepLink.mkCompletion card (Some list) chat).
Proof.
  destruct Hcard as [Hc1 Hc2], Hlist as [Hl1 Hl2], Hchat as [Hh1 Hh2].
  unfold DeepLink.parseComplete.
  assert (Hsp : lacks " " (DeepLink.completeParam card list chat) = true).
  { unfold DeepLink.completeParam.
    rewrite !lacks_app, Hc2, Hl2, Hh2. reflexivity. }
  rewrite (startParam_start _ Hsp). unfold DeepLink.completeParam.
  destruct (complete_prefix (card ++ "_" ++ list ++ "_" ++ chat))
    as [-> ->].
  change (Js.truthy ("complete_" ++ card ++ "_" ++ list ++ "_" ++ chat))
    with true.
  cbn [andb].
  change (card ++ "_" ++ list ++ "_" ++ chat)
    with (card ++ String "_" (list ++ String "_" chat)).
  rewrite split_at by exact Hc1. rewrite split_at by exact Hl1.
  rewrite split_lacks by exact Hh1.
  cbn [nth lookup list_lookup Js.orElse].
  now rewrite truthy_nonempty.
Qed.

Lemma completion_link_is_read_back_witness :
  DeepLink.parseComplete
    (Some "/start complete_65f0c1a2_65f0beef_-500") "42"
  = Some (DeepLink.mkCompletion "65f0c1a2" (Some "65f0beef") "-500").
Proof.
  refine (completion_link_is_read_back "65f0c1a2" "65f0beef" "-500" "42"
            _ _ _ _).
  - split; reflexivity.
  - split; reflexivity.
  - split; reflexivity.
  - discriminate.
Defined.

(** ** Sessions: every handler keeps to its own session *)

Section FrameFacts.
Import Bot.
Variable key : string.

Lemma keeps_ret {A} (a : A) : keepsOthers key (ret a).
Proof. intros b k _. reflexivity. Qed.

Lemma keeps_throw {A} (e : Exn) : keepsOthers key (@throw A e).
Proof. intros b k _. reflexivity. Qed.

Lemma keeps_get : keepsOthers key get.
Proof. intros b k _. reflexivity. Qed.

Lemma keeps_bind {A B} (m : M A) (f : A → M B) :
  keepsOthers key m → (∀ a, keepsOthers key (f a)) →
  keepsOthers key (bind m f).
Proof.
  intros Hm Hf b k Hk. unfold bind. specialize (Hm b k Hk).
  destruct (m b) as [[a|e] b1]; cbn [snd] in *; [| exact Hm].
  rewrite (Hf a b1 k Hk). exact Hm.
Qed.

Lemma keeps_tryCatch {A} (m : M A) (h : Exn → M A) :
  keepsOthers key m → (∀ e, keepsOthers key (h e)) →
  keepsOthers key (tryCatch m h).
Proof.
  intros Hm Hh b k Hk. unfold tryCatch. specialize (Hm b k Hk).
  destruct (m b) as [[a|e] b1]; cbn [snd] in *; [exact Hm |].
  rewrite (Hh e b1 k Hk). exact Hm.
Qed.

Lemma keeps_send (c : Z) (r : Reply) : keepsOthers key (sendMessage c r).
Proof.
  intros b k _. unfold sendMessage.
  destruct (sendOutcomes b) as [|[] ?]; reflexivity.
Qed.

Lemma keeps_delete : keepsOthers key (deleteSession key).
Proof. intros b k Hk. cbn. now apply lookup_delete_ne. Qed.

Lemma keeps_mutate (f : Session → Session) :
  keepsOthers key (mutateSession key f).
Proof. intros b k Hk. cbn. now apply lookup_alter_ne. Qed.

Lemma keeps_insert (s : Session) :
  keepsOthers key
    (modify (fun b => set_userSessions (<[key := s]> (userSessions b)) b)).
Proof. intros b k Hk. cbn. now apply lookup_insert_ne. Qed.

Lemma keeps_modify (f : t → t) :
  (∀ b, userSessions (f b) = userSessions b) → keepsOthers key (modify f).
Proof. intros Hf b k _. cbn. now rewrite Hf. Qed.

Lemma keeps_getTrelloService (chat : Z) (now : string) :
  keepsOthers key (getTrelloService chat now).
Proof.
  intros b k _. unfold getTrelloService.
  destruct (TokenManager.getToken _ _ _). reflexivity.
Qed.

Lemma keeps_getBoardLists (client board : string) :
  keepsOthers key (getBoardLists client board).
Proof.
  intros b k _. unfold getBoardLists.
  destruct (listsOnBoard _ _ _); reflexivity.
Qed.

Lemma keeps_getChatConfig (chat : Z) : keepsOthers key (getChatConfig chat).
Proof. intros b k _. reflexivity. Qed.

Lemma keeps_createCard (client l n d : string) :
  keepsOthers key (createCard client l n d).
Proof.
  intros b k _. unfold createCard. destruct (addCard _ _ _ _ _); reflexivity.
Qed.

End FrameFacts.

Ltac frame_step :=
  first
    [ apply keeps_ret | apply keeps_throw | apply keeps_get
    | apply keeps_send | apply keeps_delete | apply keeps_mutate
    | apply keeps_insert | apply keeps_getTrelloService
    | apply keeps_getBoardLists | apply keeps_getChatConfig
    | apply keeps_createCard
    | apply keeps_modify; intros ?; reflexivity
    | apply keeps_bind; [| intros ?]
    | apply keeps_tryCatch; [| intros ?]
    | match goal with
      | |- keepsOthers _ (if ?c then _ else _) => destruct c
      | |- keepsOthers _ (match ?x with _ => _ end) => destruct x
      end ].

Ltac frame :=
  unfold mbind, Bot.M_bind, mret, Bot.M_ret,
         Bot.editMessageText, Bot.answerCallbackQuery;
  repeat frame_step.

Section HandlerFrames.
Import Bot.

Lemma keeps_handleWorkspaceSetup (now : string) (msg : Msg) (txt : string) :
  keepsOthers (sessionKey msg) (handleWorkspaceSetup now msg txt).
Proof. unfold handleWorkspaceSetup. frame. Qed.

Lemma keeps_ideaStep (now : string) (msg : Msg) (txt : string) (s : Session) :
  keepsOthers (sessionKey msg) (ideaStep now msg txt s).
Proof. unfold ideaStep. frame. Qed.

Lemma keeps_handleSessionMessage
      (now : string) (msg : Msg) (txt : string) (s : Session) :
  keepsOthers (sessionKey msg) (handleSessionMessage now msg txt s).
Proof.
  unfold handleSessionMessage.
  destruct (type s); [| apply keeps_handleWorkspaceSetup].
  destruct (step s); try apply keeps_ret.
  unfold mbind, M_bind. apply keeps_bind.
  - apply keeps_tryCatch; [apply keeps_ideaStep | intros e; frame].
  - intros [[c r]|]; frame.
Qed.

End HandlerFrames.

Section ListenerFrame.
Import Bot.
Variables handleQuickIdea handleQuickTask : Msg → string → M unit.

Lemma keeps_handleMentions (now : string) (msg : Msg) :
  (∀ cap, keepsOthers (sessionKey msg) (handleQuickIdea msg cap)) →
  (∀ cap, keepsOthers (sessionKey msg) (handleQuickTask msg cap)) →
  keepsOthers (sessionKey msg)
    (handleMentions handleQuickIdea handleQuickTask now msg).
Proof.
  intros Hi Ht. unfold handleMentions.
  destruct (text msg) as [txt|]; [| apply keeps_ret].
  destruct (negb (Js.truthy txt)); [apply keeps_ret |].
  destruct (_ && _); [apply keeps_ret |].
  unfold mbind, M_bind. apply keeps_bind; [apply keeps_get | intros b].
  destruct (userSessions b !! sessionKey msg) as [session|].
  - destruct (String.eqb txt "/cancel"); [frame |].
    apply keeps_bind; [frame |]. intros _.
    apply keeps_bind; [apply keeps_get | intros b1].
    apply keeps_handleSessionMessage.
  - destruct (_ && _); [| apply keeps_ret].
    destruct (labelled "idea:" txt); [apply Hi |].
    destruct (labelled "task:" txt); [apply Ht | apply keeps_ret].
Qed.

End ListenerFrame.

(** X29. Sessions do not interfere: whatever a message or a button press
    does (advance a session, cancel it, fail half-way, store a workspace),
    the handlers write the session store only under the key of the chat or
    user they were called for, so the session of every other user and
    group is exactly as it was. For the message listener this holds as
    soon as it holds for the two quick-capture handlers it may call. *)
Theorem handlers_keep_to_their_own_session (now : string) (msg : Msg) :
  keepsOthers (Bot.sessionKey msg) (Bot.handleInteractiveIdea msg) ∧
  keepsOthers (Bot.sessionKey msg) (Bot.handleSetWorkspace msg) ∧
  keepsOthers (Bot.sessionKey msg) (Bot.handleRemoveWorkspace now msg) ∧
  (∀ txt s,
     keepsOthers (Bot.sessionKey msg) (Bot.handleSessionMessage now msg txt s)) ∧
  (∀ q listId,
     keepsOthers (Bot.querySessionKey q)
       (Bot.handleIdeaListSelection now q listId)) ∧
  (∀ hqi hqt,
     (∀ cap, keepsOthers (Bot.sessionKey msg) (hqi msg cap)) →
     (∀ cap, keepsOthers (Bot.sessionKey msg) (hqt msg cap)) →
     keepsOthers (Bot.sessionKey msg) (Bot.onMessage hqi hqt now msg)).
Proof.
  repeat split.
  - unfold Bot.handleInteractiveIdea. frame.
  - unfold Bot.handleSetWorkspace. frame.
  - unfold Bot.handleRemoveWorkspace. frame.
  - intros txt s. apply keeps_handleSessionMessage.
  - intros q listId. unfold Bot.handleIdeaListSelection. frame.
  - intros hqi hqt Hi Ht. unfold Bot.onMessage.
    apply keeps_tryCatch; [now apply keeps_handleMentions |].
    intros e. apply keeps_modify. reflexivity.
Qed.

Lemma handlers_keep_to_their_own_session_witness :
  Bot.userSessions
    (snd (Bot.onMessage noCapture noCapture "t2"
            (mkMsg 7 (Some "Bob") None 7 Private None (Some "/cancel") false)
            ideaBot)) !! "42"
  = Bot.userSessions ideaBot !! "42".
Proof.
  refine (proj2 (proj2 (proj2 (proj2 (proj2
            (handlers_keep_to_their_own_session "t2"
               (mkMsg 7 (Some "Bob") None 7 Private None (Some "/cancel")
                  false))))))
            noCapture noCapture _ _ ideaBot "42" _).
  - intros cap. apply keeps_ret.
  - intros cap. apply keeps_ret.
  - discriminate.
Defined.

Section SelectionFacts.
Import Bot.

Lemma sendMessage_quiet (c : Z) (r : Reply) (b : t) :
  sendOutcomes b = [] →
  sendMessage c r b
  = (Ok tt, mk (userSessions b) (trelloServices b) (tokenManager b) (config b)
               (botUsername b) (remote b) [] (outbox b ++ [(c, r)])
               (errorLog b)).
Proof. intros H. unfold sendMessage. rewrite H. reflexivity. Qed.

Lemma button_parts (id : string) :
  lacks ":" id = true →
  Callback.parts ("idea_list:" ++ id) = ("idea_list", Some id).
Proof.
  intros H. unfold Callback.parts.
  change ("idea_list:" ++ id) with ("idea_list" ++ String ":" id).
  rewrite split_at by reflexivity. rewrite split_lacks by exact H.
  reflexivity.
Qed.

End SelectionFacts.

(** X30. Pressing the button of a list finishes the idea flow. The data
    of the button the prompt carries for a list (an id without colon) is
    split by [handleCallbackQuery] into the action [idea_list] and the id
    of that list; and when the session under the key of the press holds
    an idea, the list is among the open lists of the chat's board, Trello
    creates the card and the transport delivers, [handleIdeaListSelection]
    completes, has removed exactly that session, and has sent the
    confirmation with the card (the idea's first line after a light bulb)
    followed by the answer to the press. *)
Theorem list_button_creates_the_card
    (now : string) (q : Bot.Query) (l : Bot.TList) (lists : list Bot.TList)
    (session : Bot.Session) (d : Bot.SessionData) (txt url : string)
    (b : Bot.t)
    (Hcolon : lacks ":" (Bot.list_id l) = true)
    (Hs : Bot.userSessions b !! Bot.querySessionKey q = Some session)
    (Hd : Bot.data session = Some d)
    (Hidea : Bot.idea d = Some txt)
    (Htxt : Js.truthy txt = true)
    (Hlists : Bot.listsOnBoard (Bot.remote b)
                (clientKey (Bot.query_chat_id q) now b)
                (default EmptyString (ConfigManager.boardId
                   (ConfigManager.getChatConfig
                      (Js.toString (Bot.query_chat_id q)) (Bot.config b))))
              = Some lists)
    (Hfind : List.find (fun x => String.eqb (Bot.list_id x) (Bot.list_id l))
                       (openLists lists) = Some l)
    (Hcard : Bot.addCard (Bot.remote b)
               (clientKey (Bot.query_chat_id q) now b) (Bot.list_id l)
               (Bot.bulb ++ " " ++ Text.cleanText (Text.extractUrlsFromText txt))
               (Text.description (Text.extractUrlsFromText txt))
             = Some url)
    (Hsend : Bot.sendOutcomes b = []) :
  Callback.parts ("idea_list:" ++ Bot.list_id l)
  = ("idea_list", Some (Bot.list_id l)) ∧
  let r := Bot.handleIdeaListSelection now q (Bot.list_id l) b in
  fst r = Bot.Ok tt ∧
  Bot.userSessions (snd r)
  = delete (Bot.querySessionKey q) (Bot.userSessions b) ∧
  Bot.outbox (snd r)
  = (Bot.outbox b
     ++ [(Bot.query_chat_id q,
          Bot.EditIdeaAdded (Bot.list_name l)
            (Bot.bulb ++ " " ++ Text.cleanText (Text.extractUrlsFromText txt))
            url);
         (Bot.query_chat_id q, Bot.AnswerIdeaCaptured)])%list.
Proof.
  split; [now apply button_parts |].
  intros r. subst r. unfold Bot.handleIdeaListSelection.
  unfold mbind, Bot.M_bind, Bot.bind, Bot.get. cbn [fst snd].
  rewrite Hs, Hd, Hidea. cbn [Js.truthyOpt]. rewrite Htxt. cbn [negb].
  unfold Bot.tryCatch, Bot.getTrelloService, Bot.getChatConfig,
    Bot.getBoardLists, Bot.createCard, Bot.deleteSession, Bot.modify,
    Bot.editMessageText, Bot.answerCallbackQuery.
  unfold clientKey in Hlists, Hcard.
  destruct (TokenManager.getToken _ _ _) as [cred tm] eqn:Etok.
  cbn [fst snd] in Hlists, Hcard.
  cbn [fst snd Bot.remote Bot.config Bot.set_trelloServices
       Bot.set_tokenManager].
  rewrite Hlists. fold (openLists lists). rewrite Hfind.
  cbn [default from_option id]. cbn [Bot.remote Bot.set_trelloServices
       Bot.set_tokenManager]. rewrite Hcard.
  rewrite sendMessage_quiet by exact Hsend.
  rewrite sendMessage_quiet by reflexivity.
  cbn. rewrite <- app_assoc. repeat split; reflexivity.
Qed.

Lemma list_button_creates_the_card_witness :
  let r := Bot.handleIdeaListSelection "t2" (demoQuery "idea_list:L1") "L1"
             listBot in
  Bot.userSessions listBot !! "42" ≠ None ∧
  fst r = Bot.Ok tt ∧ Bot.userSessions (snd r) !! "42" = None.
Proof.
  intros r.
  destruct (list_button_creates_the_card "t2" (demoQuery "idea_list:L1")
              (Bot.mkList "L1" "Ideas" false)
              [Bot.mkList "L1" "Ideas" false; Bot.mkList "L2" "Old" true]
              (Bot.mkSession Bot.WaitingForList Bot.AddIdea
                 (Some (Bot.mkData 42 (Some "Ann") (Some "Buy milk"))) 42)
              (Bot.mkData 42 (Some "Ann") (Some "Buy milk"))
              "Buy milk" "https://trello.com/c/abc" listBot
              eq_refl eq_refl eq_refl eq_refl eq_refl eq_refl eq_refl eq_refl
              eq_refl) as (_ & Hok & Hus & _).
  cbn [Bot.list_id] in Hok, Hus.
  split; [vm_compute; discriminate |]. split; [exact Hok |].
  subst r. rewrite Hus. apply lookup_delete_eq.
Defined.
